(** * Landing-page behaviour: scroll coordination, visibility observers,
      countdown, hero slider timers and outbound-link tagging.

    The repository ships the same feature set twice: [script.js] and an
    optimised rewrite (its header calls it [site-optimized.js]).  Both are
    embedded here, each in a module of its own, so that every statement says
    which implementation it is about.

    Conventions of the embedding
    - pixel offsets and millisecond time stamps are [Z];
    - a DOM element that a selector may fail to find is an [option];
    - a CSS class that the code toggles is a [bool] field of the element;
    - JavaScript exceptions are the [Throw] case of [result];
    - DOM nodes that are only compared by identity are numbered ([nat]);
    - what the platform computes and the repository only calls (reading a
      date, parsing a URL) is a [Variable] of a [Section]: statements hold
      for every such function, and the examples run with [parse_iso] and
      [sample_URL_parser], which follow the standards on the strings they
      cover;
    - the algorithms of the URL Standard that are small enough
      ([URLSearchParams], percent-encoding, the URL serializer) are written
      out. *)

From Stdlib Require Import ZArith Lia Ascii.
From stdpp Require Import prelude gmap strings pretty.

#[local] Open Scope Z_scope.
#[local] Set Warnings "-clear-no-such-hyp".

(** ** Exceptions *)

Inductive exn : Type :=
| TypeError
| ReferenceError.

Inductive result (A : Type) : Type :=
| Ok (a : A)
| Throw (e : exn).
Arguments Ok {A} a.
Arguments Throw {A} e.

Definition bind {A B} (r : result A) (k : A -> result B) : result B :=
  match r with
  | Ok a => k a
  | Throw e => Throw e
  end.

(** JavaScript truthiness of an attribute value ([null] and the empty
    string are falsy). *)
Definition truthy (a : option string) : bool :=
  match a with
  | Some s => negb (bool_decide (s = ""))
  | None => false
  end.

(** ** Scroll coordinator *)

Module Scroll.

(** A [section[id]] element with the layout numbers the code reads. *)
Record Section : Type := mkSection {
  sec_id : string;
  offsetTop : Z;
  offsetHeight : Z
}.

(** A [[data-nav-link]] element: its [href] attribute ([None] when
    [getAttribute] returns [null]) and its ["active"] class. *)
Record NavLink : Type := mkNavLink {
  href : option string;
  link_active : bool
}.

(** The part of the document the scroll handlers read and write.  The
    header itself is present: both files install the handlers only under
    [if (header)] / after [if (!header) return]. *)
Record Dom : Type := mkDom {
  scrollY : Z;                   (* window.scrollY, alias window.pageYOffset *)
  header_scrolled : bool;        (* #header has class "scrolled" *)
  header_hide : bool;            (* #header has class "hide" *)
  header_offsetHeight : Z;
  navMenu : option bool;         (* #mainNav, with its class "active" *)
  mobileMenuBtn : option bool;   (* #mobileMenuBtn, aria-expanded = "true" *)
  backToTopBtn : option bool;    (* #backToTop, with its class "show" *)
  sections : list Section;
  navLinks : list NavLink
}.

Definition pageYOffset (d : Dom) : Z := scrollY d.

Definition set_scrollY (y : Z) (d : Dom) : Dom :=
  mkDom y (header_scrolled d) (header_hide d) (header_offsetHeight d)
        (navMenu d) (mobileMenuBtn d) (backToTopBtn d) (sections d) (navLinks d).

Definition set_header_scrolled (b : bool) (d : Dom) : Dom :=
  mkDom (scrollY d) b (header_hide d) (header_offsetHeight d)
        (navMenu d) (mobileMenuBtn d) (backToTopBtn d) (sections d) (navLinks d).

Definition set_header_hide (b : bool) (d : Dom) : Dom :=
  mkDom (scrollY d) (header_scrolled d) b (header_offsetHeight d)
        (navMenu d) (mobileMenuBtn d) (backToTopBtn d) (sections d) (navLinks d).

Definition set_navMenu (m : option bool) (d : Dom) : Dom :=
  mkDom (scrollY d) (header_scrolled d) (header_hide d) (header_offsetHeight d)
        m (mobileMenuBtn d) (backToTopBtn d) (sections d) (navLinks d).

Definition set_mobileMenuBtn (m : option bool) (d : Dom) : Dom :=
  mkDom (scrollY d) (header_scrolled d) (header_hide d) (header_offsetHeight d)
        (navMenu d) m (backToTopBtn d) (sections d) (navLinks d).

Definition set_backToTopBtn (b : option bool) (d : Dom) : Dom :=
  mkDom (scrollY d) (header_scrolled d) (header_hide d) (header_offsetHeight d)
        (navMenu d) (mobileMenuBtn d) b (sections d) (navLinks d).

Definition set_navLinks (l : list NavLink) (d : Dom) : Dom :=
  mkDom (scrollY d) (header_scrolled d) (header_hide d) (header_offsetHeight d)
        (navMenu d) (mobileMenuBtn d) (backToTopBtn d) (sections d) l.

(** The overlay is open when [#mainNav] exists and carries ["active"]. *)
Definition overlay_open (d : Dom) : bool :=
  match navMenu d with
  | Some a => a
  | None => false
  end.

(** The back-to-top button is shown when it exists and carries ["show"]. *)
Definition backToTop_shown (d : Dom) : bool :=
  match backToTopBtn d with
  | Some s => s
  | None => false
  end.

(** [link.classList.toggle("active", link.getAttribute("href") === `#${id}`)]
    for every link. *)
Definition targets (id : string) (l : NavLink) : bool :=
  bool_decide (href l = Some ("#" +:+ id)).

Definition toggle_links (id : string) (links : list NavLink) : list NavLink :=
  map (fun l => mkNavLink (href l) (targets id l)) links.

(** The test of [setActiveLink] / [setActive] on one section. *)
Definition section_active (v : Z) (s : Section) : bool :=
  (offsetTop s <=? v + 100) && (v + 100 <? offsetTop s + offsetHeight s).

(** The [sections.forEach] loop, threading the links it rewrites. *)
Definition mark_links (v : Z) (secs : list Section) (links : list NavLink)
  : list NavLink :=
  fold_left
    (fun ls s => if section_active v s then toggle_links (sec_id s) ls else ls)
    secs links.

(** [toggleMobileMenu(show)], as far as the scroll handlers can see it. *)
Definition toggleMobileMenu (show : bool) (d : Dom) : Dom :=
  set_mobileMenuBtn (Some show) (set_navMenu (Some show) d).

(** The click listener of [#mobileMenuBtn]; it is installed only when both
    the button and the menu exist. *)
Definition mobileMenuBtn_click (d : Dom) : Dom :=
  match mobileMenuBtn d, navMenu d with
  | Some isExpanded, Some _ => toggleMobileMenu (negb isExpanded) d
  | _, _ => d
  end.

(** The routines whose invocations are counted. *)
Inductive Routine : Type :=
| RUpdateHeader
| RSetActiveLink
| RToggleBackToTop.

#[export] Instance Routine_eq_dec : EqDecision Routine.
Proof. solve_decision. Defined.

(** What the page can be made to do. *)
Inductive Event : Type :=
| EScroll (y : Z)      (* the viewport moves to [y]; a scroll event fires *)
| EFrame               (* the animation-frame callbacks run *)
| EMenuClick           (* click on #mobileMenuBtn *)
| ELoad.               (* the window's load event *)

(** A callback handed to [window.requestAnimationFrame]. *)
Inductive Callback : Type :=
| CbUpdateHeader
| CbSetActive.

(** The closure variables of the handlers, the queue of pending frame
    callbacks, and a log of routine invocations (the log is not in the
    source; it records each call so that calls can be counted). *)
Record World : Type := mkWorld {
  dom : Dom;
  lastScroll : Z;
  ticking : bool;
  headerHeight : Z;
  ticking_nav : bool;   (* [ticking] of initActiveNavOnScroll, optimised file *)
  raf : list Callback;
  trace : list Routine
}.

Definition set_dom (d : Dom) (w : World) : World :=
  mkWorld d (lastScroll w) (ticking w) (headerHeight w) (ticking_nav w)
          (raf w) (trace w).

Definition set_ticking (b : bool) (w : World) : World :=
  mkWorld (dom w) (lastScroll w) b (headerHeight w) (ticking_nav w)
          (raf w) (trace w).

Definition set_ticking_nav (b : bool) (w : World) : World :=
  mkWorld (dom w) (lastScroll w) (ticking w) (headerHeight w) b
          (raf w) (trace w).

Definition set_raf (q : list Callback) (w : World) : World :=
  mkWorld (dom w) (lastScroll w) (ticking w) (headerHeight w) (ticking_nav w)
          q (trace w).

Definition set_trace (t : list Routine) (w : World) : World :=
  mkWorld (dom w) (lastScroll w) (ticking w) (headerHeight w) (ticking_nav w)
          (raf w) t.

Definition requestAnimationFrame (cb : Callback) (w : World) : World :=
  set_raf (raf w ++ [cb]) w.

(** Calling routine [r], implemented by [f]: the call is logged. *)
Definition invoke (r : Routine) (f : World -> World) (w : World) : World :=
  f (set_trace (trace w ++ [r]) w).

(** A listener that may throw: the exception is reported by the browser
    and the remaining listeners of the event still run. *)
Definition invoke_listener (r : Routine) (f : World -> result World)
    (w : World) : World :=
  let w' := set_trace (trace w ++ [r]) w in
  match f w' with
  | Ok w'' => w''
  | Throw _ => w'
  end.

Definition invocations (r : Routine) (t : list Routine) : nat :=
  length (filter (fun x => x = r) t).

(** *** script.js *)

Module Script.

(** [updateHeader], script.js lines 227-252. *)
Definition updateHeader (w : World) : World :=
  let d := dom w in
  let currentScroll := pageYOffset d in
  let d1 := set_header_scrolled (50 <? currentScroll) d in
  let d2 :=
    if match navMenu d1 with None => true | Some a => negb a end
    then
      if (lastScroll w <? currentScroll) && (headerHeight w <? currentScroll)
      then set_header_hide true d1
      else set_header_hide false d1
    else d1 in
  let d3 :=
    match backToTopBtn d2 with
    | Some _ => set_backToTopBtn (Some (300 <? currentScroll)) d2
    | None => d2
    end in
  mkWorld d3 (if currentScroll <=? 0 then 0 else currentScroll) false
          (headerHeight w) (ticking_nav w) (raf w) (trace w).

(** [onScroll], lines 254-259. *)
Definition onScroll (w : World) : World :=
  if negb (ticking w)
  then set_ticking true (requestAnimationFrame CbUpdateHeader w)
  else w.

(** [setActiveLink], lines 283-303. *)
Definition setActiveLink (w : World) : World :=
  let d := dom w in
  set_dom (set_navLinks (mark_links (scrollY d) (sections d) (navLinks d)) d) w.

(** [toggleBackToTopButton], lines 526-532.  [backToTopButton] is the
    result of [getElementById("backToTop")]; reading [.classList] of
    [null] is a TypeError. *)
Definition toggleBackToTopButton (w : World) : result World :=
  let d := dom w in
  match backToTopBtn d with
  | None => Throw TypeError
  | Some _ =>
      if 300 <? pageYOffset d
      then Ok (set_dom (set_backToTopBtn (Some true) d) w)
      else Ok (set_dom (set_backToTopBtn (Some false) d) w)
  end.

(** The scroll listeners in registration order: line 541 runs with the
    script, lines 261 and 307 when DOMContentLoaded fires. *)
Definition dispatch_scroll (w : World) : World :=
  let w1 := invoke_listener RToggleBackToTop toggleBackToTopButton w in
  let w2 := onScroll w1 in
  invoke RSetActiveLink setActiveLink w2.

Definition run_callback (w : World) (cb : Callback) : World :=
  match cb with
  | CbUpdateHeader => invoke RUpdateHeader updateHeader w
  | CbSetActive => invoke RSetActiveLink setActiveLink w
  end.

(** One animation frame: the callbacks queued so far run, in order. *)
Definition frame (w : World) : World :=
  fold_left run_callback (raf w) (set_raf [] w).

(** Lines 223-225 and 262: the closure variables, then [updateHeader()]. *)
Definition init (d : Dom) : World :=
  invoke RUpdateHeader updateHeader
    (mkWorld d 0 false (header_offsetHeight d) false [] []).

Definition step (w : World) (ev : Event) : World :=
  match ev with
  | EScroll y => dispatch_scroll (set_dom (set_scrollY y (dom w)) w)
  | EFrame => frame w
  | EMenuClick => set_dom (mobileMenuBtn_click (dom w)) w
  | ELoad => invoke RSetActiveLink setActiveLink w
  end.

Definition run (evs : list Event) (w : World) : World := fold_left step evs w.

End Script.

(** *** The optimised file *)

Module Optimized.

(** [updateHeader], lines 182-204. *)
Definition updateHeader (w : World) : World :=
  let d := dom w in
  let currentScroll :=
    if negb (pageYOffset d =? 0) then pageYOffset d
    else if negb (scrollY d =? 0) then scrollY d
    else 0 in
  let d1 := set_header_scrolled (50 <? currentScroll) d in
  let d2 :=
    if match navMenu d1 with None => true | Some a => negb a end
    then
      if (lastScroll w <? currentScroll) && (headerHeight w <? currentScroll)
      then set_header_hide true d1
      else set_header_hide false d1
    else d1 in
  let d3 :=
    match backToTopBtn d2 with
    | Some _ => set_backToTopBtn (Some (300 <? currentScroll)) d2
    | None => d2
    end in
  mkWorld d3 (Z.max 0 currentScroll) false
          (headerHeight w) (ticking_nav w) (raf w) (trace w).

(** [onScroll] of initHeaderAndBackToTop, lines 206-211. *)
Definition onScroll (w : World) : World :=
  if negb (ticking w)
  then set_ticking true (requestAnimationFrame CbUpdateHeader w)
  else w.

(** [setActive], lines 330-346. *)
Definition setActive (w : World) : World :=
  let d := dom w in
  set_ticking_nav false
    (set_dom (set_navLinks (mark_links (scrollY d) (sections d) (navLinks d)) d)
             w).

(** [onScroll] of initActiveNavOnScroll, lines 348-353. *)
Definition onScroll_nav (w : World) : World :=
  if negb (ticking_nav w)
  then set_ticking_nav true (requestAnimationFrame CbSetActive w)
  else w.

(** Line 326: without sections or without links nothing is registered. *)
Definition nav_registered (d : Dom) : bool :=
  negb (Nat.eqb (length (sections d)) 0) && negb (Nat.eqb (length (navLinks d)) 0).

Definition dispatch_scroll (w : World) : World :=
  let w1 := onScroll w in
  if nav_registered (dom w1) then onScroll_nav w1 else w1.

Definition run_callback (w : World) (cb : Callback) : World :=
  match cb with
  | CbUpdateHeader => invoke RUpdateHeader updateHeader w
  | CbSetActive => invoke RSetActiveLink setActive w
  end.

Definition frame (w : World) : World :=
  fold_left run_callback (raf w) (set_raf [] w).

(** Lines 178-180 and 214. *)
Definition init (d : Dom) : World :=
  invoke RUpdateHeader updateHeader
    (mkWorld d 0 false
       (if negb (header_offsetHeight d =? 0) then header_offsetHeight d else 80)
       false [] []).

Definition step (w : World) (ev : Event) : World :=
  match ev with
  | EScroll y => dispatch_scroll (set_dom (set_scrollY y (dom w)) w)
  | EFrame => frame w
  | EMenuClick => set_dom (mobileMenuBtn_click (dom w)) w
  | ELoad =>
      if nav_registered (dom w) then invoke RSetActiveLink setActive w else w
  end.

Definition run (evs : list Event) (w : World) : World := fold_left step evs w.

End Optimized.

(** *** Scheduler states and a sample page *)

(** A concrete page used in examples: a 80px header, the mobile menu closed,
    a back-to-top button, two nested sections and their links. *)
Definition sample_dom : Dom :=
  mkDom 0 false false 80 (Some false) (Some false) (Some false)
        [mkSection "plans" 0 1000; mkSection "faq" 100 200]
        [mkNavLink (Some "#plans") false; mkNavLink (Some "#faq") false].

(** The scheduler is idle (nothing pending) or pending (one callback). *)
Definition idle (w : World) : Prop := ticking w = false /\ raf w = [].
Definition pending (w : World) : Prop :=
  ticking w = true /\ raf w = [CbUpdateHeader].

(** The optimised file: both routines go through a frame callback. *)
Definition idle_nav (w : World) : Prop :=
  ticking w = false /\ ticking_nav w = false /\ raf w = [].

Definition pending_nav (w0 w : World) : Prop :=
  trace w = trace w0
  /\ Optimized.nav_registered (dom w) = Optimized.nav_registered (dom w0)
  /\ ticking w = true
  /\ raf w = CbUpdateHeader ::
             (if Optimized.nav_registered (dom w0) then [CbSetActive] else [])
  /\ (Optimized.nav_registered (dom w0) = true -> ticking_nav w = true).

End Scroll.

(** ** Visibility observers *)

Module Observer.

(** An [IntersectionObserverEntry], as far as the callbacks read it. *)
Record Entry : Type := mkEntry {
  target : nat;
  isIntersecting : bool
}.

(** A lazy image: the attributes and handlers the callback touches. *)
Record Img : Type := mkImg {
  src : string;
  data_src : option string;      (* getAttribute("data-src") *)
  data_loaded : option string;   (* getAttribute("data-loaded") *)
  handlers : bool                (* onload / onerror installed *)
}.

(** One observer instance with the elements it serves.  [fired] is not in
    the source: it logs, in order, each run of the visible-callback body
    (loading an image, revealing an animated element). *)
Record State : Type := mkState {
  observed : gset nat;       (* the observer's watch set *)
  imgs : gmap nat Img;       (* the lazy images, by node *)
  aos_animate : gset nat;    (* nodes with class "aos-animate" *)
  fired : list nat
}.

Definition unobserve (t : nat) (st : State) : State :=
  mkState (observed st ∖ {[t]}) (imgs st) (aos_animate st) (fired st).

Definition observe (t : nat) (st : State) : State :=
  mkState ({[t]} ∪ observed st) (imgs st) (aos_animate st) (fired st).

Definition set_img (t : nat) (im : Img) (st : State) : State :=
  mkState (observed st) (<[t := im]> (imgs st)) (aos_animate st) (fired st).

Definition add_aos_animate (t : nat) (st : State) : State :=
  mkState (observed st) (imgs st) ({[t]} ∪ aos_animate st) (fired st).

Definition log_fired (t : nat) (st : State) : State :=
  mkState (observed st) (imgs st) (aos_animate st) (fired st ++ [t]).

(** The body of [entries.forEach] in [animateOnScrollObserver]
    (optimised file, lines 43-53). *)
Definition aos_entry (st : State) (entry : Entry) : State :=
  if isIntersecting entry then
    let t := target entry in
    unobserve t (add_aos_animate t (log_fired t st))
  else st.

(** The body of [entries.forEach] in [initLazyLoading], script.js lines
    18-44.  The target of an entry is one of the images. *)
Definition lazy_entry_script (st : State) (entry : Entry) : State :=
  if isIntersecting entry then
    let img := target entry in
    match imgs st !! img with
    | None => st
    | Some im =>
        if bool_decide (data_loaded im = Some "true") then unobserve img st
        else
          let src' := if truthy (data_src im)
                      then default (src im) (data_src im) else src im in
          unobserve img
            (set_img img (mkImg src' (data_src im) (data_loaded im) true)
               (log_fired img st))
    end
  else st.

(** The same loop body in the optimised file, lines 71-96. *)
Definition lazy_entry_optimized (st : State) (entry : Entry) : State :=
  if negb (isIntersecting entry) then st
  else
    let img := target entry in
    match imgs st !! img with
    | None => st
    | Some im =>
        if bool_decide (data_loaded im = Some "true") then unobserve img st
        else
          let dataSrc := data_src im in
          let src' := if truthy dataSrc then default (src im) dataSrc
                      else src im in
          unobserve img
            (set_img img (mkImg src' (data_src im) (data_loaded im) true)
               (log_fired img st))
    end.

(** The three observers of the repository, by their loop body. *)
Inductive Kind : Type :=
| AosOptimized
| LazyScript
| LazyOptimized.

Definition entry_handler (k : Kind) : State -> Entry -> State :=
  match k with
  | AosOptimized => aos_entry
  | LazyScript => lazy_entry_script
  | LazyOptimized => lazy_entry_optimized
  end.

(** The observer callback: [entries.forEach(...)]. *)
Definition callback (k : Kind) (entries : list Entry) (st : State) : State :=
  fold_left (entry_handler k) entries st.

(** One check cycle of the platform.  [vis t] is the platform's verdict
    that [t] intersects the root at the configured threshold and margin;
    the callback receives one entry per observed target.  (A browser leaves
    out the entries whose verdict did not change; for an observed target
    those are non-intersecting entries, which the callbacks skip.) *)
Definition entries_of (vis : nat -> bool) (st : State) : list Entry :=
  map (fun t => mkEntry t (vis t)) (elements (observed st)).

Definition check_cycle (k : Kind) (vis : nat -> bool) (st : State) : State :=
  callback k (entries_of vis st) st.

(** [img.onload] and [img.onerror], which the lazy callback installs. *)
Definition img_onload (t : nat) (st : State) : State :=
  match imgs st !! t with
  | Some im =>
      if handlers im
      then set_img t (mkImg (src im) None (Some "true") true) st
      else st
  | None => st
  end.

Definition img_onerror (t : nat) (st : State) : State :=
  match imgs st !! t with
  | Some im =>
      if handlers im
      then set_img t (mkImg (src im) (data_src im) (Some "error") true) st
      else st
  | None => st
  end.

Inductive Event : Type :=
| Cycle (vis : nat -> bool)
| ImgLoad (t : nat)
| ImgError (t : nat).

Definition step (k : Kind) (st : State) (ev : Event) : State :=
  match ev with
  | Cycle vis => check_cycle k vis st
  | ImgLoad t => img_onload t st
  | ImgError t => img_onerror t st
  end.

Definition run (k : Kind) (evs : list Event) (st : State) : State :=
  fold_left (step k) evs st.

(** The tiny SVG placeholders of the two files. *)
Definition PLACEHOLDER_SCRIPT : string :=
  "data:image/svg+xml;base64,PHN2ZyB4bWxucz0iaHR0cDovL3d3dy53My5vcmcvMjAwMC9zdmciIHdpZHRoPSIxIiBoZWlnaHQ9IjEiPjwvc3ZnPg=".

Definition VALID_SVG_PLACEHOLDER : string :=
  "data:image/svg+xml;base64,PHN2ZyB4bWxucz0iaHR0cDovL3d3dy53My5vcmcvMjAwMC9zdmciIHdpZHRoPSIxIiBoZWlnaHQ9IjEiPjxyZWN0IHdpZHRoPSIxIiBoZWlnaHQ9IjEiIGZpbGw9IiNlZWUiLz48L3N2Zz4=".

(** Registration, one element at a time: the [lazyImages.forEach] loops
    (script.js lines 51-59, optimised file lines 104-114) and the loop of
    [initAosFallback] (lines 586-593; classes and inline styles it sets
    play no part here). *)
Definition register_one (k : Kind) (st : State) (t : nat) : State :=
  match k with
  | AosOptimized => observe t st
  | LazyScript =>
      match imgs st !! t with
      | Some im =>
          observe t
            (if negb (bool_decide (is_Some (data_src im)))
             then set_img t (mkImg PLACEHOLDER_SCRIPT (Some (src im))
                               (data_loaded im) (handlers im)) st
             else st)
      | None => observe t st
      end
  | LazyOptimized =>
      match imgs st !! t with
      | Some im =>
          let ds := if negb (bool_decide (is_Some (data_src im)))
                    then Some (src im) else data_src im in
          let sr := if bool_decide (src im = "") then VALID_SVG_PLACEHOLDER
                    else src im in
          observe t (set_img t (mkImg sr ds (data_loaded im) (handlers im)) st)
      | None => observe t st
      end
  end.

Definition init (k : Kind) (images : gmap nat Img) (ts : list nat) : State :=
  fold_left (register_one k) ts (mkState ∅ images ∅ []).

(** The one-shot invariant: nothing fired twice, nothing fired is still
    observed. *)
Definition one_shot (st : State) : Prop :=
  NoDup (fired st) /\ forall t, t ∈ fired st -> t ∉ observed st.

End Observer.

(** ** Countdown *)

Module Countdown.

(** A JavaScript number that is an integer or [NaN].  The time values met
    here are integers below 2^53, on which the double arithmetic of the
    source is exact. *)
Definition num : Type := option Z.
Definition NaN : num := None.

Definition num_sub (a b : num) : num :=
  match a, b with
  | Some x, Some y => Some (x - y)
  | _, _ => NaN
  end.

(** [a < b]: false as soon as one side is [NaN]. *)
Definition num_lt (a b : num) : bool :=
  match a, b with
  | Some x, Some y => x <? y
  | _, _ => false
  end.

Definition isNaN (a : num) : bool :=
  match a with
  | Some _ => false
  | None => true
  end.

(** [Math.floor(a / d)] and [a % d] for a positive integer [d]. *)
Definition floor_div (a : num) (d : Z) : num := (fun x => x / d) <$> a.
Definition num_rem (a : num) (d : Z) : num := (fun x => Z.rem x d) <$> a.

(** [Number.prototype.toString] and [padStart(2, "0")]. *)
Definition toString (a : num) : string :=
  match a with
  | Some x => pretty x
  | None => "NaN"
  end.

Definition padStart2 (s : string) : string :=
  match String.length s with
  | O => "00"
  | S O => "0" +:+ s
  | _ => s
  end.

(** A rendered unit is numeric when it consists of decimal digits only. *)
Definition is_digit (c : Ascii.ascii) : bool :=
  (48 <=? Ascii.nat_of_ascii c)%nat && (Ascii.nat_of_ascii c <=? 57)%nat.

Fixpoint all_digits (s : string) : bool :=
  match s with
  | EmptyString => true
  | String c s' => is_digit c && all_digits s'
  end.

Definition numeric_unit (s : string) : bool :=
  negb (bool_decide (s = "")) && all_digits s.

(** The elements of the countdown widget. *)
Record Dom : Type := mkDom {
  cta_timer : option (option string);  (* .cta-timer and data-countdown-date *)
  el_days : option string;             (* innerHTML of #days, if present *)
  el_hours : option string;
  el_minutes : option string;
  el_seconds : option string;
  countdown_pulse : option bool        (* .countdown, class "animate-pulse" *)
}.

Definition set_countdown_date (v : string) (d : Dom) : Dom :=
  mkDom (match cta_timer d with Some _ => Some (Some v) | None => None end)
        (el_days d) (el_hours d) (el_minutes d) (el_seconds d)
        (countdown_pulse d).

Definition set_days (v : string) (d : Dom) : Dom :=
  mkDom (cta_timer d) (Some v) (el_hours d) (el_minutes d) (el_seconds d)
        (countdown_pulse d).
Definition set_hours (v : string) (d : Dom) : Dom :=
  mkDom (cta_timer d) (el_days d) (Some v) (el_minutes d) (el_seconds d)
        (countdown_pulse d).
Definition set_minutes (v : string) (d : Dom) : Dom :=
  mkDom (cta_timer d) (el_days d) (el_hours d) (Some v) (el_seconds d)
        (countdown_pulse d).
Definition set_seconds (v : string) (d : Dom) : Dom :=
  mkDom (cta_timer d) (el_days d) (el_hours d) (el_minutes d) (Some v)
        (countdown_pulse d).
Definition set_pulse (d : Dom) : Dom :=
  mkDom (cta_timer d) (el_days d) (el_hours d) (el_minutes d) (el_seconds d)
        (Some true).

Definition fourDaysMs : Z := 4 * 24 * 60 * 60 * 1000.

Section WithDate.

(** The platform's date functions: [Date_getTime s] is
    [new Date(s).getTime()] ([NaN] for an unparsable string) and
    [toISOString t] is [new Date(t).toISOString()]. *)
Variable Date_getTime : string -> num.
Variable toISOString : Z -> string.

(** [el.innerHTML = v] on the result of [getElementById]: a TypeError when
    the element is missing. *)
Definition assign (el : Dom -> option string) (set : string -> Dom -> Dom)
    (v : string) (d : Dom) : result Dom :=
  match el d with
  | Some _ => Ok (set v d)
  | None => Throw TypeError
  end.

(** [updateCountdown], script.js lines 475-521; [now] is [Date.now()]. *)
Definition Script_updateCountdown (now : Z) (d : Dom) : result Dom :=
  match cta_timer d with
  | None => Ok d
  | Some attr =>
      if negb (truthy attr) then Ok d
      else
        let targetDateStr := default "" attr in
        let countDownDate := Date_getTime targetDateStr in
        let distance := num_sub countDownDate (Some now) in
        if num_lt distance (Some 0)
        then Ok (set_countdown_date (toISOString (now + fourDaysMs)) d)
        else
          let days := floor_div distance (1000 * 60 * 60 * 24) in
          let hours :=
            floor_div (num_rem distance (1000 * 60 * 60 * 24)) (1000 * 60 * 60) in
          let minutes :=
            floor_div (num_rem distance (1000 * 60 * 60)) (1000 * 60) in
          let seconds := floor_div (num_rem distance (1000 * 60)) 1000 in
          bind (assign el_days set_days (padStart2 (toString days)) d) (fun d1 =>
          bind (assign el_hours set_hours (padStart2 (toString hours)) d1) (fun d2 =>
          bind (assign el_minutes set_minutes (padStart2 (toString minutes)) d2) (fun d3 =>
          bind (assign el_seconds set_seconds (padStart2 (toString seconds)) d3) (fun d4 =>
          if num_lt days (Some 1)
          then match countdown_pulse d4 with
               | Some _ => Ok (set_pulse d4)
               | None => Throw TypeError
               end
          else Ok d4))))
  end.

(** [if (el) el.innerHTML = v]. *)
Definition assign_if (el : Dom -> option string) (set : string -> Dom -> Dom)
    (v : string) (d : Dom) : Dom :=
  match el d with
  | Some _ => set v d
  | None => d
  end.

(** [updateCountdown], optimised file lines 362-407. *)
Definition Optimized_updateCountdown (now : Z) (d : Dom) : Dom :=
  match cta_timer d with
  | None => d
  | Some attr =>
      if negb (truthy attr) then d
      else
        let targetDateStr := default "" attr in
        let countDownDate := Date_getTime targetDateStr in
        if isNaN countDownDate || num_lt countDownDate (Some now)
        then set_countdown_date (toISOString (now + fourDaysMs)) d
        else
          let distance := num_sub countDownDate (Some now) in
          let days := floor_div distance (1000 * 60 * 60 * 24) in
          let hours :=
            floor_div (num_rem distance (1000 * 60 * 60 * 24)) (1000 * 60 * 60) in
          let minutes :=
            floor_div (num_rem distance (1000 * 60 * 60)) (1000 * 60) in
          let seconds := floor_div (num_rem distance (1000 * 60)) 1000 in
          let d1 := assign_if el_days set_days (padStart2 (toString days)) d in
          let d2 := assign_if el_hours set_hours (padStart2 (toString hours)) d1 in
          let d3 :=
            assign_if el_minutes set_minutes (padStart2 (toString minutes)) d2 in
          let d4 :=
            assign_if el_seconds set_seconds (padStart2 (toString seconds)) d3 in
          if num_lt days (Some 1)
          then match countdown_pulse d4 with
               | Some _ => set_pulse d4
               | None => d4
               end
          else d4
  end.

End WithDate.

(** *** Dates as strings: a date platform for the examples

    [toISOString] is fixed by the language: [YYYY-MM-DDTHH:mm:ss.sssZ] in
    UTC, with a signed six-digit year outside 0..9999.  [parse_iso] reads
    the date-time string format of the language with an explicit UTC
    offset, as the engine's ISO parser does: a year, optionally a month
    and a day; optionally [T], hours and minutes, optionally seconds and a
    fraction; then [Z] or [+HH:mm] or [-HH:mm].  A date without time is
    in UTC.  A day up to 31 is taken in every month and rolls over into the
    next one; 24:00:00 ends the day.  A string that does not begin with a
    year ([soon], the empty string) is no date.  What [parse_iso] leaves
    out, and answers [NaN] for: a time without offset, which is local time
    and depends on the time zone, and the engine's older formats
    ([Nov 10, 2026]).  The theorems do not depend on it: they hold for
    every date function; the examples use it on strings of the format
    above. *)

(** Civil date of a day count since 1970-01-01, and back. *)
Definition civil_from_days (days : Z) : Z * Z * Z :=
  let z := days + 719468 in
  let era := z / 146097 in
  let doe := z - era * 146097 in
  let yoe := (doe - doe / 1460 + doe / 36524 - doe / 146096) / 365 in
  let doy := doe - (365 * yoe + yoe / 4 - yoe / 100) in
  let mp := (5 * doy + 2) / 153 in
  let d := doy - (153 * mp + 2) / 5 + 1 in
  let m := if mp <? 10 then mp + 3 else mp - 9 in
  let y := yoe + era * 400 + (if m <=? 2 then 1 else 0) in
  (y, m, d).

Definition days_from_civil (y m d : Z) : Z :=
  let y' := if m <=? 2 then y - 1 else y in
  let era := y' / 400 in
  let yoe := y' - era * 400 in
  let doy := (153 * (if 2 <? m then m - 3 else m + 9) + 2) / 5 + d - 1 in
  let doe := yoe * 365 + yoe / 4 - yoe / 100 + doy in
  era * 146097 + doe - 719468.

Definition msPerDay : Z := 86400000.

(** Decimal digits of [x], padded with zeros to [n] places. *)
Definition zero_pad (n : nat) (x : Z) : string :=
  let s := pretty x in
  String.concat "" (replicate (n - String.length s) "0") +:+ s.

Definition format_iso (t : Z) : string :=
  let '(y, m, d) := civil_from_days (t / msPerDay) in
  let ms := t mod msPerDay in
  let year := if (0 <=? y) && (y <=? 9999) then zero_pad 4 y
              else (if y <? 0 then "-" else "+") +:+ zero_pad 6 (Z.abs y) in
  year +:+ "-" +:+ zero_pad 2 m +:+ "-" +:+ zero_pad 2 d
    +:+ "T" +:+ zero_pad 2 (ms / 3600000)
    +:+ ":" +:+ zero_pad 2 (ms mod 3600000 / 60000)
    +:+ ":" +:+ zero_pad 2 (ms mod 60000 / 1000)
    +:+ "." +:+ zero_pad 3 (ms mod 1000) +:+ "Z".

Definition digit_value (c : Ascii.ascii) : option Z :=
  if is_digit c then Some (Z.of_nat (Ascii.nat_of_ascii c) - 48) else None.

(** The number written by the first [n] characters, which must be digits,
    after the digits [acc] already read; and the characters that follow. *)
Fixpoint read_digits (n : nat) (acc : Z) (cs : list Ascii.ascii)
  : option (Z * list Ascii.ascii) :=
  match n with
  | O => Some (acc, cs)
  | S n' =>
      match cs with
      | c :: cs' => v ← digit_value c; read_digits n' (10 * acc + v) cs'
      | [] => None
      end
  end.

(** The leading digits of [cs] and what follows them. *)
Fixpoint span_digits (cs : list Ascii.ascii)
  : list Ascii.ascii * list Ascii.ascii :=
  match cs with
  | c :: cs' =>
      if is_digit c then let '(ds, r) := span_digits cs' in (c :: ds, r)
      else ([], cs)
  | [] => ([], [])
  end.

(** A four-digit year, or a sign and six digits; [-000000] is no year. *)
Definition read_year (cs : list Ascii.ascii) : option (Z * list Ascii.ascii) :=
  match cs with
  | "+"%char :: cs' => read_digits 6 0 cs'
  | "-"%char :: cs' =>
      '(y, r) ← read_digits 6 0 cs';
      if y =? 0 then None else Some (- y, r)
  | _ => read_digits 4 0 cs
  end.

(** [YYYY], [YYYY-MM] or [YYYY-MM-DD]; a part left out counts as 1. *)
Definition read_date (cs : list Ascii.ascii)
  : option (Z * Z * Z * list Ascii.ascii) :=
  '(y, r) ← read_year cs;
  match r with
  | "-"%char :: r1 =>
      '(m, r2) ← read_digits 2 0 r1;
      match r2 with
      | "-"%char :: r3 => '(d, r4) ← read_digits 2 0 r3; Some (y, m, d, r4)
      | _ => Some (y, m, 1, r2)
      end
  | _ => Some (y, 1, 1, r)
  end.

(** The digits after the decimal point as milliseconds: the first three
    count, a missing one is 0. *)
Definition read_fraction (cs : list Ascii.ascii)
  : option (Z * list Ascii.ascii) :=
  let '(ds, r) := span_digits cs in
  match ds with
  | [] => None
  | _ => '(f, _) ← read_digits 3 0 (take 3 (ds ++ ["0"; "0"]%char)); Some (f, r)
  end.

(** [HH:mm], [HH:mm:ss] or [HH:mm:ss.sss], in milliseconds since midnight. *)
Definition read_time (cs : list Ascii.ascii) : option (Z * list Ascii.ascii) :=
  '(h, r1) ← read_digits 2 0 cs;
  match r1 with
  | ":"%char :: r2 =>
      '(n, r3) ← read_digits 2 0 r2;
      '(c, f, r) ← match r3 with
                   | ":"%char :: r4 =>
                       '(c, r5) ← read_digits 2 0 r4;
                       match r5 with
                       | "."%char :: r6 =>
                           '(f, r7) ← read_fraction r6; Some (c, f, r7)
                       | _ => Some (c, 0, r5)
                       end
                   | _ => Some (0, 0, r3)
                   end;
      if ((h <=? 23) && (n <=? 59) && (c <=? 59))
         || ((h =? 24) && (n =? 0) && (c =? 0) && (f =? 0))
      then Some (h * 3600000 + n * 60000 + c * 1000 + f, r)
      else None
  | _ => None
  end.

(** [Z], [+HH:mm] or [-HH:mm] up to the end of the string, in
    milliseconds east of UTC. *)
Definition read_offset (cs : list Ascii.ascii) : option Z :=
  let hhmm (sign : Z) (r : list Ascii.ascii) : option Z :=
    '(h, r1) ← read_digits 2 0 r;
    match r1 with
    | ":"%char :: r2 =>
        '(n, r3) ← read_digits 2 0 r2;
        match r3 with
        | [] => if (h <=? 23) && (n <=? 59)
                then Some (sign * (h * 3600000 + n * 60000)) else None
        | _ => None
        end
    | _ => None
    end in
  match cs with
  | ["Z"%char] => Some 0
  | "+"%char :: r => hhmm 1 r
  | "-"%char :: r => hhmm (-1) r
  | _ => None
  end.

(** The largest time value, 100 000 000 days: beyond it a date is invalid. *)
Definition maxTime : Z := 8640000000000000.

Definition parse_iso (s : string) : num :=
  '(y, m, d, r) ← read_date (String.list_ascii_of_string s);
  if (1 <=? m) && (m <=? 12) && (1 <=? d) && (d <=? 31) then
    t ← match r with
        | [] => Some (days_from_civil y m d * msPerDay)
        | "T"%char :: r1 =>
            '(ms, r2) ← read_time r1;
            off ← read_offset r2;
            Some (days_from_civil y m d * msPerDay + ms - off)
        | _ => None
        end;
    if (- maxTime <=? t) && (t <=? maxTime) then Some t else NaN
  else NaN.

Definition sample_dom (attr : string) : Dom :=
  mkDom (Some (Some attr)) (Some "--") (Some "--") (Some "--") (Some "--")
        (Some false).

End Countdown.

(** ** Interval timers: hero slider and countdown *)

Module Timers.

(** The callbacks given to [setInterval]: one per timed behaviour. *)
Inductive TimerCb : Type :=
| NextSlide
| UpdateCountdown.

#[export] Instance TimerCb_eq_dec : EqDecision TimerCb.
Proof. solve_decision. Defined.

Record State : Type := mkState {
  next_id : nat;                 (* the handle the next setInterval returns *)
  live : list (nat * TimerCb);   (* the live interval timers *)
  slideTimer : option nat;       (* the variable [slideTimer]; [None] is null *)
  currentIndex : nat;
  n_images : nat                 (* images.length; 0 without #heroImageSlider *)
}.

Definition setInterval (cb : TimerCb) (st : State) : nat * State :=
  (next_id st,
   mkState (S (next_id st)) (live st ++ [(next_id st, cb)]) (slideTimer st)
           (currentIndex st) (n_images st)).

(** [clearInterval(h)]: a handle that names no live timer is ignored. *)
Definition clearInterval (h : option nat) (st : State) : State :=
  match h with
  | Some id =>
      mkState (next_id st) (filter (fun p => p.1 <> id) (live st))
              (slideTimer st) (currentIndex st) (n_images st)
  | None => st
  end.

Definition set_slideTimer (h : option nat) (st : State) : State :=
  mkState (next_id st) (live st) h (currentIndex st) (n_images st).

(** [nextSlide]: [currentIndex = (currentIndex + 1) % images.length]. *)
Definition nextSlide (st : State) : State :=
  mkState (next_id st) (live st) (slideTimer st)
          ((currentIndex st + 1) mod n_images st)%nat (n_images st).

Inductive Event : Type :=
| MouseEnter
| MouseLeave
| VisibilityChange (hidden : bool)   (* the value of document.hidden *)
| Tick (id : nat)                    (* the interval timer [id] elapses *)
| Load.                              (* the window's load event *)

#[export] Instance Event_eq_dec : EqDecision Event.
Proof. solve_decision. Defined.

Definition tick (id : nat) (st : State) : State :=
  if bool_decide ((id, NextSlide) ∈ live st) then nextSlide st else st.

Definition live_for (cb : TimerCb) (st : State) : nat :=
  length (filter (fun p => p.2 = cb) (live st)).

(** How often the load event occurs in a sequence of events. *)
Definition loads (evs : list Event) : nat :=
  length (filter (fun ev => ev = Load) evs).

(** [initHeroImageSlider] returns before it starts a timer or registers a
    listener when there is no slider or [images.length < 2]. *)
Definition slider_ready (st : State) : bool := (2 <=? n_images st)%nat.

(** The start of the page: no timer yet, handles count from 1. *)
Definition fresh (n : nat) : State := mkState 1 [] None 0 n.

(** *** script.js, lines 74-122 and 544-561 *)
Module Script.

Definition resume (st : State) : State :=
  let '(id, st') := setInterval NextSlide st in set_slideTimer (Some id) st'.

(** [initHeroImageSlider], called from the DOMContentLoaded handler, on a
    page with [n] slides. *)
Definition DOMContentLoaded (n : nat) : State :=
  if slider_ready (fresh n) then resume (fresh n) else fresh n.

Definition step (st : State) (ev : Event) : State :=
  match ev with
  | MouseEnter =>
      if slider_ready st then clearInterval (slideTimer st) st else st
  | MouseLeave => if slider_ready st then resume st else st
  | VisibilityChange hidden =>
      if slider_ready st
      then if hidden then clearInterval (slideTimer st) st else resume st
      else st
  | Tick id => tick id st
  | Load => snd (setInterval UpdateCountdown st)
  end.

(** After DOMContentLoaded (the slide show starts) and load (the countdown
    is scheduled), on a page with [n] slides. *)
Definition init (n : nat) : State := step (DOMContentLoaded n) Load.

Definition run (evs : list Event) (st : State) : State := fold_left step evs st.

End Script.

(** *** The optimised file, lines 120-164 and 774-782 *)
Module Optimized.

(** [if (slideTimer)]: a handle is truthy unless it is 0. *)
Definition truthy (h : option nat) : bool :=
  match h with
  | Some id => negb (Nat.eqb id 0)
  | None => false
  end.

Definition start (st : State) : State :=
  let st1 := if truthy (slideTimer st) then clearInterval (slideTimer st) st
             else st in
  let '(id, st2) := setInterval NextSlide st1 in
  set_slideTimer (Some id) st2.

Definition stop (st : State) : State :=
  if truthy (slideTimer st)
  then set_slideTimer None (clearInterval (slideTimer st) st)
  else st.

(** [initHeroImageSlider], called from the DOMContentLoaded handler, on a
    page with [n] slides. *)
Definition DOMContentLoaded (n : nat) : State :=
  if slider_ready (fresh n) then start (fresh n) else fresh n.

Definition step (st : State) (ev : Event) : State :=
  match ev with
  | MouseEnter => if slider_ready st then stop st else st
  | MouseLeave => if slider_ready st then start st else st
  | VisibilityChange hidden =>
      if slider_ready st then (if hidden then stop st else start st) else st
  | Tick id => tick id st
  | Load => snd (setInterval UpdateCountdown st)
  end.

Definition run (evs : list Event) (st : State) : State := fold_left step evs st.

End Optimized.

(** The optimised file keeps the timer table tidy: handles are positive,
    below the next handle and pairwise distinct, and the slide timers that
    are live are exactly the one that [slideTimer] names, none when it is
    null; without a slide show [slideTimer] stays null. *)
Definition timers_tidy (st : State) : Prop :=
  (1 <= next_id st)%nat
  /\ NoDup (live st).*1
  /\ Forall (fun p => (1 <= p.1 < next_id st)%nat) (live st)
  /\ filter (fun p => p.2 = NextSlide) (live st)
     = match slideTimer st with
       | Some k => [(k, NextSlide)]
       | None => []
       end
  /\ (slider_ready st = false -> slideTimer st = None).

End Timers.

(** ** Outbound link tagging *)

Module Outbound.

(** *** Strings

    A string stands for a JavaScript string; text outside ASCII stands as
    the bytes of its UTF-8 encoding, which is what percent-encoding works
    on. *)

(** [s.includes(sub)]. *)
Fixpoint includes (sub s : string) : bool :=
  String.prefix sub s ||
  match s with
  | EmptyString => false
  | String _ s' => includes sub s'
  end.

(** [s] cut at the first [c]: the part before it and, if [c] occurs, the
    part after it. *)
Fixpoint cut (c : Ascii.ascii) (s : string) : string * option string :=
  match s with
  | EmptyString => (EmptyString, None)
  | String a s' =>
      if bool_decide (a = c) then (EmptyString, Some s')
      else let '(h, t) := cut c s' in (String a h, t)
  end.

(** [s.split(c)]. *)
Fixpoint split (c : Ascii.ascii) (s : string) : list string :=
  match s with
  | EmptyString => [EmptyString]
  | String a s' =>
      if bool_decide (a = c) then EmptyString :: split c s'
      else match split c s' with
           | h :: t => String a h :: t
           | [] => [String a EmptyString]
           end
  end.

(** The white space and line terminators that [trim] strips: the blanks of
    ASCII (tab, line feed, vertical tab, form feed, carriage return,
    space) and, as UTF-8 bytes, U+00A0, U+1680, U+2000 to U+200A, U+2028,
    U+2029, U+202F, U+205F, U+3000 and U+FEFF. *)
Definition is_space (c : Ascii.ascii) : bool :=
  let n := Ascii.nat_of_ascii c in
  Nat.eqb n 32 || ((9 <=? n)%nat && (n <=? 13)%nat).

Definition is_space2 (c d : Ascii.ascii) : bool :=
  Nat.eqb (Ascii.nat_of_ascii c) 194 && Nat.eqb (Ascii.nat_of_ascii d) 160.

Definition is_space3 (c d e : Ascii.ascii) : bool :=
  let '(x, y, z) :=
    (Ascii.nat_of_ascii c, Ascii.nat_of_ascii d, Ascii.nat_of_ascii e) in
  (Nat.eqb x 225 && Nat.eqb y 154 && Nat.eqb z 128)
  || (Nat.eqb x 226 && Nat.eqb y 128
      && (((128 <=? z)%nat && (z <=? 138)%nat)
          || Nat.eqb z 168 || Nat.eqb z 169 || Nat.eqb z 175))
  || (Nat.eqb x 226 && Nat.eqb y 129 && Nat.eqb z 159)
  || (Nat.eqb x 227 && Nat.eqb y 128 && Nat.eqb z 128)
  || (Nat.eqb x 239 && Nat.eqb y 187 && Nat.eqb z 191).

(** [s.trimStart()]. *)
Fixpoint trim_start (s : string) : string :=
  match s with
  | EmptyString => EmptyString
  | String c s1 =>
      if is_space c then trim_start s1
      else
        match s1 with
        | String d s2 =>
            if is_space2 c d then trim_start s2
            else
              match s2 with
              | String e s3 => if is_space3 c d e then trim_start s3 else s
              | EmptyString => s
              end
        | EmptyString => s
        end
  end.

(** [s.trimEnd()]: cut where nothing but blanks follows. *)
Fixpoint trim_end (s : string) : string :=
  match s with
  | EmptyString => EmptyString
  | String c s' =>
      if bool_decide (trim_start s = EmptyString) then EmptyString
      else String c (trim_end s')
  end.

(** [s.trim()]. *)
Definition trim (s : string) : string := trim_end (trim_start s).

(** A character of ASCII that is no blank. *)
Definition is_plain (c : Ascii.ascii) : bool :=
  negb (is_space c) && (Ascii.nat_of_ascii c <? 128)%nat.

(** *** Characters and percent-encoding (URL Standard, section 1.3) *)

Definition code (c : Ascii.ascii) : nat := Ascii.nat_of_ascii c.

Definition between (lo hi : nat) (c : Ascii.ascii) : bool :=
  (lo <=? code c)%nat && (code c <=? hi)%nat.

Definition in_codes (l : list nat) (c : Ascii.ascii) : bool :=
  existsb (Nat.eqb (code c)) l.

Definition is_digit (c : Ascii.ascii) : bool := between 48 57 c.

Definition is_alpha (c : Ascii.ascii) : bool :=
  let n := Ascii.nat_of_ascii c in
  ((65 <=? n)%nat && (n <=? 90)%nat) || ((97 <=? n)%nat && (n <=? 122)%nat).

Definition is_alnum (c : Ascii.ascii) : bool := is_alpha c || is_digit c.

Definition to_lower (c : Ascii.ascii) : Ascii.ascii :=
  if between 65 90 c then Ascii.ascii_of_nat (code c + 32) else c.

Fixpoint all_chars (f : Ascii.ascii -> bool) (s : string) : bool :=
  match s with
  | EmptyString => true
  | String c s' => f c && all_chars f s'
  end.

Fixpoint string_map (f : Ascii.ascii -> Ascii.ascii) (s : string) : string :=
  match s with
  | EmptyString => EmptyString
  | String c s' => String (f c) (string_map f s')
  end.

Fixpoint string_flat_map (f : Ascii.ascii -> string) (s : string) : string :=
  match s with
  | EmptyString => EmptyString
  | String c s' => f c +:+ string_flat_map f s'
  end.

Fixpoint string_filter (f : Ascii.ascii -> bool) (s : string) : string :=
  match s with
  | EmptyString => EmptyString
  | String c s' => if f c then String c (string_filter f s') else string_filter f s'
  end.

(** The value of a hexadecimal digit, in either case. *)
Definition hex_value (c : Ascii.ascii) : option nat :=
  if is_digit c then Some (code c - 48)%nat
  else if between 65 70 c then Some (code c - 55)%nat
  else if between 97 102 c then Some (code c - 87)%nat
  else None.

(** The upper-case hexadecimal digit of [n < 16]. *)
Definition hex_digit (n : nat) : Ascii.ascii :=
  Ascii.ascii_of_nat (if (n <? 10)%nat then n + 48 else n + 55).

(** Percent-encode a byte: [%] and two upper-case hexadecimal digits. *)
Definition percent_encode_byte (c : Ascii.ascii) : string :=
  String "%" (String (hex_digit (code c / 16))
                     (String (hex_digit (code c mod 16)) EmptyString)).

(** Percent-decode a byte sequence: a [%] that two hexadecimal digits do
    not follow stays as it is. *)
Fixpoint percent_decode (s : string) : string :=
  match s with
  | EmptyString => EmptyString
  | String c s1 =>
      if bool_decide (c = "%"%char) then
        match s1 with
        | String a (String b r) =>
            match hex_value a, hex_value b with
            | Some x, Some y =>
                String (Ascii.ascii_of_nat (16 * x + y)) (percent_decode r)
            | _, _ => String c (percent_decode s1)
            end
        | _ => String c (percent_decode s1)
        end
      else String c (percent_decode s1)
  end.

(** *** UTF-8 decode without BOM (Encoding Standard, section 9.1.1)

    The decoder turns bytes into code points and every ill-formed sequence
    into U+FFFD; on strings that stand as UTF-8 bytes that is: a
    well-formed sequence is kept, an ill-formed one becomes the three
    bytes of U+FFFD. *)
Definition REPLACEMENT : list Ascii.ascii :=
  [Ascii.ascii_of_nat 239; Ascii.ascii_of_nat 191; Ascii.ascii_of_nat 189].

(** [needed] bytes of the sequence in [pending] are still to come, the next
    of them within [lower..upper]. *)
Fixpoint utf8_decode_go (cs : list Ascii.ascii) (needed lower upper : nat)
    (pending : list Ascii.ascii) : list Ascii.ascii :=
  match cs with
  | [] => if Nat.eqb needed 0 then [] else REPLACEMENT
  | c :: cs' =>
      let lead :=
        if between 0 127 c then c :: utf8_decode_go cs' 0 128 191 []
        else if between 194 223 c then utf8_decode_go cs' 1 128 191 [c]
        else if between 224 239 c then
          utf8_decode_go cs' 2 (if Nat.eqb (code c) 224 then 160 else 128)
                         (if Nat.eqb (code c) 237 then 159 else 191) [c]
        else if between 240 244 c then
          utf8_decode_go cs' 3 (if Nat.eqb (code c) 240 then 144 else 128)
                         (if Nat.eqb (code c) 244 then 143 else 191) [c]
        else REPLACEMENT ++ utf8_decode_go cs' 0 128 191 [] in
      if Nat.eqb needed 0 then lead
      else if between lower upper c then
        if Nat.eqb needed 1
        then pending ++ c :: utf8_decode_go cs' 0 128 191 []
        else utf8_decode_go cs' (needed - 1) 128 191 (pending ++ [c])
      else REPLACEMENT ++ lead
  end.

Definition utf8_decode (s : string) : string :=
  String.string_of_list_ascii
    (utf8_decode_go (String.list_ascii_of_string s) 0 128 191 []).

(** *** URLSearchParams (URL Standard, sections 5.1, 5.2 and 6.2)

    The list of a URLSearchParams object: name-value pairs, in order,
    duplicates allowed, names and values decoded. *)
Abbreviation Params := (list (string * string)).

Definition plus_to_space (s : string) : string :=
  string_map (fun c => if bool_decide (c = "+"%char) then " "%char else c) s.

Definition decode_component (s : string) : string :=
  utf8_decode (percent_decode (plus_to_space s)).

(** One sequence between two [&]: split at the first [=], decoded. *)
Definition parse_pair (piece : string) : string * string :=
  let '(name, value) := cut "="%char piece in
  (decode_component name, decode_component (default "" value)).

(** The application/x-www-form-urlencoded parser: empty sequences between
    [&] are skipped. *)
Definition urlencoded_parse (input : string) : Params :=
  parse_pair <$> filter (fun piece => piece <> "") (split "&"%char input).

(** [new URLSearchParams(init)] for a string: one leading [?] is dropped. *)
Definition USP_parse (init : string) : Params :=
  urlencoded_parse (match init with
                    | String "?"%char rest => rest
                    | _ => init
                    end).

(** [params.get(name)]: the first value, or [null]. *)
Fixpoint USP_get (name : string) (l : Params) : option string :=
  match l with
  | [] => None
  | (k, v) :: l' => if bool_decide (k = name) then Some v else USP_get name l'
  end.

(** [params.set(name, value)] on the list: the first pair named [name]
    takes the value and the other pairs with that name are removed; without
    such a pair, one is appended. *)
Fixpoint USP_set (name value : string) (l : Params) : Params :=
  match l with
  | [] => [(name, value)]
  | (k, v) :: l' =>
      if bool_decide (k = name)
      then (name, value) :: filter (fun p => p.1 <> name) l'
      else (k, v) :: USP_set name value l'
  end.

(** The bytes that the application/x-www-form-urlencoded serializer leaves
    alone: ASCII letters and digits, [*], [-], [.] and [_]. *)
Definition form_safe (c : Ascii.ascii) : bool :=
  is_alnum c || in_codes [42; 45; 46; 95]%nat c.

Definition form_encode_byte (c : Ascii.ascii) : string :=
  if bool_decide (c = " "%char) then "+"
  else if form_safe c then String c EmptyString
  else percent_encode_byte c.

Definition form_encode (s : string) : string :=
  string_flat_map form_encode_byte s.

(** The application/x-www-form-urlencoded serializer, [params.toString()]. *)
Definition USP_toString (l : Params) : string :=
  String.concat "&" ((fun p => form_encode p.1 +:+ "=" +:+ form_encode p.2) <$> l).

(** *** URL

    A URL record as far as the tagger can tell one from another: the
    serialisation of everything before the query (scheme, credentials,
    host, port and path, normalised by the parser), the query and the
    fragment ([None] is null). *)
Record URLRecord : Type := mkURLRecord {
  url_base : string;
  url_query : option string;
  url_fragment : option string
}.

(** A [URL] object: its record and the list of its [searchParams]. *)
Record URL : Type := mkURL {
  record : URLRecord;
  searchParams : Params
}.

(** The URL serializer, [urlObj.toString()]. *)
Definition URL_toString (u : URL) : string :=
  url_base (record u)
  +:+ (match url_query (record u) with
       | Some q => "?" +:+ q
       | None => ""
       end)
  +:+ (match url_fragment (record u) with
       | Some f => "#" +:+ f
       | None => ""
       end).

(** [urlObj.searchParams.set(name, value)]: the list is updated and the
    record's query becomes its serialisation.  (The update steps make the
    query null when the serialisation is empty; after [set] the list holds
    a pair, and the serialisation of a pair holds an [=], so it is never
    empty here: lemma [USP_set_toString_nonempty].) *)
Definition searchParams_set (u : URL) (p : string * string) : URL :=
  let l := USP_set p.1 p.2 (searchParams u) in
  mkURL (mkURLRecord (url_base (record u)) (Some (USP_toString l))
                     (url_fragment (record u)))
        l.

(** *** The tagger *)

Definition TRACKING_KEYS : list string :=
  ["gclid"; "gbraid"; "wbraid"; "utm_source"; "utm_medium"; "utm_campaign";
   "utm_term"; "utm_content"].

Definition DEFAULT_UTM : Params :=
  [("utm_source", "landing"); ("utm_medium", "cta"); ("utm_campaign", "iptv_sa")].

Definition PARTNER_DOMAIN : string := "rqgstore.com".

(** [getUrlParams]: the object literal with its [null] entries deleted,
    as the list of its own keys in insertion order; [search] is
    [window.location.search]. *)
Definition getUrlParams (search : string) : Params :=
  let params := USP_parse search in
  omap (fun k => (fun v => (k, v)) <$> USP_get k params) TRACKING_KEYS.

(** The body that both files share once [new URL(url)] has succeeded. *)
Definition tag (u : URL) (params : Params) : URL :=
  let params' := if Nat.eqb (length params) 0 then DEFAULT_UTM else params in
  fold_left searchParams_set params' u.

(** An [a[data-out]] element. *)
Record Link : Type := mkLink {
  link_href : option string;
  link_rel : option string
}.

Section WithURLParser.

(** The platform's URL parser without a base URL: the record of an
    absolute URL, [None] for failure.  Host parsing alone (IDNA, IPv6)
    puts it out of reach of a definition here; the tagger is defined for
    every parser, and [sample_URL_parser] below is one for the examples. *)
Variable URL_parser : string -> option URLRecord.

(** [new URL(url)]: failure of the parser is a TypeError; the list of
    [searchParams] is the parsed query. *)
Definition new_URL (url : string) : result URL :=
  match URL_parser url with
  | Some r => Ok (mkURL r (urlencoded_parse (default "" (url_query r))))
  | None => Throw TypeError
  end.

(** [appendTrackingParams], script.js lines 696-713. *)
Definition Script_appendTrackingParams (url : string) (params : Params)
  : result string :=
  bind (new_URL url) (fun urlObj => Ok (URL_toString (tag urlObj params))).

(** [appendTrackingParams], optimised file lines 622-639. *)
Definition Optimized_appendTrackingParams (url : string) (params : Params)
  : string :=
  match new_URL url with
  | Ok urlObj => URL_toString (tag urlObj params)
  | Throw _ => url
  end.

(** The body of [outboundLinks.forEach], script.js lines 722-740. *)
Definition Script_process_link (trackingParams : Params) (link : Link) : Link :=
  match link_href link with
  | Some originalHref =>
      if negb (bool_decide (originalHref = "")) && includes PARTNER_DOMAIN originalHref
      then
        match Script_appendTrackingParams originalHref trackingParams with
        | Ok updatedUrl =>
            let currentRel := if truthy (link_rel link)
                              then default "" (link_rel link) else "" in
            if negb (includes "noopener" currentRel)
            then mkLink (Some updatedUrl) (Some (currentRel +:+ " noopener"))
            else mkLink (Some updatedUrl) (link_rel link)
        | Throw _ => link
        end
      else link
  | None => link
  end.

(** The same loop body in the optimised file, lines 644-656. *)
Definition Optimized_process_link (params : Params) (link : Link) : Link :=
  match link_href link with
  | Some originalHref =>
      if bool_decide (originalHref = "") || negb (includes PARTNER_DOMAIN originalHref)
      then link
      else
        let updated := Optimized_appendTrackingParams originalHref params in
        let currentRel := if truthy (link_rel link)
                          then default "" (link_rel link) else "" in
        if negb (includes "noopener" currentRel)
        then mkLink (Some updated) (Some (trim (currentRel +:+ " noopener")))
        else mkLink (Some updated) (link_rel link)
  | None => link
  end.

(** The DOMContentLoaded handlers (script.js lines 716-741, optimised file
    lines 641-657): read the page query once, then visit every
    [a[data-out]] element. *)
Definition Script_initOutboundTracking (search : string) (links : list Link)
  : list Link :=
  Script_process_link (getUrlParams search) <$> links.

Definition Optimized_initOutboundTracking (search : string) (links : list Link)
  : list Link :=
  Optimized_process_link (getUrlParams search) <$> links.

End WithURLParser.

(** *** A URL parser for the examples

    The basic URL parser of the URL Standard (section 4.4) without a base
    URL, for the schemes http, https, ws, wss and ftp, on URLs whose host
    is a domain of ASCII characters without punycode labels, or an IPv4
    address.  On these it follows the standard: blanks around the input
    and tabs and newlines inside it are dropped, scheme and host are
    lowered, a default port is left out, dot segments are resolved, and
    credentials, path, query and fragment are percent-encoded with their
    sets.  It fails where the standard fails: without a scheme (a relative
    reference has no base here), with an empty host, a forbidden host
    character, a bad IPv4 address, or a port that is no number up to
    65535.  Outside of its range (file and other schemes, IPv6 addresses,
    hosts that need IDNA) it answers [None] as well, which the platform
    may not. *)

Definition is_scheme_char (c : Ascii.ascii) : bool :=
  is_alnum c || in_codes [43; 45; 46]%nat c.

(** C0 control or space. *)
Definition is_c0_space (c : Ascii.ascii) : bool := (code c <=? 32)%nat.

Definition is_tab_newline (c : Ascii.ascii) : bool := in_codes [9; 10; 13]%nat c.

(** [/] or [\]. *)
Definition is_slash (c : Ascii.ascii) : bool := in_codes [47; 92]%nat c.

Fixpoint strip_start (f : Ascii.ascii -> bool) (s : string) : string :=
  match s with
  | EmptyString => EmptyString
  | String c s' => if f c then strip_start f s' else s
  end.

Fixpoint strip_end (f : Ascii.ascii -> bool) (s : string) : string :=
  match s with
  | EmptyString => EmptyString
  | String c s' =>
      match strip_end f s' with
      | EmptyString => if f c then EmptyString else String c EmptyString
      | t => String c t
      end
  end.

(** [s] up to the first character that [stop] accepts, and the rest from
    that character on. *)
Fixpoint span (stop : Ascii.ascii -> bool) (s : string) : string * string :=
  match s with
  | EmptyString => (EmptyString, EmptyString)
  | String c s' =>
      if stop c then (EmptyString, s)
      else let '(h, t) := span stop s' in (String c h, t)
  end.

(** [s] split at every character that [sep] accepts. *)
Fixpoint split_on (sep : Ascii.ascii -> bool) (s : string) : list string :=
  match s with
  | EmptyString => [EmptyString]
  | String a s' =>
      if sep a then EmptyString :: split_on sep s'
      else match split_on sep s' with
           | h :: t => String a h :: t
           | [] => [String a EmptyString]
           end
  end.

(** The percent-encode sets for the query of a special URL, the fragment
    and the path. *)
Definition in_c0_control_set (c : Ascii.ascii) : bool :=
  (code c <=? 31)%nat || (126 <? code c)%nat.

Definition in_special_query_set (c : Ascii.ascii) : bool :=
  in_c0_control_set c || in_codes [32; 34; 35; 60; 62; 39]%nat c.

Definition in_fragment_set (c : Ascii.ascii) : bool :=
  in_c0_control_set c || in_codes [32; 34; 60; 62; 96]%nat c.

Definition in_path_set (c : Ascii.ascii) : bool :=
  in_c0_control_set c || in_codes [32; 34; 35; 60; 62; 63; 94; 96; 123; 125]%nat c.

Definition in_userinfo_set (c : Ascii.ascii) : bool :=
  in_path_set c || in_codes [47; 58; 59; 61; 64; 91; 92; 93; 124]%nat c.

Definition percent_encode (set : Ascii.ascii -> bool) (s : string) : string :=
  string_flat_map
    (fun c => if set c then percent_encode_byte c else String c EmptyString) s.

(** Forbidden domain code points. *)
Definition forbidden_domain (c : Ascii.ascii) : bool :=
  (code c <=? 32)%nat
  || in_codes [35; 37; 47; 58; 60; 62; 63; 64; 91; 92; 93; 94; 124; 127]%nat c.

(** The number that the digits of [s] write in radix [r] (at most 16). *)
Definition radix_value (r : nat) (s : string) : option Z :=
  fold_left
    (fun acc c =>
       x ← acc;
       v ← hex_value c;
       if (v <? r)%nat then Some (Z.of_nat r * x + Z.of_nat v) else None)
    (String.list_ascii_of_string s) (Some 0).

(** The IPv4 number parser. *)
Definition ipv4_number (s : string) : option Z :=
  match s with
  | EmptyString => None
  | String "0"%char (String x rest) =>
      if in_codes [88; 120]%nat x then radix_value 16 rest
      else radix_value 8 (String x rest)
  | _ => radix_value 10 s
  end.

(** The parts of a host between dots, without one empty last part. *)
Definition host_parts (h : string) : list string :=
  let parts := split "."%char h in
  match reverse parts with
  | EmptyString :: x :: r => reverse (x :: r)
  | _ => parts
  end.

(** The ends-in-a-number checker. *)
Definition ends_in_number (h : string) : bool :=
  match last (host_parts h) with
  | Some l =>
      (negb (bool_decide (l = "")) && all_chars is_digit l)
      || bool_decide (is_Some (ipv4_number l))
  | None => false
  end.

(** The IPv4 parser, and the serializer of its result. *)
Definition ipv4_parse (h : string) : option Z :=
  let parts := host_parts h in
  if (4 <? length parts)%nat then None
  else
    numbers ← mapM ipv4_number parts;
    match reverse numbers with
    | l :: front =>
        if forallb (fun n => n <=? 255) front
           && (l <? 256 ^ (5 - Z.of_nat (length numbers)))
        then Some (fold_left (fun acc n => acc * 256 + n) (reverse front) 0
                   * 256 ^ (4 - Z.of_nat (length front)) + l)
        else None
    | [] => None
    end.

Definition ipv4_serialize (a : Z) : string :=
  pretty (a / 16777216) +:+ "." +:+ pretty (a / 65536 mod 256)
  +:+ "." +:+ pretty (a / 256 mod 256) +:+ "." +:+ pretty (a mod 256).

(** The host parser on the hosts of the sample. *)
Definition sample_host (raw : string) : option string :=
  if bool_decide (raw = "") then None
  else if String.prefix "[" raw then None
  else
    let d := percent_decode raw in
    if negb (all_chars (fun c => (code c <? 128)%nat) d) then None
    else if existsb (fun l => String.prefix "xn--" (string_map to_lower l))
                    (split "."%char d) then None
    else
      let h := string_map to_lower d in
      if negb (all_chars (fun c => negb (forbidden_domain c)) h) then None
      else if ends_in_number h then ipv4_serialize <$> ipv4_parse h
      else Some h.

(** [s] cut at the last [c]: the part before it, if [c] occurs, and the
    part after it. *)
Fixpoint cut_last (c : Ascii.ascii) (s : string) : option string * string :=
  match s with
  | EmptyString => (None, EmptyString)
  | String a s' =>
      match cut_last c s' with
      | (Some h, t) => (Some (String a h), t)
      | (None, t) =>
          if bool_decide (a = c) then (Some EmptyString, t)
          else (None, String a t)
      end
  end.

(** The credentials of the authority state, as they are serialised: what
    precedes the last [@], user name and password parted at the first
    colon. *)
Definition sample_credentials (cred : option string) : string :=
  match cred with
  | None => ""
  | Some c =>
      let '(user, pass) := cut ":"%char c in
      let username := percent_encode in_userinfo_set user in
      let password := percent_encode in_userinfo_set (default "" pass) in
      if bool_decide (username = "") && bool_decide (password = "") then ""
      else username
           +:+ (if bool_decide (password = "") then "" else ":" +:+ password)
           +:+ "@"
  end.

Definition default_port (scheme : string) : option Z :=
  if bool_decide (scheme = "http") || bool_decide (scheme = "ws") then Some 80
  else if bool_decide (scheme = "https") || bool_decide (scheme = "wss")
  then Some 443
  else if bool_decide (scheme = "ftp") then Some 21
  else None.

(** The port state: the text after the colon, as it is serialised. *)
Definition sample_port (dflt : Z) (port : option string) : option string :=
  match port with
  | None => Some ""
  | Some p =>
      if all_chars is_digit p then
        if bool_decide (p = "") then Some ""
        else
          v ← radix_value 10 p;
          if 65535 <? v then None
          else if v =? dflt then Some ""
          else Some (":" +:+ pretty v)
      else None
  end.

Definition is_single_dot (seg : string) : bool :=
  let s := string_map to_lower seg in
  bool_decide (s = ".") || bool_decide (s = "%2e").

Definition is_double_dot (seg : string) : bool :=
  let s := string_map to_lower seg in
  bool_decide (s = "..") || bool_decide (s = ".%2e")
  || bool_decide (s = "%2e.") || bool_decide (s = "%2e%2e").

(** The path state, one buffer at a time: [path] holds the segments kept
    so far; the last buffer is followed by no slash. *)
Fixpoint path_state (buffers : list string) (path : list string) : list string :=
  match buffers with
  | [] => path
  | b :: rest =>
      let is_last := match rest with [] => true | _ => false end in
      let b' := percent_encode in_path_set b in
      if is_double_dot b' then
        let shortened := removelast path in
        path_state rest (if is_last then shortened ++ [""] else shortened)
      else if is_single_dot b' then
        path_state rest (if is_last then path ++ [""] else path)
      else path_state rest (path ++ [b'])
  end.

(** The path of a special URL, serialised; [p] is empty or starts with a
    slash. *)
Definition sample_path (p : string) : string :=
  let buffers := match p with
                 | EmptyString => [EmptyString]
                 | String _ p' => split_on is_slash p'
                 end in
  String.concat "" ((fun seg => "/" +:+ seg) <$> path_state buffers []).

Definition sample_URL_parser (input : string) : option URLRecord :=
  let s := string_filter (fun c => negb (is_tab_newline c))
             (strip_end is_c0_space (strip_start is_c0_space input)) in
  match cut ":"%char s with
  | (String c rest, Some after) =>
      if is_alpha c && all_chars is_scheme_char rest then
        let scheme := string_map to_lower (String c rest) in
        dflt ← default_port scheme;
        let '(authority, tail) :=
          span (fun c => is_slash c || in_codes [63; 35]%nat c)
               (strip_start is_slash after) in
        let '(cred, hostport) := cut_last "@"%char authority in
        let '(host, port) := cut ":"%char hostport in
        h ← sample_host host;
        p ← sample_port dflt port;
        let '(before, fragment) := cut "#"%char tail in
        let '(path, query) := cut "?"%char before in
        Some (mkURLRecord
                (scheme +:+ "://" +:+ sample_credentials cred +:+ h +:+ p
                 +:+ sample_path path)
                (percent_encode in_special_query_set <$> query)
                (percent_encode in_fragment_set <$> fragment))
      else None
  | _ => None
  end.

End Outbound.

(** ** Optional elements: accordion, back-to-top wiring, animated elements *)

Module Optional.

(** An [.accordion-item]. *)
Record Item : Type := mkItem {
  header_expanded : option bool;       (* .accordion-header, aria-expanded = "true" *)
  panel_maxHeight : option (option Z); (* .accordion-panel, style.maxHeight in px *)
  item_active : bool;                  (* class "active" *)
  icon_minus : option bool             (* the header's icon: fa-minus or fa-plus *)
}.

(** [closePanel(item)], same text in both files. *)
Definition closePanel (item : Item) : Item :=
  match header_expanded item, panel_maxHeight item with
  | Some _, Some _ =>
      mkItem (Some false) (Some None) false
             (match icon_minus item with Some _ => Some false | None => None end)
  | _, _ => item
  end.

(** The document click listener of script.js, lines 444-451.  It is
    registered outside the [if (accordion)] block: [accordion] may be
    [null], and [closePanel], a [const] of that block, is out of scope.
    [inside] is [accordion.contains(e.target)]. *)
Definition Script_document_click (accordion : option (list Item))
    (inside : bool) : result (option (list Item)) :=
  match accordion with
  | None => Throw TypeError
  | Some items =>
      if negb inside
      then match items with
           | [] => Ok (Some [])
           | _ :: _ => Throw ReferenceError
           end
      else Ok (Some items)
  end.

(** The optimised file registers the listener inside [initAccordion], after
    [if (!accordion) return]: the listeners of the document, and what the
    click listener does. *)
Inductive Listener : Type :=
| OnScroll_toggleBackToTopButton
| OnClick_scrollToTop
| OnLoad_countdown
| OnHover_pricingCards
| OnLoad_backToTopHeight
| OnResize_backToTopHeight
| OnDOMContentLoaded_outbound
| OnClick_accordion
| OnKeydown_accordion
| OnClick_outsideAccordion.

Definition Optimized_initAccordion (accordion : option (list Item))
  : list Listener :=
  match accordion with
  | None => []
  | Some _ => [OnClick_accordion; OnKeydown_accordion; OnClick_outsideAccordion]
  end.

Definition Optimized_document_click (items : list Item) (inside : bool)
  : list Item :=
  if negb inside then closePanel <$> items else items.

(** script.js from line 524 to its end, run with the script: the listeners
    registered, and the exception that stopped the script, if any.  Line
    542 calls [addEventListener] on the result of
    [getElementById("backToTop")]. *)
Definition Script_toplevel_tail (backToTop : option bool)
  : list Listener * option exn :=
  match backToTop with
  | None => ([OnScroll_toggleBackToTopButton], Some TypeError)
  | Some _ =>
      ([OnScroll_toggleBackToTopButton; OnClick_scrollToTop; OnLoad_countdown;
        OnHover_pricingCards; OnLoad_backToTopHeight; OnResize_backToTopHeight;
        OnDOMContentLoaded_outbound], None)
  end.

(** The loop over [[data-aos]] elements.  script.js, lines 456-472, names
    [animateOnScrollObserver], which that file never declares; the
    optimised file, lines 586-593, declares it. *)
Definition Script_init_animated (animatedElements : list nat) : result unit :=
  match animatedElements with
  | [] => Ok tt
  | _ :: _ => Throw ReferenceError
  end.

Definition Optimized_init_animated (animatedElements : list nat)
  : Observer.State :=
  Observer.init Observer.AosOptimized ∅ animatedElements.

End Optional.

(** ** Hero slider: the slides *)

Module Slider.

(** A [.heroBannerImage] with the two classes the slider toggles. *)
Record Slide : Type := mkSlide {
  slide_active : bool;
  slide_fadeIn : bool
}.

(** [showImage(index)], script.js lines 84-91: both classes are removed
    from every image and added again to the one at [index]. *)
Definition Script_showImage (index : nat) (images : list Slide) : list Slide :=
  imap (fun i img =>
          let img' := mkSlide false false in
          if Nat.eqb i index then mkSlide true true else img')
       images.

(** [showImage(index)], optimised file lines 131-136: two [toggle] calls
    with the flag [i === index]. *)
Definition Optimized_showImage (index : nat) (images : list Slide)
  : list Slide :=
  imap (fun i img => mkSlide (Nat.eqb i index) (Nat.eqb i index)) images.

Record State : Type := mkState {
  currentIndex : nat;
  images : list Slide
}.

Section WithShow.

Variable showImage : nat -> list Slide -> list Slide.

(** [nextSlide]: advance cyclically, then show. *)
Definition nextSlide (st : State) : State :=
  let currentIndex' := ((currentIndex st + 1) mod length (images st))%nat in
  mkState currentIndex' (showImage currentIndex' (images st)).

(** The initialisation: without at least two images there is no slide
    show; otherwise [currentIndex = 0] and [showImage(0)]. *)
Definition init (imgs : list Slide) : option State :=
  if (length imgs <? 2)%nat then None
  else Some (mkState 0 (showImage 0 imgs)).

End WithShow.

End Slider.

(** ** Accordion *)

Module Accordion.

Import Optional.

(** The second half of [openPanel(item)]: what happens to the item itself;
    [h] is [panel.scrollHeight]. *)
Definition openItem (h : Z) (item : Item) : Item :=
  mkItem (Some true) (Some (Some h)) true
         (match icon_minus item with Some _ => Some true | None => None end).

Section WithLayout.

(** [panel.scrollHeight] of the item at each position. *)
Variable scrollHeight : nat -> Z.

(** [openPanel(item)] for the item at position [i]: nothing without header
    or panel; otherwise every other item is closed and this one opened. *)
Definition openPanel (i : nat) (items : list Item) : list Item :=
  match items !! i with
  | Some item =>
      match header_expanded item, panel_maxHeight item with
      | Some _, Some _ =>
          imap (fun j other =>
                  if Nat.eqb j i then openItem (scrollHeight i) other
                  else closePanel other)
               items
      | _, _ => items
      end
  | None => items
  end.

(** [toggleItem(item)]. *)
Definition toggleItem (i : nat) (items : list Item) : list Item :=
  match items !! i with
  | Some item =>
      match header_expanded item with
      | None => items
      | Some isExpanded =>
          if isExpanded then <[i := closePanel item]> items
          else openPanel i items
      end
  | None => items
  end.

(** The loop that initialises every item from its [aria-expanded]. *)
Definition init_item (j : nat) (item : Item) : Item :=
  match header_expanded item, panel_maxHeight item with
  | Some expanded, Some _ =>
      if expanded
      then mkItem (Some true) (Some (Some (scrollHeight j))) true
                  (match icon_minus item with Some _ => Some true | None => None end)
      else mkItem (Some false) (Some None) false
                  (match icon_minus item with Some _ => Some false | None => None end)
  | _, _ => item
  end.

Definition init (items : list Item) : list Item := imap init_item items.

(** What the user can do: click a header, press a key on a focused
    header, click outside the accordion. *)
Inductive Event : Type :=
| ClickHeader (i : nat)
| KeydownHeader (i : nat) (key : string)
| ClickOutside.

Definition activates (key : string) : bool :=
  bool_decide (key = "Enter") || bool_decide (key = " ")
  || bool_decide (key = "Spacebar").

(** The listeners of the optimised file ([initAccordion], lines 503-561). *)
Definition Optimized_step (items : list Item) (ev : Event) : list Item :=
  match ev with
  | ClickHeader i => toggleItem i items
  | KeydownHeader i key => if activates key then toggleItem i items else items
  | ClickOutside => Optimized_document_click items false
  end.


End WithLayout.

(** An item the functions act on: it has a header and a panel. *)
Definition well_formed (item : Item) : bool :=
  match header_expanded item, panel_maxHeight item with
  | Some _, Some _ => true
  | _, _ => false
  end.


(** The four marks of an open item agree. *)
Definition consistent (item : Item) : Prop :=
  well_formed item = true ->
  header_expanded item = Some (item_active item)
  /\ (is_Some (default None (panel_maxHeight item)) <-> item_active item = true)
  /\ (forall m, icon_minus item = Some m -> m = item_active item).

(** What an operation may do to one item: nothing, close it, or open it
    if it is well formed. *)
Definition evolves (a b : Item) : Prop :=
  b = a \/ b = closePanel a
  \/ (well_formed a = true /\ exists hgt, b = openItem hgt a).


End Accordion.

(** ** Countdown: the load handler *)

Module CountdownLoad.

Import Countdown.

(** The start of the load handler (script.js lines 546-557) and of the
    DOMContentLoaded handler of the optimised file (lines 757-768): an
    absent or empty target date is set to four days after [now]. *)
Definition initCountdown (toISOString : Z -> string) (now : Z) (d : Dom) : Dom :=
  match cta_timer d with
  | Some attr =>
      if negb (truthy attr)
      then set_countdown_date (toISOString (now + fourDaysMs)) d
      else d
  | None => d
  end.

End CountdownLoad.

(** ** Scroll coordinator: the state after a burst *)

(** The world of the optimised file after a burst of scroll events that
    ends at offset [y], started idle: only the offset, the two flags and
    the queue changed. *)
Definition after_burst (w : Scroll.World) (y : Z) : Scroll.World :=
  let reg := Scroll.Optimized.nav_registered (Scroll.dom w) in
  Scroll.mkWorld (Scroll.set_scrollY y (Scroll.dom w)) (Scroll.lastScroll w)
    true (Scroll.headerHeight w)
    (if reg then true else Scroll.ticking_nav w)
    (Scroll.CbUpdateHeader :: (if reg then [Scroll.CbSetActive] else []))
    (Scroll.trace w).

(** ** Pricing cards *)

Module Pricing.

(** A [.pricing-card]: the class [featured] and the two inline styles the
    hover handlers write. *)
Record Card : Type := mkCard {
  featured : bool;
  transform : string;
  opacity : string
}.

Definition restyle (tr op : string) (c : Card) : Card :=
  mkCard (featured c) tr op.

(** The [mouseenter] listener of card [i]; [onButton] is
    [orderButton && e.target === orderButton].  Same in both files. *)
Definition mouseenter (i : nat) (onButton : bool) (cards : list Card)
  : list Card :=
  if onButton then cards
  else
    match cards !! i with
    | Some this =>
        if negb (featured this)
        then
          let dimmed :=
            (fun otherCard =>
               if negb (featured otherCard)
               then restyle "scale(0.98)" "0.9" otherCard else otherCard)
              <$> cards in
          alter (restyle "translateY(-10px)" "1") i dimmed
        else cards
    | None => cards
    end.

(** The [mouseleave] listener of card [i], script.js lines 584-593. *)
Definition Script_mouseleave (i : nat) (cards : list Card) : list Card :=
  match cards !! i with
  | Some this =>
      if negb (featured this)
      then (fun otherCard =>
              if negb (featured otherCard)
              then restyle "scale(1)" "1" otherCard else otherCard)
             <$> cards
      else cards
  | None => cards
  end.

(** The same listener in the optimised file, lines 438-453: the card
    itself gets its inline styles cleared. *)
Definition Optimized_mouseleave (i : nat) (cards : list Card) : list Card :=
  match cards !! i with
  | Some this =>
      if negb (featured this)
      then alter (restyle "" "") i
             ((fun otherCard =>
                 if negb (featured otherCard)
                 then restyle "scale(1)" "1" otherCard else otherCard)
                <$> cards)
      else cards
  | None => cards
  end.

Inductive Event : Type :=
| Enter (i : nat) (onButton : bool)
| Leave (i : nat).

Definition Script_step (cards : list Card) (ev : Event) : list Card :=
  match ev with
  | Enter i onButton => mouseenter i onButton cards
  | Leave i => Script_mouseleave i cards
  end.

Definition Optimized_step (cards : list Card) (ev : Event) : list Card :=
  match ev with
  | Enter i onButton => mouseenter i onButton cards
  | Leave i => Optimized_mouseleave i cards
  end.

(** Two cards that differ at most in their inline styles, and not at all
    if featured. *)
Definition same_card (a b : Card) : Prop :=
  featured b = featured a /\ (featured a = true -> b = a).

End Pricing.

(** ** Lazy images: the registered form *)

(** A lazy image with source [s0] and no [data-src], as the registration
    loop of each file leaves it. *)
Definition lazy_registered (k : Observer.Kind) (s0 : string)
    (dl : option string) (h : bool) : Observer.Img :=
  match k with
  | Observer.LazyScript =>
      Observer.mkImg Observer.PLACEHOLDER_SCRIPT (Some s0) dl h
  | _ => Observer.mkImg s0 (Some s0) dl h
  end.

(** A lazy image whose source [s0] has been put back: the handlers are
    installed, [data-src] still holds the source or has been removed by the
    load handler, and the observer no longer watches the image. *)
Definition lazy_restored (s0 : string) (t : nat) (st : Observer.State) : Prop :=
  (exists im, Observer.imgs st !! t = Some im
              /\ Observer.src im = s0
              /\ Observer.handlers im = true
              /\ (Observer.data_src im = Some s0 \/ Observer.data_src im = None))
  /\ t ∉ Observer.observed st.

(** A lazy image that waits for its first intersection: registered, and
    watched by the observer. *)
Definition lazy_pending (k : Observer.Kind) (s0 : string) (dl : option string)
    (t : nat) (st : Observer.State) : Prop :=
  Observer.imgs st !! t = Some (lazy_registered k s0 dl false)
  /\ t ∈ Observer.observed st.

(** * Scroll coordinator: properties *)

Import Scroll.


(** In the optimised file the [||] chain reads the scroll offset. *)
Lemma Optimized_currentScroll (d : Dom) :
  (if negb (pageYOffset d =? 0) then pageYOffset d
   else if negb (scrollY d =? 0) then scrollY d else 0) = scrollY d.
Proof.
  unfold pageYOffset. destruct (Z.eqb_spec (scrollY d) 0) as [E|E]; simpl; lia.
Qed.

Lemma Script_updateHeader_backToTop (w : World) :
  backToTopBtn (dom (Script.updateHeader w)) =
  match backToTopBtn (dom w) with
  | Some _ => Some (300 <? scrollY (dom w))
  | None => None
  end.
Proof.
  destruct w as [[y sc hd hh [[|]|] mb [s|] secs links] ls tk hH tn q tr];
    unfold Script.updateHeader, pageYOffset; simpl;
    repeat (destruct (_ && _); simpl); reflexivity.
Qed.

Lemma Optimized_updateHeader_backToTop (w : World) :
  backToTopBtn (dom (Optimized.updateHeader w)) =
  match backToTopBtn (dom w) with
  | Some _ => Some (300 <? scrollY (dom w))
  | None => None
  end.
Proof.
  unfold Optimized.updateHeader. rewrite Optimized_currentScroll.
  destruct w as [[y sc hd hh [[|]|] mb [s|] secs links] ls tk hH tn q tr];
    simpl; repeat (destruct (_ && _); simpl); reflexivity.
Qed.

(** C7: after a scroll update the back-to-top button is shown exactly when
    the sampled offset is strictly greater than 300 (hidden at 300, shown
    at 301); this holds for [updateHeader] of both files and for
    [toggleBackToTopButton] of script.js. *)
Theorem backToTop_shown_iff_offset_gt_300 (w : World) (b : bool) :
  backToTopBtn (dom w) = Some b ->
  (backToTop_shown (dom (Script.updateHeader w)) = true <-> 300 < scrollY (dom w))
  /\ (backToTop_shown (dom (Optimized.updateHeader w)) = true
      <-> 300 < scrollY (dom w))
  /\ (exists w', Script.toggleBackToTopButton w = Ok w'
        /\ (backToTop_shown (dom w') = true <-> 300 < scrollY (dom w))).
Proof.
  intros B. unfold backToTop_shown.
  rewrite Script_updateHeader_backToTop, Optimized_updateHeader_backToTop, B.
  split; [|split].
  - destruct (300 <? scrollY (dom w)) eqn:E; rewrite <- Z.ltb_lt, E; tauto.
  - destruct (300 <? scrollY (dom w)) eqn:E; rewrite <- Z.ltb_lt, E; tauto.
  - unfold Script.toggleBackToTopButton, pageYOffset. rewrite B.
    destruct (300 <? scrollY (dom w)) eqn:E; eexists; (split; [reflexivity|]);
      simpl; rewrite <- Z.ltb_lt, E; tauto.
Qed.

Lemma backToTop_boundary_witness :
  (backToTop_shown (dom (Script.updateHeader
      (Script.init (set_scrollY 300 sample_dom)))) = true <-> 300 < 300)
  /\ (backToTop_shown (dom (Script.updateHeader
      (Script.init (set_scrollY 301 sample_dom)))) = true <-> 300 < 301).
Proof.
  split.
  - apply (backToTop_shown_iff_offset_gt_300
             (Script.init (set_scrollY 300 sample_dom)) false).
    reflexivity.
  - apply (backToTop_shown_iff_offset_gt_300
             (Script.init (set_scrollY 301 sample_dom)) true).
    reflexivity.
Defined.

Example backToTop_hidden_at_300 :
  backToTop_shown (dom (Script.updateHeader
     (Script.init (set_scrollY 300 sample_dom)))) = false
  /\ backToTop_shown (dom (Optimized.updateHeader
     (Optimized.init (set_scrollY 300 sample_dom)))) = false.
Proof. split; reflexivity. Qed.

Example backToTop_shown_at_301 :
  backToTop_shown (dom (Script.updateHeader
     (Script.init (set_scrollY 301 sample_dom)))) = true
  /\ backToTop_shown (dom (Optimized.updateHeader
     (Optimized.init (set_scrollY 301 sample_dom)))) = true.
Proof. split; reflexivity. Qed.

(** ** The mobile overlay and the header's hide state *)

(** C2 as stated fails: the page is scrolled down to 500 (the header
    hides), the mobile menu is opened, and the page scrolls on to 600; the
    next update runs with the overlay open and the header stays hidden.  So
    "hide is false whenever the overlay is open" holds of neither file. *)
Lemma overlay_open_header_still_hidden :
  let evs := [EScroll 500; EFrame; EMenuClick; EScroll 600] in
  let w := Script.run evs (Script.init sample_dom) in
  let w' := Optimized.run evs (Optimized.init sample_dom) in
  (overlay_open (dom w) = true
   /\ header_hide (dom (Script.updateHeader w)) = true
   /\ header_hide (dom (Script.frame w)) = true)
  /\ (overlay_open (dom w') = true
      /\ header_hide (dom (Optimized.updateHeader w')) = true
      /\ header_hide (dom (Optimized.frame w')) = true).
Proof. vm_compute. repeat split. Qed.

Lemma Script_updateHeader_hide (w : World) :
  header_hide (dom (Script.updateHeader w)) =
  if overlay_open (dom w) then header_hide (dom w)
  else (lastScroll w <? scrollY (dom w)) && (headerHeight w <? scrollY (dom w)).
Proof.
  destruct w as [[y sc hd hh [[|]|] mb [s|] secs links] ls tk hH tn q tr];
    unfold Script.updateHeader, pageYOffset, overlay_open; simpl;
    repeat (destruct (_ && _); simpl); reflexivity.
Qed.

Lemma Optimized_updateHeader_hide (w : World) :
  header_hide (dom (Optimized.updateHeader w)) =
  if overlay_open (dom w) then header_hide (dom w)
  else (lastScroll w <? scrollY (dom w)) && (headerHeight w <? scrollY (dom w)).
Proof.
  unfold Optimized.updateHeader. rewrite Optimized_currentScroll.
  destruct w as [[y sc hd hh [[|]|] mb [s|] secs links] ls tk hH tn q tr];
    unfold overlay_open; simpl;
    repeat (destruct (_ && _); simpl); reflexivity.
Qed.

(** C2, amended: while the mobile overlay is open, a scroll update leaves
    the header's hide state as it was, whatever the scroll position and
    direction; in particular it never hides a header that was shown. *)
Theorem overlay_open_hide_unchanged (w : World) :
  overlay_open (dom w) = true ->
  header_hide (dom (Script.updateHeader w)) = header_hide (dom w)
  /\ header_hide (dom (Optimized.updateHeader w)) = header_hide (dom w).
Proof.
  intros H. rewrite Script_updateHeader_hide, Optimized_updateHeader_hide, H.
  split; reflexivity.
Qed.

Lemma overlay_open_hide_unchanged_witness :
  let w := Script.run [EMenuClick; EScroll 600] (Script.init sample_dom) in
  overlay_open (dom w) = true
  /\ header_hide (dom (Script.updateHeader w)) = false
  /\ header_hide (dom (Optimized.updateHeader w)) = false.
Proof.
  split; [reflexivity|].
  apply (overlay_open_hide_unchanged
           (Script.run [EMenuClick; EScroll 600] (Script.init sample_dom))).
  reflexivity.
Defined.

(** ** Active navigation link *)

Lemma toggle_links_toggle_links (id id' : string) (ls : list NavLink) :
  toggle_links id (toggle_links id' ls) = toggle_links id ls.
Proof.
  unfold toggle_links. rewrite map_map. apply map_ext. intros l. reflexivity.
Qed.

Lemma toggle_links_lookup (id : string) (ls : list NavLink) (i : nat) :
  toggle_links id ls !! i =
  (fun l => mkNavLink (href l) (bool_decide (href l = Some ("#" +:+ id))))
    <$> ls !! i.
Proof. unfold toggle_links. rewrite list_lookup_fmap. reflexivity. Qed.

(** The loop leaves the links of the last section that passes the test. *)
Lemma mark_links_last (v : Z) (secs : list Section) (links : list NavLink) :
  mark_links v secs links =
  match last (filter (fun s => section_active v s = true) secs) with
  | Some s => toggle_links (sec_id s) links
  | None => links
  end.
Proof.
  unfold mark_links. induction secs as [|s secs IH] using rev_ind; [reflexivity|].
  rewrite fold_left_app, filter_app, IH. simpl.
  destruct (section_active v s) eqn:E.
  - rewrite filter_cons_True, filter_nil by assumption. rewrite last_snoc.
    destruct (last _); [apply toggle_links_toggle_links | reflexivity].
  - rewrite filter_cons_False, filter_nil, app_nil_r by (rewrite E; discriminate).
    reflexivity.
Qed.

(** C8 as stated fails on two sections whose boxes overlap (a section
    nested in another): at offset 50 the probe 150 lies in both, and after
    the update the links of the first one are not active although that
    section is. *)
Lemma nested_sections_first_link_inactive :
  let w := Script.init (set_scrollY 50 sample_dom) in
  let plans := mkSection "plans" 0 1000 in
  plans ∈ sections (dom w)
  /\ section_active (scrollY (dom w)) plans = true
  /\ navLinks (dom (Script.setActiveLink w))
     = [mkNavLink (Some "#plans") false; mkNavLink (Some "#faq") true]
  /\ navLinks (dom (Optimized.setActive w))
     = [mkNavLink (Some "#plans") false; mkNavLink (Some "#faq") true].
Proof.
  repeat split; try reflexivity. simpl. apply list_elem_of_here.
Qed.

(** C8, amended: a section is active exactly when [v + 100] lies in
    [[top, top + height)]; when some section is active, exactly the links
    whose href targets the last active section (in document order) carry
    the active state, which is the active section when there is only one;
    when no section is active the links keep their state. *)
Theorem active_link_follows_last_active_section (w : World) :
  let v := scrollY (dom w) in
  let act := filter (fun s => section_active v s = true) (sections (dom w)) in
  (forall s, section_active v s = true
             <-> offsetTop s <= v + 100 < offsetTop s + offsetHeight s)
  /\ (forall links', links' = navLinks (dom (Script.setActiveLink w))
                     \/ links' = navLinks (dom (Optimized.setActive w)) ->
      (act = [] -> links' = navLinks (dom w))
      /\ (forall s, last act = Some s ->
          length links' = length (navLinks (dom w))
          /\ forall i l, navLinks (dom w) !! i = Some l ->
             exists l', links' !! i = Some l' /\ href l' = href l
               /\ (link_active l' = true <-> href l = Some ("#" +:+ sec_id s)))).
Proof.
  intros v act. split.
  - intros s. unfold section_active.
    rewrite andb_true_iff, Z.leb_le, Z.ltb_lt. tauto.
  - intros links' Hl.
    assert (E : links' = mark_links v (sections (dom w)) (navLinks (dom w))).
    { destruct Hl as [-> | ->]; destruct w as [d ls tk hH tn q tr];
        destruct d; reflexivity. }
    rewrite mark_links_last in E. fold act in E. split.
    + intros Hnil. rewrite Hnil in E. exact E.
    + intros s Hs. rewrite Hs in E. subst links'. split.
      * unfold toggle_links. apply length_map.
      * intros i l Hi. rewrite toggle_links_lookup, Hi. simpl.
        eexists. split; [reflexivity|]. simpl. split; [reflexivity|].
        apply bool_decide_eq_true.
Qed.

Lemma active_link_single_section_witness :
  let w := Script.init (set_scrollY 1000 sample_dom) in
  let w1 := Script.init (set_scrollY 500 sample_dom) in
  (navLinks (dom (Script.setActiveLink w)) = navLinks (dom w)
   /\ navLinks (dom (Optimized.setActive w)) = navLinks (dom w))
  /\ exists l', navLinks (dom (Script.setActiveLink w1)) !! 0%nat = Some l'
       /\ href l' = Some "#plans"
       /\ (link_active l' = true <-> Some "#plans" = Some ("#" +:+ "plans")).
Proof.
  split.
  - pose proof (active_link_follows_last_active_section
                  (Script.init (set_scrollY 1000 sample_dom))) as [_ H].
    split; apply H; auto.
  - pose proof (active_link_follows_last_active_section
                  (Script.init (set_scrollY 500 sample_dom))) as [_ H].
    destruct (H _ (or_introl eq_refl)) as [_ H1].
    destruct (H1 (mkSection "plans" 0 1000) eq_refl) as [_ H2].
    exact (H2 0%nat (mkNavLink (Some "#plans") false) eq_refl).
Defined.

(** ** Coalescing of scroll events *)

Lemma invocations_app (r : Routine) (t1 t2 : list Routine) :
  invocations r (t1 ++ t2) = (invocations r t1 + invocations r t2)%nat.
Proof. unfold invocations. rewrite filter_app, length_app. reflexivity. Qed.


(** One scroll event in script.js: both direct listeners run, and the frame
    callback is requested only when none is pending. *)
Lemma Script_dispatch_scroll_effect (w : World) :
  let w' := Script.dispatch_scroll w in
  trace w' = trace w ++ [RToggleBackToTop; RSetActiveLink]
  /\ ticking w' = true
  /\ raf w' = (if ticking w then raf w else raf w ++ [CbUpdateHeader]).
Proof.
  destruct w as [[y sc hd hh nm mb [s|] secs links] ls [|] hH tn q tr];
    unfold Script.dispatch_scroll, invoke_listener, Script.toggleBackToTopButton,
      pageYOffset; simpl; try destruct (300 <? y); simpl;
    rewrite <- ?app_assoc; repeat split.
Qed.

Lemma Script_scrolls_effect (ys : list Z) (w : World) :
  idle w \/ pending w ->
  let w' := Script.run (map EScroll ys) w in
  trace w' = trace w
             ++ concat (map (fun _ => [RToggleBackToTop; RSetActiveLink]) ys)
  /\ (ys = [] -> w' = w)
  /\ (ys <> [] -> pending w').
Proof.
  revert w. induction ys as [|y ys IH]; intros w Hw.
  - simpl. rewrite app_nil_r. repeat split; congruence.
  - set (w0 := set_dom (set_scrollY y (dom w)) w).
    change (Script.run (map EScroll (y :: ys)) w)
      with (Script.run (map EScroll ys) (Script.dispatch_scroll w0)).
    cbn zeta.
    change (concat (map (fun _ => [RToggleBackToTop; RSetActiveLink]) (y :: ys)))
      with ([RToggleBackToTop; RSetActiveLink]
              ++ concat (map (fun _ : Z => [RToggleBackToTop; RSetActiveLink]) ys)).
    assert (H0 : trace w0 = trace w /\ ticking w0 = ticking w /\ raf w0 = raf w)
      by (destruct w; repeat split).
    destruct H0 as (Ht & Htk & Hq).
    destruct (Script_dispatch_scroll_effect w0) as (T & K & Q).
    assert (P : pending (Script.dispatch_scroll w0)).
    { split; [exact K|]. rewrite Q, Htk, Hq.
      destruct Hw as [[-> ->] | [-> ->]]; reflexivity. }
    destruct (IH _ (or_intror P)) as (T' & N & C).
    split; [|split].
    + rewrite T', T, Ht, <- app_assoc. reflexivity.
    + discriminate.
    + intros _. destruct ys as [|y' ys'].
      * exact P.
      * apply C. discriminate.
Qed.

Lemma invocations_scroll_log (r : Routine) (ys : list Z) :
  invocations r (concat (map (fun _ => [RToggleBackToTop; RSetActiveLink]) ys))
  = match r with
    | RUpdateHeader => 0%nat
    | _ => length ys
    end.
Proof.
  induction ys as [|y ys IH]; simpl.
  - destruct r; reflexivity.
  - change (invocations r ([RToggleBackToTop; RSetActiveLink] ++
              concat (map (fun _ => [RToggleBackToTop; RSetActiveLink]) ys))
            = match r with RUpdateHeader => 0%nat | _ => S (length ys) end).
    rewrite invocations_app, IH. destruct r; reflexivity.
Qed.

Lemma Script_frame_pending (w : World) :
  pending w -> trace (Script.frame w) = trace w ++ [RUpdateHeader].
Proof.
  intros [_ Q]. unfold Script.frame. rewrite Q.
  destruct w as [[y sc hd hh [[|]|] mb [s|] secs links] ls tk hH tn q tr];
    unfold Script.updateHeader; simpl;
    repeat (destruct (_ && _); simpl); reflexivity.
Qed.

(** C1 on script.js: within one frame that starts idle, [updateHeader] runs
    at most once, but [setActiveLink] and [toggleBackToTopButton] are
    registered directly on the scroll event and run once per event. *)
Theorem script_scroll_updates_per_frame (w : World) (ys : list Z) :
  idle w ->
  let w' := Script.frame (Script.run (map EScroll ys) (set_trace [] w)) in
  invocations RUpdateHeader (trace w') = Nat.min 1 (length ys)
  /\ invocations RSetActiveLink (trace w') = length ys
  /\ invocations RToggleBackToTop (trace w') = length ys.
Proof.
  intros [Htk Hq]. simpl.
  assert (I : idle (set_trace [] w)) by (destruct w; split; assumption).
  destruct (Script_scrolls_effect ys _ (or_introl I)) as (T & N & P).
  destruct ys as [|y ys].
  - rewrite (N eq_refl). unfold Script.frame. destruct w; simpl in *.
    subst. repeat split.
  - rewrite (Script_frame_pending _ (P ltac:(discriminate))), T.
    change (trace (set_trace [] w)) with (@nil Routine).
    rewrite app_nil_l, !invocations_app, !invocations_scroll_log.
    cbn [length Nat.min]. unfold invocations. simpl.
    repeat split; lia.
Qed.

Lemma script_two_scrolls_one_frame_witness :
  let w' := Script.frame (Script.run [EScroll 10; EScroll 20]
                            (set_trace [] (Script.init sample_dom))) in
  idle (Script.init sample_dom)
  /\ invocations RUpdateHeader (trace w') = 1%nat
  /\ invocations RSetActiveLink (trace w') = 2%nat
  /\ invocations RToggleBackToTop (trace w') = 2%nat.
Proof.
  split; [split; reflexivity|].
  apply (script_scroll_updates_per_frame (Script.init sample_dom) [10; 20]).
  split; reflexivity.
Defined.


Lemma Optimized_first_scroll (w : World) (y : Z) :
  idle_nav w -> pending_nav w (Optimized.step w (EScroll y)).
Proof.
  intros (Htk & Htn & Hq).
  destruct w as [[y0 sc hd hh nm mb bt secs links] ls tk hH tn q tr].
  simpl in *. subst. unfold pending_nav, Optimized.dispatch_scroll. simpl.
  destruct (Optimized.nav_registered _) eqn:E; cbn; rewrite ?E;
    repeat split; auto.
Qed.

Lemma Optimized_next_scroll (w0 w : World) (y : Z) :
  pending_nav w0 w -> pending_nav w0 (Optimized.step w (EScroll y)).
Proof.
  intros (Ht & Hn & Htk & Hq & Htn).
  destruct w as [[y1 sc hd hh nm mb bt secs links] ls tk hH tn q tr].
  simpl in *. subst tk q. unfold pending_nav, Optimized.dispatch_scroll. simpl.
  change (Optimized.nav_registered
            (set_scrollY y (mkDom y1 sc hd hh nm mb bt secs links)))
    with (Optimized.nav_registered (mkDom y1 sc hd hh nm mb bt secs links)).
  rewrite Hn.
  destruct (Optimized.nav_registered (dom w0)) eqn:E; cbn.
  - rewrite (Htn eq_refl). cbn. rewrite ?E. repeat split; auto.
  - rewrite ?E. repeat split; auto.
Qed.

Lemma Optimized_scrolls_pending (ys : list Z) (w0 w : World) :
  pending_nav w0 w -> pending_nav w0 (Optimized.run (map EScroll ys) w).
Proof.
  revert w. induction ys as [|y ys IH]; intros w H; [exact H|].
  apply (IH (Optimized.step w (EScroll y))), Optimized_next_scroll, H.
Qed.

Lemma Optimized_frame_pending (w0 w : World) :
  pending_nav w0 w ->
  trace (Optimized.frame w) =
  trace w0 ++ RUpdateHeader ::
    (if Optimized.nav_registered (dom w0) then [RSetActiveLink] else []).
Proof.
  intros (Ht & Hn & Htk & Hq & Htn). unfold Optimized.frame. rewrite Hq, <- Ht.
  destruct (Optimized.nav_registered (dom w0));
    destruct w as [[y sc hd hh [[|]|] mb [s|] secs links] ls tk hH tn q tr];
    unfold Optimized.updateHeader; simpl;
    rewrite ?Optimized_currentScroll; simpl;
    repeat (destruct (_ && _); simpl); rewrite <- ?app_assoc; reflexivity.
Qed.

(** In the optimised file every scroll-driven routine runs at most once in
    a frame that starts idle, however many scroll events it receives. *)
Lemma optimized_scroll_updates_coalesced (w : World) (ys : list Z) :
  idle_nav w ->
  let w' := Optimized.frame (Optimized.run (map EScroll ys) (set_trace [] w)) in
  (invocations RUpdateHeader (trace w') <= 1)%nat
  /\ (invocations RSetActiveLink (trace w') <= 1)%nat
  /\ invocations RToggleBackToTop (trace w') = 0%nat.
Proof.
  intros (Htk & Htn & Hq). cbn zeta.
  assert (I : idle_nav (set_trace [] w)) by (destruct w; repeat split; assumption).
  destruct ys as [|y ys].
  - unfold Optimized.frame. destruct w; simpl in *. subst.
    cbn. repeat split; lia.
  - change (Optimized.run (map EScroll (y :: ys)) (set_trace [] w))
      with (Optimized.run (map EScroll ys)
              (Optimized.step (set_trace [] w) (EScroll y))).
    rewrite (Optimized_frame_pending (set_trace [] w)).
    + change (trace (set_trace [] w)) with (@nil Routine).
      destruct (Optimized.nav_registered _); rewrite app_nil_l;
        unfold invocations; simpl; repeat split; lia.
    + apply Optimized_scrolls_pending, Optimized_first_scroll, I.
Qed.

(** * Visibility observers: properties *)

Section ObserverFacts.
Import Observer.

Variable k : Kind.

(** What one loop iteration can do: it never adds to the watch set, and
    when it fires it does so on an intersecting entry, for the entry's
    target, which it then stops observing. *)
Lemma entry_handler_effect (st : State) (en : Entry) :
  let st' := entry_handler k st en in
  observed st' ⊆ observed st
  /\ (fired st' = fired st
      \/ (fired st' = fired st ++ [target en]
          /\ isIntersecting en = true
          /\ target en ∉ observed st')).
Proof.
  destruct k, en as [t [|]]; simpl;
    unfold aos_entry, lazy_entry_script, lazy_entry_optimized; simpl;
    try (split; [set_solver | left; reflexivity]).
  - split; [set_solver | right; repeat split; set_solver].
  - destruct (imgs st !! t) as [im|]; [|split; [set_solver | left; reflexivity]].
    case_bool_decide; simpl.
    + split; [set_solver | left; reflexivity].
    + split; [set_solver | right; repeat split; set_solver].
  - destruct (imgs st !! t) as [im|]; [|split; [set_solver | left; reflexivity]].
    case_bool_decide; simpl.
    + split; [set_solver | left; reflexivity].
    + split; [set_solver | right; repeat split; set_solver].
Qed.


Lemma callback_effect (entries : list Entry) (st : State) :
  one_shot st ->
  NoDup (target <$> entries) ->
  (forall en, en ∈ entries -> target en ∉ fired st) ->
  let st' := callback k entries st in
  one_shot st'
  /\ observed st' ⊆ observed st
  /\ (forall t, t ∈ fired st' ->
        t ∈ fired st
        \/ exists en, en ∈ entries /\ target en = t /\ isIntersecting en = true).
Proof.
  revert st. induction entries as [|en entries IH]; intros st Hinv Hnd Hnf.
  - simpl. split; [exact Hinv|]. split; [set_solver|]. intros t Ht. left. exact Ht.
  - simpl. apply NoDup_cons in Hnd as [Hhd Hnd].
    destruct (entry_handler_effect st en) as [Hsub Hf].
    set (st1 := entry_handler k st en) in *.
    assert (Hin1 : forall t, t ∈ fired st1 -> t ∈ fired st \/ t = target en).
    { intros t Ht. destruct Hf as [E | (E & _ & _)]; rewrite E in Ht;
        [left; exact Ht|].
      apply elem_of_app in Ht as [Ht | Ht]; [left; exact Ht|].
      right. set_solver. }
    assert (Hinv1 : one_shot st1).
    { destruct Hinv as [Hn Hu]. destruct Hf as [E | (E & _ & Hno)].
      - unfold one_shot. rewrite E. split; [exact Hn|]. intros t Ht. set_solver.
      - unfold one_shot. rewrite E. split.
        + apply NoDup_app. split; [exact Hn|]. split.
          * intros t Ht Ht'. apply list_elem_of_singleton in Ht' as ->.
            apply (Hnf en); [apply list_elem_of_here | exact Ht].
          * apply NoDup_singleton.
        + intros t Ht. apply elem_of_app in Ht as [Ht | Ht].
          * specialize (Hu t Ht). set_solver.
          * apply list_elem_of_singleton in Ht as ->. exact Hno. }
    assert (Hnf1 : forall en', en' ∈ entries -> target en' ∉ fired st1).
    { intros en' Hen' Ht. destruct (Hin1 _ Ht) as [H | H].
      - apply (Hnf en'); [apply list_elem_of_further, Hen' | exact H].
      - apply Hhd. rewrite <- H. apply list_elem_of_fmap. exists en'. auto. }
    destruct (IH st1 Hinv1 Hnd Hnf1) as (I' & S' & F').
    split; [exact I'|]. split; [set_solver|].
    intros t Ht. destruct (F' t Ht) as [H | (en' & Hen' & E1 & E2)].
    + destruct (Hin1 _ H) as [H1 | ->]; [left; exact H1|].
      right. exists en. split; [apply list_elem_of_here|]. split; [reflexivity|].
      destruct Hf as [E | (_ & Hi & _)]; [|exact Hi].
      exfalso. rewrite E in H. apply (Hnf en); [apply list_elem_of_here | exact H].
    + right. exists en'. split; [apply list_elem_of_further, Hen' | auto].
Qed.

Lemma entries_of_target (vis : nat -> bool) (st : State) (en : Entry) :
  en ∈ entries_of vis st ->
  target en ∈ observed st /\ isIntersecting en = vis (target en).
Proof.
  unfold entries_of. intros H. apply list_elem_of_fmap in H as (t & -> & Ht).
  simpl. split; [apply elem_of_elements, Ht | reflexivity].
Qed.

Lemma entries_of_NoDup (vis : nat -> bool) (st : State) :
  NoDup (target <$> entries_of vis st).
Proof.
  unfold entries_of. rewrite <- list_fmap_compose.
  rewrite (list_fmap_ext _ id (elements (observed st))) by reflexivity.
  rewrite list_fmap_id. apply NoDup_elements.
Qed.

Lemma img_events_keep (st : State) (t : nat) :
  (observed (img_onload t st) = observed st
   /\ fired (img_onload t st) = fired st)
  /\ (observed (img_onerror t st) = observed st
      /\ fired (img_onerror t st) = fired st).
Proof.
  unfold img_onload, img_onerror.
  destruct (imgs st !! t) as [[s ds dl [|]]|]; repeat split.
Qed.

Lemma step_effect (st : State) (ev : Event) :
  one_shot st ->
  let st' := step k st ev in
  one_shot st'
  /\ observed st' ⊆ observed st
  /\ (forall t, t ∈ fired st' ->
        t ∈ fired st
        \/ exists vis, ev = Cycle vis /\ vis t = true /\ t ∈ observed st).
Proof.
  intros Hinv. destruct ev as [vis | t | t]; simpl.
  - destruct (callback_effect (entries_of vis st) st Hinv
                (entries_of_NoDup vis st)) as (I & S & F).
    { intros en Hen Hf. apply entries_of_target in Hen as [Ho _].
      destruct Hinv as [_ Hu]. exact (Hu _ Hf Ho). }
    split; [exact I|]. split; [exact S|].
    intros t Ht. destruct (F t Ht) as [H | (en & Hen & E & Hi)]; [left; exact H|].
    apply entries_of_target in Hen as [Ho Hv]. rewrite E in Ho, Hv.
    right. exists vis. rewrite <- Hv. auto.
  - destruct (img_events_keep st t) as [[Eo Ef] _].
    unfold one_shot. rewrite Eo, Ef. split; [exact Hinv|]. split; [done|]. auto.
  - destruct (img_events_keep st t) as [_ [Eo Ef]].
    unfold one_shot. rewrite Eo, Ef. split; [exact Hinv|]. split; [done|]. auto.
Qed.

Lemma run_effect (evs : list Event) (st : State) :
  one_shot st ->
  let st' := run k evs st in
  one_shot st'
  /\ observed st' ⊆ observed st
  /\ (forall t, t ∈ fired st' ->
        t ∈ fired st
        \/ exists vis, Cycle vis ∈ evs /\ vis t = true /\ t ∈ observed st).
Proof.
  revert st. induction evs as [|ev evs IH]; intros st Hinv.
  - simpl. split; [exact Hinv|]. split; [done|]. auto.
  - destruct (step_effect st ev Hinv) as (I1 & S1 & F1).
    destruct (IH _ I1) as (I2 & S2 & F2).
    change (run k (ev :: evs) st) with (run k evs (step k st ev)). cbn zeta.
    split; [exact I2|]. split; [set_solver|].
    intros t Ht. destruct (F2 t Ht) as [H | (vis & Hin & Hv & Ho)].
    + destruct (F1 t H) as [H1 | (vis & -> & Hv & Ho)]; [left; exact H1|].
      right. exists vis. split; [apply list_elem_of_here | auto].
    + right. exists vis. split; [apply list_elem_of_further, Hin|].
      split; [exact Hv | set_solver].
Qed.

Lemma register_one_effect (st : State) (t : nat) :
  observed (register_one k st t) = {[t]} ∪ observed st
  /\ fired (register_one k st t) = fired st.
Proof.
  destruct k; simpl; [split; reflexivity | |];
    destruct (imgs st !! t) as [im|]; try (split; reflexivity);
    destruct (bool_decide (is_Some (data_src im))); split; reflexivity.
Qed.

Lemma init_effect (images : gmap nat Img) (ts : list nat) :
  observed (init k images ts) = list_to_set ts
  /\ fired (init k images ts) = [].
Proof.
  unfold init.
  enough (G : forall st,
             observed (fold_left (register_one k) ts st)
               = list_to_set ts ∪ observed st
             /\ fired (fold_left (register_one k) ts st) = fired st).
  { destruct (G (mkState ∅ images ∅ [])) as [Eo Ef].
    rewrite Eo, Ef. simpl. split; [set_solver | reflexivity]. }
  induction ts as [|t ts IH]; intros st; simpl.
  - split; [set_solver | reflexivity].
  - destruct (IH (register_one k st t)) as [Eo Ef].
    destruct (register_one_effect st t) as [Eo1 Ef1].
    rewrite Eo, Ef, Eo1, Ef1. split; [set_solver | reflexivity].
Qed.

(** C3: for every observer of the repository, every set of registered
    elements and every sequence of check cycles (and image load events),
    the visible-callback fires at most once per element; an element that
    fired is no longer observed and no later check cycle produces an entry
    for it; and an element fires only in a cycle in which it, being
    registered, crossed the configured intersection threshold. *)
Theorem visible_callback_fires_once (images : gmap nat Img) (ts : list nat)
    (evs : list Event) :
  let st := run k evs (init k images ts) in
  NoDup (fired st)
  /\ (forall t, t ∈ fired st ->
        (t ∉ observed st)
        /\ (forall vis en, en ∈ entries_of vis st -> target en <> t))
  /\ (forall t, t ∈ fired st ->
        (t ∈ ts) /\ (exists vis, Cycle vis ∈ evs /\ vis t = true)).
Proof.
  destruct (init_effect images ts) as [Eo Ef].
  assert (I0 : one_shot (init k images ts)).
  { unfold one_shot. rewrite Ef. split; [apply NoDup_nil_2|]. set_solver. }
  destruct (run_effect evs _ I0) as ([Hn Hu] & S & F). cbn zeta.
  split; [exact Hn|]. split.
  - intros t Ht. split; [exact (Hu t Ht)|].
    intros vis en Hen E. apply entries_of_target in Hen as [Ho _].
    rewrite E in Ho. exact (Hu _ Ht Ho).
  - intros t Ht. destruct (F t Ht) as [H | (vis & Hin & Hv & Ho)].
    + rewrite Ef in H. set_solver.
    + rewrite Eo in Ho. split; [set_solver|]. exists vis. auto.
Qed.

End ObserverFacts.

Lemma visible_callback_fires_once_witness :
  let vis := fun t : nat => bool_decide (t = 1%nat) in
  let st := Observer.run Observer.AosOptimized [Observer.Cycle vis; Observer.Cycle vis]
              (Observer.init Observer.AosOptimized ∅ [1%nat; 2%nat]) in
  Observer.fired st = [1%nat]
  /\ (1%nat ∉ Observer.observed st)
  /\ 1%nat ∈ [1%nat; 2%nat].
Proof.
  cbn zeta. split; [vm_compute; reflexivity|].
  pose proof (visible_callback_fires_once Observer.AosOptimized ∅
                [1%nat; 2%nat]
                [Observer.Cycle (fun t : nat => bool_decide (t = 1%nat));
                 Observer.Cycle (fun t : nat => bool_decide (t = 1%nat))])
    as (_ & Hu & Hc).
  assert (Hin : 1%nat ∈ Observer.fired
            (Observer.run Observer.AosOptimized
               [Observer.Cycle (fun t : nat => bool_decide (t = 1%nat));
                Observer.Cycle (fun t : nat => bool_decide (t = 1%nat))]
               (Observer.init Observer.AosOptimized ∅ [1%nat; 2%nat]))).
  { vm_compute. apply list_elem_of_here. }
  split; [exact (proj1 (Hu _ Hin)) | exact (proj1 (Hc _ Hin))].
Defined.

(** * Countdown: properties *)

Section CountdownFacts.
Import Countdown.

Variable Date_getTime : string -> num.
Variable toISOString : Z -> string.

Lemma truthy_nonempty (s : string) :
  s <> "" -> truthy (Some s) = true.
Proof. intros H. unfold truthy. rewrite bool_decide_eq_false_2; done. Qed.

(** The optimised file resets the target when the attribute holds no date
    or a date before [now], and then renders nothing. *)
Lemma Optimized_countdown_resets (now : Z) (s : string) (d : Dom) :
  cta_timer d = Some (Some s) -> s <> "" ->
  Date_getTime s = NaN \/ (exists t, Date_getTime s = Some t /\ t < now) ->
  Optimized_updateCountdown Date_getTime toISOString now d
  = set_countdown_date (toISOString (now + fourDaysMs)) d.
Proof.
  intros Hc Hs Ht. unfold Optimized_updateCountdown.
  rewrite Hc, (truthy_nonempty s Hs). cbn [negb default from_option id].
  destruct Ht as [-> | (t & -> & Hlt)]; simpl; [reflexivity|].
  rewrite (proj2 (Z.ltb_lt t now) Hlt). reflexivity.
Qed.

(** script.js does so for a date before [now]. *)
Lemma Script_countdown_elapsed_resets (now t : Z) (s : string) (d : Dom) :
  cta_timer d = Some (Some s) -> s <> "" ->
  Date_getTime s = Some t -> t < now ->
  Script_updateCountdown Date_getTime toISOString now d
  = Ok (set_countdown_date (toISOString (now + fourDaysMs)) d).
Proof.
  intros Hc Hs Ht Hlt. unfold Script_updateCountdown.
  rewrite Hc, (truthy_nonempty s Hs). cbn [negb default from_option id].
  rewrite Ht. simpl.
  rewrite (proj2 (Z.ltb_lt (t - now) 0)) by lia. reflexivity.
Qed.

(** An absent or empty attribute is left alone by both files (it is the
    load handler that fills it in). *)
Lemma countdown_empty_attribute_untouched (now : Z) (d : Dom) :
  cta_timer d = Some None \/ cta_timer d = Some (Some "") ->
  Script_updateCountdown Date_getTime toISOString now d = Ok d
  /\ Optimized_updateCountdown Date_getTime toISOString now d = d.
Proof.
  unfold Script_updateCountdown, Optimized_updateCountdown.
  intros [-> | ->]; split; reflexivity.
Qed.

(** The units of a target that has not elapsed are within their ranges. *)
Lemma countdown_units_in_range (distance : Z) :
  0 <= distance ->
  exists days hours minutes seconds,
    floor_div (Some distance) (1000 * 60 * 60 * 24) = Some days
    /\ floor_div (num_rem (Some distance) (1000 * 60 * 60 * 24)) (1000 * 60 * 60)
       = Some hours
    /\ floor_div (num_rem (Some distance) (1000 * 60 * 60)) (1000 * 60)
       = Some minutes
    /\ floor_div (num_rem (Some distance) (1000 * 60)) 1000 = Some seconds
    /\ 0 <= days /\ 0 <= hours < 24 /\ 0 <= minutes < 60 /\ 0 <= seconds < 60.
Proof.
  intros H. unfold floor_div, num_rem. simpl.
  rewrite !Z.rem_mod_nonneg by lia.
  do 4 eexists. repeat (split; [reflexivity|]).
  cbv beta. change (1000 * 60 * 60 * 24) with 86400000.
  change (1000 * 60 * 60) with 3600000. change (1000 * 60) with 60000.
  repeat split; Z.to_euclidean_division_equations; lia.
Qed.

(** C4 on script.js: with a non-empty attribute that is no date, the
    distance is [NaN], the test [distance < 0] fails, the attribute is left
    as it is and all four units are rendered as the text NaN. *)
Theorem script_countdown_unparsable_renders_NaN (now : Z) (s : string)
    (d : Dom) (a b c e : string) :
  cta_timer d = Some (Some s) -> s <> "" -> Date_getTime s = NaN ->
  el_days d = Some a -> el_hours d = Some b ->
  el_minutes d = Some c -> el_seconds d = Some e ->
  exists d', Script_updateCountdown Date_getTime toISOString now d = Ok d'
    /\ cta_timer d' = Some (Some s)
    /\ el_days d' = Some "NaN" /\ el_hours d' = Some "NaN"
    /\ el_minutes d' = Some "NaN" /\ el_seconds d' = Some "NaN"
    /\ numeric_unit "NaN" = false.
Proof.
  intros Hc Hs Ht Ha Hb Hcc He. unfold Script_updateCountdown.
  rewrite Hc, (truthy_nonempty s Hs). cbn [negb default from_option id].
  rewrite Ht. simpl.
  unfold assign. rewrite Ha. simpl. rewrite Hb. simpl. rewrite Hcc. simpl.
  rewrite He. simpl. eexists. split; [reflexivity|]. simpl.
  rewrite Hc. repeat split.
Qed.

End CountdownFacts.

Lemma script_countdown_unparsable_witness :
  let d := Countdown.sample_dom "soon" in
  Countdown.parse_iso "soon" = Countdown.NaN
  /\ exists d',
       Countdown.Script_updateCountdown Countdown.parse_iso
         Countdown.format_iso 1793923200123 d = Ok d'
       /\ Countdown.cta_timer d' = Some (Some "soon")
       /\ Countdown.el_days d' = Some "NaN"
       /\ Countdown.el_hours d' = Some "NaN"
       /\ Countdown.el_minutes d' = Some "NaN"
       /\ Countdown.el_seconds d' = Some "NaN"
       /\ Countdown.numeric_unit "NaN" = false.
Proof.
  split; [reflexivity|].
  apply (script_countdown_unparsable_renders_NaN Countdown.parse_iso
           Countdown.format_iso 1793923200123 "soon"
           (Countdown.sample_dom "soon") "--" "--" "--" "--");
    solve [reflexivity | discriminate].
Defined.

(** The same attribute in the optimised file: the target is reset to four
    days after [now] and the units are not rendered. *)
Example optimized_countdown_unparsable :
  Countdown.Optimized_updateCountdown Countdown.parse_iso Countdown.format_iso
    1793923200123 (Countdown.sample_dom "soon")
  = Countdown.sample_dom "2026-11-10T00:00:00.123Z".
Proof. vm_compute. reflexivity. Qed.

(** A target one millisecond in the past, in both files. *)
Example countdown_elapsed_by_1ms :
  let d := Countdown.sample_dom "2026-11-06T00:00:00.122Z" in
  Countdown.Script_updateCountdown Countdown.parse_iso Countdown.format_iso
    1793923200123 d = Ok (Countdown.sample_dom "2026-11-10T00:00:00.123Z")
  /\ Countdown.Optimized_updateCountdown Countdown.parse_iso
       Countdown.format_iso 1793923200123 d
     = Countdown.sample_dom "2026-11-10T00:00:00.123Z"
  /\ Countdown.parse_iso "2026-11-10T00:00:00.123Z"
     = Some (1793923200123 + Countdown.fourDaysMs).
Proof. vm_compute. repeat split. Qed.

(** * Interval timers: properties *)

(** C6 on script.js: the pointer enters the slider (the timer is cleared),
    the tab is hidden and shown again (a timer is set while the pointer is
    still inside), and the pointer leaves (a second timer is set without
    clearing the first): two slide timers are live, and the first of them
    can no longer be cleared because [slideTimer] holds only the second. *)
Theorem script_slider_two_live_timers :
  let st := Timers.Script.run
              [Timers.MouseEnter; Timers.VisibilityChange true;
               Timers.VisibilityChange false; Timers.MouseLeave]
              (Timers.Script.init 3) in
  Timers.live_for Timers.NextSlide st = 2%nat
  /\ Timers.live st = [(2, Timers.UpdateCountdown); (3, Timers.NextSlide);
                       (4, Timers.NextSlide)]%nat
  /\ Timers.slideTimer st = Some 4%nat
  /\ Timers.live_for Timers.NextSlide
       (Timers.Script.step st Timers.MouseEnter) = 1%nat.
Proof. vm_compute. repeat split. Qed.


Section TimerFacts.
Import Timers.

Lemma live_for_app (cb : Timers.TimerCb) (l : list (nat * Timers.TimerCb))
    (id : nat) (cb' : Timers.TimerCb) :
  filter (fun p : nat * Timers.TimerCb => p.2 = cb) (l ++ [(id, cb')])
  = filter (fun p : nat * Timers.TimerCb => p.2 = cb) l
    ++ (if decide (cb' = cb) then [(id, cb')] else []).
Proof.
  rewrite filter_app. reflexivity.
Qed.

(** A new timer gets a handle that no live timer has. *)
Lemma setInterval_handles (cb : Timers.TimerCb) (st : Timers.State) :
  NoDup (Timers.live st).*1 ->
  Forall (fun p => (1 <= p.1 < Timers.next_id st)%nat) (Timers.live st) ->
  (1 <= Timers.next_id st)%nat ->
  let st' := snd (Timers.setInterval cb st) in
  NoDup (Timers.live st').*1
  /\ Forall (fun p => (1 <= p.1 < Timers.next_id st')%nat) (Timers.live st').
Proof.
  intros Hnd Hall Hn. cbn zeta. simpl. split.
  - rewrite fmap_app. apply NoDup_app. split; [exact Hnd|]. split.
    + intros x Hx Hx'. simpl in Hx'. apply list_elem_of_singleton in Hx'. subst x.
      apply list_elem_of_fmap in Hx as (p & E & Hp).
      rewrite Forall_forall in Hall. specialize (Hall p Hp). lia.
    + simpl. apply NoDup_singleton.
  - apply Forall_app. split.
    + eapply Forall_impl; [exact Hall|]. intros p Hp. simpl in Hp. lia.
    + apply Forall_singleton. simpl. lia.
Qed.

Lemma filter_nil_elem {A} (P : A -> Prop) `{!forall x, Decision (P x)} (l : list A) :
  (forall x, x ∈ l -> ~ P x) -> filter P l = [].
Proof.
  induction l as [|x l IH]; intros HPQ; [reflexivity|].
  rewrite filter_cons_False by (apply HPQ, list_elem_of_here).
  apply IH. intros y Hy. apply HPQ, list_elem_of_further, Hy.
Qed.

Lemma filter_ext_elem {A} (P Q : A -> Prop) `{!forall x, Decision (P x)}
    `{!forall x, Decision (Q x)} (l : list A) :
  (forall x, x ∈ l -> (P x <-> Q x)) -> filter P l = filter Q l.
Proof.
  induction l as [|x l IH]; intros HPQ; [reflexivity|].
  assert (IH' : filter P l = filter Q l)
    by (apply IH; intros y Hy; apply HPQ, list_elem_of_further, Hy).
  pose proof (HPQ x (list_elem_of_here _ _)) as Hx.
  destruct (decide (P x)) as [HP | HP].
  - rewrite (filter_cons_True P) by exact HP.
    rewrite (filter_cons_True Q) by tauto. f_equal. exact IH'.
  - rewrite (filter_cons_False P) by exact HP.
    rewrite (filter_cons_False Q) by tauto. exact IH'.
Qed.

Lemma NoDup_fst_unique {A B} (l : list (A * B)) (a : A) (b b' : B) :
  NoDup l.*1 -> (a, b) ∈ l -> (a, b') ∈ l -> b = b'.
Proof.
  intros Hnd H1 H2.
  apply list_elem_of_lookup in H1 as [i Hi]. apply list_elem_of_lookup in H2 as [j Hj].
  assert (E : i = j)
    by (apply (NoDup_lookup (l.*1) i j a Hnd);
        rewrite list_lookup_fmap; [rewrite Hi | rewrite Hj]; reflexivity).
  subst j. congruence.
Qed.

Lemma tidy_fresh (n : nat) : Timers.timers_tidy (Timers.fresh n).
Proof.
  unfold Timers.timers_tidy, Timers.fresh. simpl.
  repeat split; [lia | apply NoDup_nil_2 | apply Forall_nil_2].
Qed.

(** What [if (slideTimer) clearInterval(slideTimer)] leaves of a tidy
    table: no slide timer, and every countdown timer. *)
Lemma tidy_cleared (st : Timers.State) :
  Timers.timers_tidy st ->
  let st1 := if Timers.Optimized.truthy (Timers.slideTimer st)
             then Timers.clearInterval (Timers.slideTimer st) st else st in
  (1 <= Timers.next_id st1)%nat
  /\ NoDup (Timers.live st1).*1
  /\ Forall (fun p => (1 <= p.1 < Timers.next_id st1)%nat) (Timers.live st1)
  /\ filter (fun p => p.2 = Timers.NextSlide) (Timers.live st1) = []
  /\ filter (fun p => p.2 = Timers.UpdateCountdown) (Timers.live st1)
     = filter (fun p => p.2 = Timers.UpdateCountdown) (Timers.live st)
  /\ Timers.next_id st1 = Timers.next_id st
  /\ Timers.n_images st1 = Timers.n_images st.
Proof.
  intros (Hn & Hnd & Hall & Hs & _). cbn zeta.
  destruct (Timers.slideTimer st) as [k|] eqn:Ek; simpl;
    [|repeat split; assumption].
  assert (Hin : (k, Timers.NextSlide) ∈ Timers.live st).
  { assert (H : (k, Timers.NextSlide)
                ∈ filter (fun p => p.2 = Timers.NextSlide) (Timers.live st))
      by (rewrite Hs; apply list_elem_of_here).
    apply list_elem_of_filter in H as [_ H]. exact H. }
  assert (Hk : k <> 0%nat).
  { rewrite Forall_forall in Hall. specialize (Hall _ Hin). simpl in Hall. lia. }
  rewrite (proj2 (Nat.eqb_neq k 0) Hk). simpl.
  split; [exact Hn|]. split.
  { apply (sublist_NoDup _ _ Hnd), fmap_sublist, sublist_filter. }
  split.
  { rewrite Forall_forall in *. intros p Hp.
    apply list_elem_of_filter in Hp as [_ Hp]. apply Hall, Hp. }
  split.
  { apply filter_nil_elem. intros p Hp Hc.
    apply list_elem_of_filter in Hp as [Hne Hp]. apply Hne.
    assert (H : p ∈ filter (fun p => p.2 = Timers.NextSlide) (Timers.live st))
      by (apply list_elem_of_filter; auto).
    rewrite Hs in H. apply list_elem_of_singleton in H. subst p. reflexivity. }
  split; [|split; reflexivity].
  rewrite list_filter_filter. apply filter_ext_elem. intros [id cb] Hp. simpl.
  split; [tauto|]. intros ->. split; [reflexivity|]. intros ->.
  pose proof (NoDup_fst_unique _ _ _ _ Hnd Hp Hin). discriminate.
Qed.

Lemma Optimized_start_tidy (st : Timers.State) :
  Timers.timers_tidy st ->
  Timers.slider_ready st = true ->
  let st' := Timers.Optimized.start st in
  Timers.timers_tidy st'
  /\ Timers.live_for Timers.UpdateCountdown st'
     = Timers.live_for Timers.UpdateCountdown st
  /\ Timers.n_images st' = Timers.n_images st.
Proof.
  intros Ht Hr. cbn zeta.
  destruct (tidy_cleared st Ht) as (Hn & Hnd & Hall & Hs & Hc & Hid & Hni).
  unfold Timers.Optimized.start.
  set (st1 := if Timers.Optimized.truthy (Timers.slideTimer st)
              then Timers.clearInterval (Timers.slideTimer st) st else st) in *.
  destruct (setInterval_handles Timers.NextSlide st1 Hnd Hall Hn) as [Hnd' Hall'].
  unfold Timers.timers_tidy, Timers.live_for, Timers.slider_ready in *. simpl in *.
  rewrite !live_for_app, Hs, Hc, Hni. simpl.
  rewrite app_nil_r. repeat split; try assumption; try lia.
  intros E. congruence.
Qed.

Lemma Optimized_stop_tidy (st : Timers.State) :
  Timers.timers_tidy st ->
  let st' := Timers.Optimized.stop st in
  Timers.timers_tidy st'
  /\ Timers.live_for Timers.UpdateCountdown st'
     = Timers.live_for Timers.UpdateCountdown st
  /\ Timers.n_images st' = Timers.n_images st.
Proof.
  intros Ht. cbn zeta.
  destruct (tidy_cleared st Ht) as (Hn & Hnd & Hall & Hs & Hc & Hid & Hni).
  unfold Timers.Optimized.stop.
  destruct (Timers.Optimized.truthy (Timers.slideTimer st)) eqn:Et;
    [|split; [exact Ht | split; reflexivity]].
  unfold Timers.timers_tidy, Timers.live_for, Timers.slider_ready in *. simpl in *.
  rewrite Hc. destruct (Timers.slideTimer st) as [k|]; [|discriminate].
  simpl in *. repeat split; assumption.
Qed.

Lemma Optimized_step_tidy (st : Timers.State) (ev : Timers.Event) :
  Timers.timers_tidy st ->
  let st' := Timers.Optimized.step st ev in
  Timers.timers_tidy st'
  /\ Timers.live_for Timers.UpdateCountdown st'
     = (Timers.live_for Timers.UpdateCountdown st + Timers.loads [ev])%nat
  /\ Timers.n_images st' = Timers.n_images st.
Proof.
  intros Ht. cbn zeta.
  destruct ev as [ | | hidden | id | ];
    cbn [Timers.Optimized.step]; unfold Timers.loads;
    rewrite ?filter_singleton_False by discriminate;
    rewrite ?filter_singleton_True by reflexivity;
    cbn [length]; rewrite ?Nat.add_0_r.
  - destruct (Timers.slider_ready st); [apply Optimized_stop_tidy, Ht | auto].
  - destruct (Timers.slider_ready st) eqn:Hr;
      [apply Optimized_start_tidy; assumption | auto].
  - destruct (Timers.slider_ready st) eqn:Hr; [|auto].
    destruct hidden;
      [apply Optimized_stop_tidy, Ht | apply Optimized_start_tidy; assumption].
  - unfold Timers.tick. case_bool_decide; [|auto]. destruct st; auto.
  - destruct Ht as (Hn & Hnd & Hall & Hs & Hnr).
    destruct (setInterval_handles Timers.UpdateCountdown st Hnd Hall Hn)
      as [Hnd' Hall'].
    unfold Timers.timers_tidy, Timers.live_for, Timers.slider_ready in *.
    simpl in *. rewrite !live_for_app, Hs. simpl.
    rewrite app_nil_r, length_app. simpl. repeat split; try assumption; lia.
Qed.

Lemma Optimized_run_tidy (evs : list Timers.Event) (st : Timers.State) :
  Timers.timers_tidy st ->
  let st' := Timers.Optimized.run evs st in
  Timers.timers_tidy st'
  /\ Timers.live_for Timers.UpdateCountdown st'
     = (Timers.live_for Timers.UpdateCountdown st + Timers.loads evs)%nat
  /\ Timers.n_images st' = Timers.n_images st.
Proof.
  revert st. induction evs as [|ev evs IH]; intros st Ht; cbn zeta.
  - unfold Timers.loads. simpl. rewrite Nat.add_0_r. auto.
  - destruct (Optimized_step_tidy st ev Ht) as (Ht1 & Hc1 & Hn1).
    destruct (IH _ Ht1) as (Ht2 & Hc2 & Hn2). cbn zeta in *.
    change (Timers.Optimized.run (ev :: evs) st)
      with (Timers.Optimized.run evs (Timers.Optimized.step st ev)).
    split; [exact Ht2|]. split; [|congruence].
    rewrite Hc2, Hc1. unfold Timers.loads.
    change (ev :: evs) with ([ev] ++ evs). rewrite (filter_app _ [ev] evs), length_app.
    lia.
Qed.

Lemma Optimized_DOMContentLoaded_tidy (n : nat) :
  Timers.timers_tidy (Timers.Optimized.DOMContentLoaded n)
  /\ Timers.live_for Timers.UpdateCountdown (Timers.Optimized.DOMContentLoaded n)
     = 0%nat
  /\ Timers.n_images (Timers.Optimized.DOMContentLoaded n) = n.
Proof.
  unfold Timers.Optimized.DOMContentLoaded.
  destruct (Timers.slider_ready (Timers.fresh n)) eqn:Hr.
  - destruct (Optimized_start_tidy _ (tidy_fresh n) Hr) as (Ht & Hc & Hn).
    cbn zeta in *. split; [exact Ht|]. split; [rewrite Hc; reflexivity | exact Hn].
  - split; [apply tidy_fresh|]. split; reflexivity.
Qed.

(** In the optimised file, after DOMContentLoaded and every sequence of
    events: the live slide timers are the one that [slideTimer] names (none
    while the slide show is stopped, and never one on a page with fewer
    than two slides), and there are as many countdown timers as load events
    occurred. *)
Theorem optimized_one_timer_per_behavior (n : nat) (evs : list Timers.Event) :
  let st := Timers.Optimized.run evs (Timers.Optimized.DOMContentLoaded n) in
  filter (fun p => p.2 = Timers.NextSlide) (Timers.live st)
  = match Timers.slideTimer st with
    | Some k => [(k, Timers.NextSlide)]
    | None => []
    end
  /\ (Timers.live_for Timers.NextSlide st <= 1)%nat
  /\ ((n < 2)%nat -> Timers.live_for Timers.NextSlide st = 0%nat)
  /\ Timers.live_for Timers.UpdateCountdown st = Timers.loads evs.
Proof.
  cbn zeta.
  destruct (Optimized_DOMContentLoaded_tidy n) as (Ht0 & Hc0 & Hn0).
  destruct (Optimized_run_tidy evs _ Ht0) as (Ht & Hc & Hn). cbn zeta in *.
  destruct Ht as (_ & _ & _ & Hs & Hnr).
  split; [exact Hs|]. unfold Timers.live_for in *. rewrite Hs.
  split; [destruct (Timers.slideTimer _); simpl; lia|].
  split; [|rewrite Hc, Hc0; reflexivity].
  intros Hlt. rewrite Hnr; [reflexivity|].
  unfold Timers.slider_ready. rewrite Hn, Hn0. apply Nat.leb_gt. lia.
Qed.

End TimerFacts.

(** * Outbound link tagging: properties *)

Section OutboundFacts.
Import Outbound.

(** ** Substrings *)

Lemma prefix_app (sub s t : string) :
  String.prefix sub s = true -> String.prefix sub (s +:+ t) = true.
Proof.
  revert s. induction sub as [|a sub IH]; intros s H;
    [destruct (s +:+ t); reflexivity|].
  destruct s as [|b s]; simpl in *; [discriminate|].
  destruct (Ascii.ascii_dec a b); [apply IH, H | discriminate].
Qed.

Lemma prefix_self_app (sub t : string) : String.prefix sub (sub +:+ t) = true.
Proof.
  induction sub as [|a sub IH]; simpl; [destruct t; reflexivity|].
  destruct (Ascii.ascii_dec a a); [exact IH | congruence].
Qed.

Lemma prefix_self (s : string) : String.prefix s s = true.
Proof.
  induction s as [|a s IH]; simpl; [reflexivity|].
  destruct (Ascii.ascii_dec a a); [exact IH | congruence].
Qed.

Lemma includes_prefix (sub s : string) :
  String.prefix sub s = true -> includes sub s = true.
Proof. intros H. destruct s; cbn [includes]; rewrite H; reflexivity. Qed.

Lemma includes_app_r (sub s t : string) :
  includes sub t = true -> includes sub (s +:+ t) = true.
Proof.
  intros H. induction s as [|c s IH]; [exact H|].
  change (String c s +:+ t) with (String c (s +:+ t)). cbn [includes].
  rewrite IH. apply orb_true_r.
Qed.

Lemma includes_app_l (sub s t : string) :
  includes sub s = true -> includes sub (s +:+ t) = true.
Proof.
  induction s as [|c s IH]; cbn [includes]; intros H.
  - rewrite orb_false_r in H. apply includes_prefix.
    apply (prefix_app sub "" t H).
  - apply orb_true_iff in H as [H | H].
    + apply includes_prefix, prefix_app, H.
    + change (String c s +:+ t) with (String c (s +:+ t)). cbn [includes].
      rewrite (IH H). apply orb_true_r.
Qed.

Lemma includes_nonempty (sub : string) :
  sub <> "" -> includes sub "" = false.
Proof. destruct sub; [congruence | reflexivity]. Qed.

(** ** Trimming keeps a word of plain characters *)

Lemma plain_not_space (c : Ascii.ascii) :
  is_plain c = true ->
  is_space c = false
  /\ (forall d, is_space2 c d = false)
  /\ (forall d e, is_space3 c d e = false).
Proof.
  unfold is_plain, is_space2, is_space3. intros H.
  apply andb_true_iff in H as [H1 H2]. apply negb_true_iff in H1.
  apply Nat.ltb_lt in H2. split; [exact H1|]. split.
  - intros d. rewrite (proj2 (Nat.eqb_neq _ 194)) by lia. reflexivity.
  - intros d e.
    rewrite (proj2 (Nat.eqb_neq _ 225)), (proj2 (Nat.eqb_neq _ 226)),
      (proj2 (Nat.eqb_neq _ 227)), (proj2 (Nat.eqb_neq _ 239)) by lia.
    reflexivity.
Qed.

Lemma space_not_plain (c d e : Ascii.ascii) :
  (is_space c = true -> is_plain c = false)
  /\ (is_space2 c d = true -> is_plain c = false /\ is_plain d = false)
  /\ (is_space3 c d e = true ->
      is_plain c = false /\ is_plain d = false /\ is_plain e = false).
Proof.
  unfold is_plain, is_space2, is_space3. split; [|split].
  - intros ->. reflexivity.
  - intros H. apply andb_true_iff in H as [H1 H2].
    apply Nat.eqb_eq in H1, H2. rewrite H1, H2.
    split; apply andb_false_r.
  - intros H.
    assert (G : (128 <= Ascii.nat_of_ascii c /\ 128 <= Ascii.nat_of_ascii d
                 /\ 128 <= Ascii.nat_of_ascii e)%nat).
    { cbv beta iota zeta in H.
      repeat rewrite ?orb_true_iff, ?andb_true_iff, ?Nat.eqb_eq, ?Nat.leb_le in H.
      lia. }
    destruct G as (G1 & G2 & G3).
    rewrite (proj2 (Nat.ltb_ge _ 128) G1), (proj2 (Nat.ltb_ge _ 128) G2),
      (proj2 (Nat.ltb_ge _ 128) G3).
    repeat split; apply andb_false_r.
Qed.

Lemma prefix_first_plain (sub s : string) (c : Ascii.ascii) :
  all_chars is_plain sub = true -> sub <> "" ->
  String.prefix sub (String c s) = true -> is_plain c = true.
Proof.
  intros Hp Hne H. destruct sub as [|a sub]; [congruence|].
  simpl in Hp, H. apply andb_true_iff in Hp as [Ha _].
  destruct (Ascii.ascii_dec a c) as [<-|]; [exact Ha | discriminate].
Qed.

Lemma includes_skip (sub s : string) (c : Ascii.ascii) :
  all_chars is_plain sub = true -> sub <> "" -> is_plain c = false ->
  includes sub (String c s) = true -> includes sub s = true.
Proof.
  intros Hp Hne Hc H. cbn [includes] in H.
  apply orb_true_iff in H as [H | H]; [|exact H].
  rewrite (prefix_first_plain _ _ _ Hp Hne H) in Hc. discriminate.
Qed.

Lemma includes_trim_start (sub s : string) :
  all_chars is_plain sub = true -> sub <> "" ->
  includes sub s = true -> includes sub (trim_start s) = true.
Proof.
  intros Hp Hne.
  enough (G : forall n s, (String.length s <= n)%nat ->
                includes sub s = true -> includes sub (trim_start s) = true)
    by (apply (G (String.length s)); lia).
  clear s. induction n as [|n IH]; intros s Hn H.
  { destruct s; [exact H | simpl in Hn; lia]. }
  destruct s as [|c s1]; [exact H|]. simpl in Hn. cbn [trim_start].
  destruct (space_not_plain c c c) as (S1 & _ & _).
  destruct (is_space c) eqn:E1.
  { apply IH; [lia|]. apply (includes_skip _ _ c); auto. }
  destruct s1 as [|d s2]; [exact H|]. simpl in Hn.
  destruct (space_not_plain c d d) as (_ & S2 & _).
  destruct (is_space2 c d) eqn:E2.
  { destruct (S2 eq_refl) as [Pc Pd]. apply IH; [lia|].
    apply (includes_skip _ _ d); auto. apply (includes_skip _ _ c); auto. }
  destruct s2 as [|e s3]; [exact H|]. simpl in Hn.
  destruct (space_not_plain c d e) as (_ & _ & S3).
  destruct (is_space3 c d e) eqn:E3; [|exact H].
  destruct (S3 eq_refl) as (Pc & Pd & Pe). apply IH; [lia|].
  apply (includes_skip _ _ e); auto. apply (includes_skip _ _ d); auto.
  apply (includes_skip _ _ c); auto.
Qed.

Lemma trim_start_plain (c : Ascii.ascii) (s : string) :
  is_plain c = true -> trim_start (String c s) = String c s.
Proof.
  intros Hc. destruct (plain_not_space c Hc) as (E1 & E2 & E3).
  cbn [trim_start]. rewrite E1. destruct s as [|d s2]; [reflexivity|].
  rewrite E2. destruct s2 as [|e s3]; [reflexivity|]. rewrite E3. reflexivity.
Qed.

Lemma prefix_trim_end (sub s : string) :
  all_chars is_plain sub = true ->
  String.prefix sub s = true -> String.prefix sub (trim_end s) = true.
Proof.
  revert s. induction sub as [|a sub IH]; intros s Hp H;
    [destruct (trim_end s); reflexivity|].
  destruct s as [|c s]; [discriminate|]. simpl in H, Hp.
  apply andb_true_iff in Hp as [Ha Hp].
  destruct (Ascii.ascii_dec a c) as [<-|]; [|discriminate].
  cbn [trim_end]. rewrite (trim_start_plain a s Ha).
  rewrite bool_decide_eq_false_2 by discriminate. simpl.
  destruct (Ascii.ascii_dec a a); [apply IH; assumption | congruence].
Qed.

Lemma includes_trim_end (sub s : string) :
  all_chars is_plain sub = true -> sub <> "" ->
  includes sub s = true -> includes sub (trim_end s) = true.
Proof.
  intros Hp Hne. induction s as [|c s IH]; intros H; [exact H|].
  cbn [trim_end]. case_bool_decide as E.
  - pose proof (includes_trim_start _ _ Hp Hne H) as G. rewrite E in G.
    rewrite includes_nonempty in G by exact Hne. discriminate.
  - cbn [includes] in H. apply orb_true_iff in H as [H | H].
    + apply includes_prefix.
      apply (prefix_trim_end sub (String c s) Hp) in H.
      cbn [trim_end] in H. rewrite bool_decide_eq_false_2 in H by exact E.
      exact H.
    + cbn [includes]. rewrite (IH H). apply orb_true_r.
Qed.

Lemma includes_trim (sub s : string) :
  all_chars is_plain sub = true -> sub <> "" ->
  includes sub s = true -> includes sub (trim s) = true.
Proof.
  intros Hp Hne H. unfold trim.
  apply includes_trim_end, includes_trim_start; assumption.
Qed.

(** ** Setting a query parameter *)

Lemma filter_none {A} (P : A -> Prop) `{!forall x, Decision (P x)} (l : list A) :
  (forall x, ~ P x) -> filter P l = [].
Proof.
  intros HP. induction l as [|x l IH]; [reflexivity|].
  rewrite filter_cons_False by apply HP. exact IH.
Qed.

Lemma USP_set_same (k v : string) (l : Params) :
  filter (fun p => p.1 = k) (USP_set k v l) = [(k, v)].
Proof.
  induction l as [|[k' v'] l IH]; cbn [USP_set].
  - rewrite filter_cons_True by reflexivity. reflexivity.
  - case_bool_decide as E.
    + rewrite filter_cons_True by reflexivity. f_equal.
      rewrite list_filter_filter. apply filter_none. intros p [? ?]. contradiction.
    + rewrite filter_cons_False by exact E. exact IH.
Qed.

Lemma USP_set_other (k k' v' : string) (l : Params) :
  k <> k' ->
  filter (fun p => p.1 = k) (USP_set k' v' l) = filter (fun p => p.1 = k) l.
Proof.
  intros Hk. induction l as [|[k0 v0] l IH]; cbn [USP_set].
  - rewrite filter_cons_False by (simpl; congruence). reflexivity.
  - case_bool_decide as E.
    + subst k0. rewrite !filter_cons_False by (simpl; congruence).
      apply list_filter_filter_l. intros p ->. exact Hk.
    + destruct (decide (k0 = k)) as [->|N].
      * rewrite !filter_cons_True by reflexivity. f_equal. exact IH.
      * rewrite !filter_cons_False by exact N. exact IH.
Qed.

(** Setting a name of the set [K] leaves the pairs with names outside [K]
    as they are, in their order. *)
Lemma USP_set_outside (K : list string) (k v : string) (l : Params) :
  k ∈ K ->
  filter (fun p => p.1 ∉ K) (USP_set k v l) = filter (fun p => p.1 ∉ K) l.
Proof.
  intros Hk. induction l as [|[k0 v0] l IH]; cbn [USP_set].
  - rewrite filter_cons_False by (simpl; tauto). reflexivity.
  - case_bool_decide as E.
    + subst k0. rewrite !filter_cons_False by (simpl; tauto).
      apply list_filter_filter_l. intros p Hp E. apply Hp. rewrite E. exact Hk.
    + destruct (decide (k0 ∈ K)) as [Hin | Hout].
      * rewrite !filter_cons_False by (simpl; tauto). exact IH.
      * rewrite !filter_cons_True by exact Hout. f_equal. exact IH.
Qed.

Lemma USP_set_nonempty (k v : string) (l : Params) : USP_set k v l <> [].
Proof.
  destruct l as [|[k0 v0] l]; cbn [USP_set]; [discriminate|].
  case_bool_decide; discriminate.
Qed.

(** The serialisation of a list that [set] has left is not empty, so the
    update steps of [searchParams] never make the query null. *)
Lemma USP_set_toString_nonempty (k v : string) (l : Params) :
  USP_toString (USP_set k v l) <> "".
Proof.
  pose proof (USP_set_nonempty k v l) as Hne.
  destruct (USP_set k v l) as [|p l']; [congruence|]. clear Hne.
  unfold USP_toString. cbn [fmap list_fmap].
  assert (H : forall a b c : string, (a +:+ "=" +:+ b) +:+ c <> "").
  { intros a b c. destruct a; discriminate. }
  destruct l' as [|q l'']; cbn [fmap list_fmap String.concat]; [|apply H].
  destruct (form_encode p.1); discriminate.
Qed.

(** The loop over [Object.keys(params)] touches neither the part of the
    URL before the query nor the fragment, and leaves as query the
    serialisation of the list. *)
Lemma fold_set_record (ps : Params) (u : URL) :
  url_base (record (fold_left searchParams_set ps u)) = url_base (record u)
  /\ url_fragment (record (fold_left searchParams_set ps u))
     = url_fragment (record u)
  /\ (ps <> [] ->
      url_query (record (fold_left searchParams_set ps u))
      = Some (USP_toString (searchParams (fold_left searchParams_set ps u)))
      /\ searchParams (fold_left searchParams_set ps u) <> []).
Proof.
  revert u. induction ps as [|p ps IH]; intros u; [repeat split; congruence|].
  cbn [fold_left]. destruct (IH (searchParams_set u p)) as (Hb & Hf & Hq).
  rewrite Hb, Hf. split; [reflexivity|]. split; [reflexivity|]. intros _.
  destruct ps as [|p' ps]; [|apply Hq; discriminate].
  simpl. split; [reflexivity | apply USP_set_nonempty].
Qed.

Lemma fold_set_param_other (k : string) (ps : Params) (u : URL) :
  k ∉ ps.*1 ->
  filter (fun p => p.1 = k) (searchParams (fold_left searchParams_set ps u))
  = filter (fun p => p.1 = k) (searchParams u).
Proof.
  revert u. induction ps as [|[k' v'] ps IH]; intros u Hk; [reflexivity|].
  simpl. rewrite IH by (intros H; apply Hk; simpl; apply list_elem_of_further, H).
  simpl. apply USP_set_other. intros ->. apply Hk. simpl. apply list_elem_of_here.
Qed.

Lemma fold_set_param_outside (K : list string) (ps : Params) (u : URL) :
  (forall k, k ∈ ps.*1 -> k ∈ K) ->
  filter (fun p => p.1 ∉ K) (searchParams (fold_left searchParams_set ps u))
  = filter (fun p => p.1 ∉ K) (searchParams u).
Proof.
  revert u. induction ps as [|[k' v'] ps IH]; intros u Hk; [reflexivity|].
  simpl. rewrite IH by (intros k H; apply Hk; simpl; apply list_elem_of_further, H).
  simpl. apply USP_set_outside, Hk. simpl. apply list_elem_of_here.
Qed.

(** After the loop over [Object.keys(params)], the only pair named [k] in
    the list is the one the loop set. *)
Lemma fold_set_param_same (k v : string) (ps : Params) (u : URL) :
  NoDup ps.*1 -> (k, v) ∈ ps ->
  filter (fun p => p.1 = k) (searchParams (fold_left searchParams_set ps u))
  = [(k, v)].
Proof.
  revert u. induction ps as [|[k' v'] ps IH]; intros u Hnd Hin.
  - apply elem_of_nil in Hin. contradiction.
  - simpl in Hnd. apply NoDup_cons in Hnd as [Hhd Hnd].
    apply elem_of_cons in Hin as [E | Hin].
    + injection E as <- <-. simpl. rewrite fold_set_param_other by exact Hhd.
      simpl. apply USP_set_same.
    + simpl. apply IH; assumption.
Qed.

Lemma filter_key_get (k v : string) (l : Params) :
  filter (fun p => p.1 = k) l = [(k, v)] -> USP_get k l = Some v.
Proof.
  induction l as [|[k0 v0] l IH]; [discriminate|].
  cbn [USP_get]. case_bool_decide as E0.
  - subst k0. rewrite filter_cons_True by reflexivity. congruence.
  - rewrite filter_cons_False by exact E0. exact IH.
Qed.

(** ** Serialisation shows every pair of the list, form-encoded *)

Lemma USP_toString_includes (k v : string) (l : Params) :
  (k, v) ∈ l ->
  includes (form_encode k +:+ "=" +:+ form_encode v) (USP_toString l) = true.
Proof.
  unfold USP_toString. induction l as [|p l IH]; intros Hin.
  - apply elem_of_nil in Hin. contradiction.
  - apply elem_of_cons in Hin as [<- | Hin].
    + destruct l as [|q l]; cbn [fmap list_fmap String.concat fst snd].
      * apply includes_prefix, prefix_self.
      * apply includes_prefix, prefix_self_app.
    + specialize (IH Hin). destruct l as [|q l].
      * apply elem_of_nil in Hin. contradiction.
      * cbn [fmap list_fmap String.concat] in *.
        do 2 apply includes_app_r. exact IH.
Qed.

Lemma URL_toString_includes (k v : string) (u : URL) :
  url_query (record u) = Some (USP_toString (searchParams u)) ->
  (k, v) ∈ searchParams u ->
  includes (form_encode k +:+ "=" +:+ form_encode v) (URL_toString u) = true.
Proof.
  intros Hq Hin. unfold URL_toString. rewrite Hq.
  apply includes_app_r, includes_app_l, includes_app_r.
  apply USP_toString_includes, Hin.
Qed.

Lemma filter_key_elem (k v : string) (l : Params) :
  filter (fun p => p.1 = k) l = [(k, v)] -> (k, v) ∈ l.
Proof.
  intros H. assert (Hin : (k, v) ∈ filter (fun p => p.1 = k) l)
    by (rewrite H; apply list_elem_of_here).
  apply list_elem_of_filter in Hin as [_ Hin]. exact Hin.
Qed.

(** ** The parameters read from the page *)

Lemma getUrlParams_elem (search k v : string) :
  (k, v) ∈ getUrlParams search
  <-> k ∈ TRACKING_KEYS /\ USP_get k (USP_parse search) = Some v.
Proof.
  unfold getUrlParams. rewrite list_elem_of_omap. split.
  - intros (k' & Hk & H). destruct (USP_get k' _) as [v'|] eqn:E; [|discriminate].
    simpl in H. injection H as <- <-. auto.
  - intros [Hk H]. exists k. rewrite H. auto.
Qed.

Lemma omap_keys_NoDup (f : string -> option string) (ks : list string) :
  NoDup ks -> NoDup (omap (fun k => (fun v => (k, v)) <$> f k) ks).*1.
Proof.
  induction ks as [|k ks IH]; intros Hnd; [apply NoDup_nil_2|].
  apply NoDup_cons in Hnd as [Hhd Hnd]. simpl.
  destruct (f k) as [v|]; simpl; [|apply IH, Hnd].
  apply NoDup_cons. split; [|apply IH, Hnd].
  intros Hin. apply list_elem_of_fmap in Hin as ([k' v'] & -> & Hin).
  apply list_elem_of_omap in Hin as (k0 & Hk0 & H).
  destruct (f k0); [|discriminate]. simpl in H. injection H as <- <-.
  exact (Hhd Hk0).
Qed.

Lemma getUrlParams_NoDup (search : string) : NoDup (getUrlParams search).*1.
Proof.
  apply omap_keys_NoDup. unfold TRACKING_KEYS.
  apply (bool_decide_unpack _). vm_compute. exact I.
Qed.

Lemma getUrlParams_nil (search : string) :
  (forall k, k ∈ TRACKING_KEYS -> USP_get k (USP_parse search) = None) ->
  getUrlParams search = [].
Proof.
  intros H. destruct (getUrlParams search) as [|[k v] l] eqn:E; [reflexivity|].
  assert (Hin : (k, v) ∈ getUrlParams search) by (rewrite E; apply list_elem_of_here).
  apply getUrlParams_elem in Hin as [Hk Hv]. rewrite (H k Hk) in Hv. discriminate.
Qed.

(** The names that the loop sets are tracking names, with the page's
    parameters and with the defaults. *)
Lemma applied_keys_tracking (search : string) :
  let params := getUrlParams search in
  let params' := if Nat.eqb (length params) 0 then DEFAULT_UTM else params in
  forall k, k ∈ params'.*1 -> k ∈ TRACKING_KEYS.
Proof.
  cbn zeta. intros k Hk. destruct (getUrlParams search) as [|p ps] eqn:E.
  - simpl in Hk. unfold TRACKING_KEYS.
    repeat (apply elem_of_cons in Hk as [-> | Hk];
            [apply (bool_decide_unpack _); vm_compute; exact I|]).
    inversion Hk.
  - cbn [length Nat.eqb] in Hk. rewrite <- E in Hk.
    apply list_elem_of_fmap in Hk as ([k' v] & -> & Hin).
    apply getUrlParams_elem in Hin as [Hin _]. exact Hin.
Qed.

(** ** What the loop body does to a link *)

Variable URL_parser : string -> option URLRecord.

Lemma partner_href_nonempty (href : string) :
  includes PARTNER_DOMAIN href = true -> href <> "".
Proof. intros H ->. discriminate. Qed.

Lemma rel_gets_noopener (rel : option string) :
  let currentRel := if truthy rel then default "" rel else "" in
  (includes "noopener" currentRel = true ->
   exists r, rel = Some r /\ includes "noopener" r = true)
  /\ includes "noopener" (currentRel +:+ " noopener") = true
  /\ includes "noopener" (trim (currentRel +:+ " noopener")) = true.
Proof.
  cbn zeta. split; [|split].
  - destruct rel as [r|]; simpl; [|discriminate].
    case_bool_decide; simpl; [discriminate|]. eauto.
  - apply includes_app_r. reflexivity.
  - apply includes_trim; [reflexivity | discriminate |].
    apply includes_app_r. reflexivity.
Qed.

(** The tagged URL of a link that the parser accepts. *)
Lemma process_link_effect (params : Params) (href : string)
    (rel : option string) (r : URLRecord) (l' : Link) :
  URL_parser href = Some r ->
  includes PARTNER_DOMAIN href = true ->
  l' = Script_process_link URL_parser params (mkLink (Some href) rel)
  \/ l' = Optimized_process_link URL_parser params (mkLink (Some href) rel) ->
  link_href l'
  = Some (URL_toString
            (tag (mkURL r (urlencoded_parse (default "" (url_query r)))) params))
  /\ exists r', link_rel l' = Some r' /\ includes "noopener" r' = true.
Proof.
  intros Hu Hd Hl.
  pose proof (partner_href_nonempty _ Hd) as Hne.
  destruct (rel_gets_noopener rel) as (R1 & R2 & R3). cbn zeta in *.
  destruct Hl as [-> | ->];
    unfold Script_process_link, Optimized_process_link,
      Script_appendTrackingParams, Optimized_appendTrackingParams, new_URL;
    cbn [link_href link_rel]; rewrite Hd, Hu, (bool_decide_eq_false_2 _ Hne);
    cbn [negb andb orb bind];
    destruct (includes "noopener" _) eqn:E; cbn [negb link_href link_rel];
    (split; [reflexivity|]); eauto.
Qed.

(** A link that is left as it is, or nearly. *)
Lemma process_link_rejected (params : Params) (href : string)
    (rel : option string) :
  URL_parser href = None ->
  Script_process_link URL_parser params (mkLink (Some href) rel)
  = mkLink (Some href) rel
  /\ link_href (Optimized_process_link URL_parser params (mkLink (Some href) rel))
     = Some href
  /\ (includes PARTNER_DOMAIN href = true ->
      exists r', link_rel (Optimized_process_link URL_parser params
                             (mkLink (Some href) rel)) = Some r'
                 /\ includes "noopener" r' = true).
Proof.
  intros Hp. destruct (rel_gets_noopener rel) as (R1 & R2 & R3). cbn zeta in *.
  unfold Script_process_link, Optimized_process_link,
    Script_appendTrackingParams, Optimized_appendTrackingParams, new_URL.
  cbn [link_href link_rel]. rewrite Hp. cbn [bind].
  split; [destruct (negb _ && _); reflexivity|]. split.
  - destruct (bool_decide _ || _); [reflexivity|].
    destruct (negb (includes "noopener" _)); reflexivity.
  - intros Hd. rewrite Hd, (bool_decide_eq_false_2 _ (partner_href_nonempty _ Hd)).
    cbn [negb orb].
    destruct (includes "noopener" _) eqn:E; cbn [negb link_href link_rel]; eauto.
Qed.

(** The handlers visit every link. *)
Lemma init_lookup (search : string) (links : list Link) (i : nat)
    (link : Link) (ls' : list Link) :
  links !! i = Some link ->
  ls' = Script_initOutboundTracking URL_parser search links
  \/ ls' = Optimized_initOutboundTracking URL_parser search links ->
  exists l', ls' !! i = Some l'
             /\ (l' = Script_process_link URL_parser (getUrlParams search) link
                 \/ l' = Optimized_process_link URL_parser (getUrlParams search)
                           link).
Proof.
  intros Hi [-> | ->];
    unfold Script_initOutboundTracking, Optimized_initOutboundTracking;
    rewrite list_lookup_fmap, Hi; simpl; eauto.
Qed.

(** C9, amended: of the [a[data-out]] links that the DOMContentLoaded
    handler visits, the one with href
    [https://rqgstore.com/x?utm_source=google], on a page with query
    [?utm_campaign=summer], gets the href
    [https://rqgstore.com/x?utm_source=google&utm_campaign=summer], which
    contains both parameters, and a rel that contains [noopener]; when
    the page query has none of the eight tracking parameters, every link
    whose href contains the partner domain and is a URL that [new URL]
    accepts gets the default triple; a link whose href [new URL] rejects
    keeps its href.  Both files, for every URL parser. *)
Theorem outbound_link_gets_page_or_default_utm :
  (URL_parser "https://rqgstore.com/x?utm_source=google"
   = Some (mkURLRecord "https://rqgstore.com/x" (Some "utm_source=google") None) ->
   forall links i rel ls',
     links !! i
     = Some (mkLink (Some "https://rqgstore.com/x?utm_source=google") rel) ->
     ls' = Script_initOutboundTracking URL_parser "?utm_campaign=summer" links
     \/ ls' = Optimized_initOutboundTracking URL_parser "?utm_campaign=summer"
                links ->
     exists h r,
       ls' !! i = Some (mkLink (Some h) (Some r))
       /\ h = "https://rqgstore.com/x?utm_source=google&utm_campaign=summer"
       /\ includes "utm_campaign=summer" h = true
       /\ includes "utm_source=google" h = true
       /\ includes "noopener" r = true)
  /\ (forall search links i href rel rec ls',
        (forall k, k ∈ TRACKING_KEYS -> USP_get k (USP_parse search) = None) ->
        links !! i = Some (mkLink (Some href) rel) ->
        includes PARTNER_DOMAIN href = true ->
        URL_parser href = Some rec ->
        ls' = Script_initOutboundTracking URL_parser search links
        \/ ls' = Optimized_initOutboundTracking URL_parser search links ->
        exists h r,
          ls' !! i = Some (mkLink (Some h) (Some r))
          /\ includes "utm_source=landing" h = true
          /\ includes "utm_medium=cta" h = true
          /\ includes "utm_campaign=iptv_sa" h = true
          /\ includes "noopener" r = true)
  /\ (forall search links i href rel ls',
        links !! i = Some (mkLink (Some href) rel) ->
        URL_parser href = None ->
        ls' = Script_initOutboundTracking URL_parser search links
        \/ ls' = Optimized_initOutboundTracking URL_parser search links ->
        exists l', ls' !! i = Some l' /\ link_href l' = Some href).
Proof.
  split; [|split].
  - intros Hex links i rel ls' Hi Hls.
    destruct (init_lookup _ _ _ _ _ Hi Hls) as (l' & Hl' & Hl).
    destruct (process_link_effect _ _ rel _ l' Hex eq_refl Hl)
      as (Hh & r & Hr & Hn).
    exists "https://rqgstore.com/x?utm_source=google&utm_campaign=summer", r.
    split; [|repeat split; try reflexivity; exact Hn].
    rewrite Hl'. destruct l' as [h' r']. simpl in Hh, Hr. subst r'.
    rewrite Hh. reflexivity.
  - intros search links i href rel rec ls' Hnone Hi Hd Hu Hls.
    destruct (init_lookup _ _ _ _ _ Hi Hls) as (l' & Hl' & Hl).
    destruct (process_link_effect _ _ _ _ _ Hu Hd Hl) as (Hh & r & Hr & Hn).
    rewrite (getUrlParams_nil search Hnone) in Hh.
    set (u := mkURL rec (urlencoded_parse (default "" (url_query rec)))) in *.
    exists (URL_toString (tag u [])), r.
    split; [rewrite Hl'; destruct l'; simpl in *; congruence|].
    assert (Hd3 : NoDup DEFAULT_UTM.*1)
      by (apply (bool_decide_unpack _); vm_compute; exact I).
    destruct (fold_set_record DEFAULT_UTM u) as (_ & _ & Hq).
    destruct Hq as [Hq _]; [discriminate|].
    assert (G : forall k v, (k, v) ∈ DEFAULT_UTM ->
                includes (form_encode k +:+ "=" +:+ form_encode v)
                         (URL_toString (tag u [])) = true).
    { intros k v Hin. apply URL_toString_includes; [exact Hq|].
      apply filter_key_elem.
      apply (fold_set_param_same k v DEFAULT_UTM u Hd3 Hin). }
    split; [apply (G "utm_source" "landing"); set_solver|].
    split; [apply (G "utm_medium" "cta"); set_solver|].
    split; [apply (G "utm_campaign" "iptv_sa"); set_solver|].
    exact Hn.
  - intros search links i href rel ls' Hi Hp Hls.
    destruct (init_lookup _ _ _ _ _ Hi Hls) as (l' & Hl' & Hl).
    exists l'. split; [exact Hl'|].
    destruct (process_link_rejected (getUrlParams search) href rel Hp)
      as (E1 & E2 & _).
    destruct Hl as [-> | ->]; [rewrite E1; reflexivity | exact E2].
Qed.

(** C10: a tracking parameter that the page query carries ends up in the
    rewritten href with the page's value, and as the only pair of that
    name: a value the link had for it is overwritten.  The href is the
    serialisation of the tagged URL, whose query is the form-encoded list
    of its parameters.  Both files, for every URL parser and every link
    that it accepts. *)
Theorem page_parameters_overwrite_link_parameters
    (search href k v : string) (rel : option string) (rec : URLRecord)
    (l' : Link) :
  k ∈ TRACKING_KEYS ->
  USP_get k (USP_parse search) = Some v ->
  URL_parser href = Some rec ->
  includes PARTNER_DOMAIN href = true ->
  l' = Script_process_link URL_parser (getUrlParams search)
         (mkLink (Some href) rel)
  \/ l' = Optimized_process_link URL_parser (getUrlParams search)
            (mkLink (Some href) rel) ->
  exists u',
    link_href l' = Some (URL_toString u')
    /\ url_base (record u') = url_base rec
    /\ url_fragment (record u') = url_fragment rec
    /\ url_query (record u') = Some (USP_toString (searchParams u'))
    /\ filter (fun p => p.1 = k) (searchParams u') = [(k, v)]
    /\ USP_get k (searchParams u') = Some v
    /\ includes (form_encode k +:+ "=" +:+ form_encode v) (URL_toString u')
       = true.
Proof.
  intros Hk Hv Hu Hd Hl.
  destruct (process_link_effect _ _ _ _ _ Hu Hd Hl) as (Hh & _).
  assert (Hin : (k, v) ∈ getUrlParams search) by (apply getUrlParams_elem; auto).
  set (u := mkURL rec (urlencoded_parse (default "" (url_query rec)))) in *.
  exists (tag u (getUrlParams search)). split; [exact Hh|].
  unfold tag. destruct (getUrlParams search) as [|p ps] eqn:E.
  { apply elem_of_nil in Hin. contradiction. }
  cbn [length Nat.eqb]. rewrite <- E in *.
  destruct (fold_set_record (getUrlParams search) u) as (Hb & Hf & Hq).
  destruct Hq as [Hq _]; [rewrite E; discriminate|].
  pose proof (fold_set_param_same k v _ u (getUrlParams_NoDup search) Hin) as F.
  split; [exact Hb|]. split; [exact Hf|]. split; [exact Hq|].
  split; [exact F|]. split; [apply filter_key_get, F|].
  apply URL_toString_includes; [exact Hq | apply filter_key_elem, F].
Qed.

End OutboundFacts.

(** C9 as it stands, for every tracked link whose href contains the
    partner domain, fails on a link that is no absolute URL: the href
    [//rqgstore.com/x] contains the domain, [new URL] rejects it for want
    of a scheme, and on a page without tracking parameters both files keep
    the href as it is, without the default triple. *)
Theorem relative_partner_link_gets_no_default_utm :
  let link := Outbound.mkLink (Some "//rqgstore.com/x") None in
  Outbound.includes Outbound.PARTNER_DOMAIN "//rqgstore.com/x" = true
  /\ Outbound.getUrlParams "" = []
  /\ Outbound.sample_URL_parser "//rqgstore.com/x" = None
  /\ Outbound.Script_initOutboundTracking Outbound.sample_URL_parser "" [link]
     = [link]
  /\ Outbound.Optimized_initOutboundTracking Outbound.sample_URL_parser "" [link]
     = [Outbound.mkLink (Some "//rqgstore.com/x") (Some "noopener")]
  /\ Outbound.includes "utm_source=landing" "//rqgstore.com/x" = false.
Proof. vm_compute. repeat split. Qed.

Lemma outbound_default_utm_witness :
  (exists h r,
      Outbound.Optimized_initOutboundTracking Outbound.sample_URL_parser
        "?utm_campaign=summer"
        [Outbound.mkLink (Some "https://rqgstore.com/x?utm_source=google") None]
        !! 0%nat
      = Some (Outbound.mkLink (Some h) (Some r))
      /\ h = "https://rqgstore.com/x?utm_source=google&utm_campaign=summer"
      /\ Outbound.includes "utm_campaign=summer" h = true
      /\ Outbound.includes "utm_source=google" h = true
      /\ Outbound.includes "noopener" r = true)
  /\ (let links :=
        [Outbound.mkLink (Some "https://rqgstore.com/x?utm_source=google")
                         (Some "nofollow");
         Outbound.mkLink (Some " https://rqgstore.com?q=a%20b#top") None] in
      let ls' := Outbound.Script_initOutboundTracking Outbound.sample_URL_parser
                   "?ref=mail" links in
      ls' = [Outbound.mkLink
               (Some ("https://rqgstore.com/x"
                      +:+ "?utm_source=landing&utm_medium=cta&utm_campaign=iptv_sa"))
               (Some "nofollow noopener");
             Outbound.mkLink
               (Some ("https://rqgstore.com/?q=a+b"
                      +:+ "&utm_source=landing&utm_medium=cta&utm_campaign=iptv_sa"
                      +:+ "#top"))
               (Some " noopener")]
      /\ exists h r,
           ls' !! 1%nat = Some (Outbound.mkLink (Some h) (Some r))
           /\ Outbound.includes "utm_source=landing" h = true
           /\ Outbound.includes "utm_medium=cta" h = true
           /\ Outbound.includes "utm_campaign=iptv_sa" h = true
           /\ Outbound.includes "noopener" r = true).
Proof.
  split.
  - apply (proj1 (outbound_link_gets_page_or_default_utm
                    Outbound.sample_URL_parser)
             ltac:(vm_compute; reflexivity)
             [Outbound.mkLink (Some "https://rqgstore.com/x?utm_source=google")
                              None]
             0%nat None).
    + reflexivity.
    + right. reflexivity.
  - cbn zeta. split; [vm_compute; reflexivity|].
    apply (proj1 (proj2 (outbound_link_gets_page_or_default_utm
                           Outbound.sample_URL_parser))
             "?ref=mail"
             [Outbound.mkLink (Some "https://rqgstore.com/x?utm_source=google")
                              (Some "nofollow");
              Outbound.mkLink (Some " https://rqgstore.com?q=a%20b#top") None]
             1%nat " https://rqgstore.com?q=a%20b#top" None
             (Outbound.mkURLRecord "https://rqgstore.com/" (Some "q=a%20b")
                                   (Some "top"))).
    + intros k Hk. unfold Outbound.TRACKING_KEYS in Hk.
      repeat (apply elem_of_cons in Hk as [-> | Hk]; [reflexivity|]).
      apply elem_of_nil in Hk. contradiction.
    + reflexivity.
    + reflexivity.
    + vm_compute. reflexivity.
    + left. reflexivity.
Defined.

Lemma page_overwrites_link_witness :
  let l' := Outbound.Optimized_process_link Outbound.sample_URL_parser
              (Outbound.getUrlParams "?utm_source=a/b:c&utm_campaign=summer%20sale")
              (Outbound.mkLink
                 (Some "https://rqgstore.com/x?utm_source=google&plan=1#buy")
                 None) in
  l' = Outbound.mkLink
         (Some "https://rqgstore.com/x?utm_source=a%2Fb%3Ac&plan=1&utm_campaign=summer+sale#buy")
         (Some "noopener")
  /\ exists u',
       Outbound.link_href l' = Some (Outbound.URL_toString u')
       /\ Outbound.url_base (Outbound.record u') = "https://rqgstore.com/x"
       /\ Outbound.url_fragment (Outbound.record u') = Some "buy"
       /\ Outbound.url_query (Outbound.record u')
          = Some (Outbound.USP_toString (Outbound.searchParams u'))
       /\ filter (fun p => p.1 = "utm_source") (Outbound.searchParams u')
          = [("utm_source", "a/b:c")]
       /\ Outbound.USP_get "utm_source" (Outbound.searchParams u') = Some "a/b:c"
       /\ Outbound.includes "utm_source=a%2Fb%3Ac" (Outbound.URL_toString u')
          = true.
Proof.
  split; [vm_compute; reflexivity|].
  apply (page_parameters_overwrite_link_parameters Outbound.sample_URL_parser
           "?utm_source=a/b:c&utm_campaign=summer%20sale"
           "https://rqgstore.com/x?utm_source=google&plan=1#buy"
           "utm_source" "a/b:c" None
           (Outbound.mkURLRecord "https://rqgstore.com/x"
              (Some "utm_source=google&plan=1") (Some "buy"))).
  - apply (bool_decide_unpack _). vm_compute. exact I.
  - vm_compute. reflexivity.
  - vm_compute. reflexivity.
  - reflexivity.
  - right. reflexivity.
Defined.

(** * Missing optional elements *)

(** C5 on script.js: on a page without a back-to-top button the script
    stops with a TypeError at line 542, with only the scroll listener
    registered, and that listener throws on every scroll; on a page without
    an accordion every click on the document throws.  A missing countdown
    container and an empty set of animated elements are silent. *)
Theorem script_missing_optional_elements (w : World) (inside : bool)
    (getTime : string -> Countdown.num) (iso : Z -> string) (now : Z)
    (d : Countdown.Dom) :
  backToTopBtn (dom w) = None ->
  Countdown.cta_timer d = None ->
  Optional.Script_toplevel_tail (backToTopBtn (dom w))
  = ([Optional.OnScroll_toggleBackToTopButton], Some TypeError)
  /\ Script.toggleBackToTopButton w = Throw TypeError
  /\ Optional.Script_document_click None inside = Throw TypeError
  /\ Countdown.Script_updateCountdown getTime iso now d = Ok d
  /\ Optional.Script_init_animated [] = Ok tt.
Proof.
  intros Hb Hc. unfold Script.toggleBackToTopButton, Countdown.Script_updateCountdown.
  rewrite Hb, Hc. repeat split.
Qed.

Lemma script_missing_optional_elements_witness :
  let w := Script.init (set_backToTopBtn None sample_dom) in
  let d := Countdown.mkDom None None None None None None in
  Optional.Script_toplevel_tail (backToTopBtn (dom w))
  = ([Optional.OnScroll_toggleBackToTopButton], Some TypeError)
  /\ Script.toggleBackToTopButton w = Throw TypeError
  /\ Optional.Script_document_click None false = Throw TypeError
  /\ Countdown.Script_updateCountdown Countdown.parse_iso Countdown.format_iso
       1793923200123 d = Ok d
  /\ Optional.Script_init_animated [] = Ok tt.
Proof.
  apply (script_missing_optional_elements
           (Script.init (set_backToTopBtn None sample_dom)) false
           Countdown.parse_iso Countdown.format_iso 1793923200123
           (Countdown.mkDom None None None None None None));
    reflexivity.
Defined.

(** The optimised file on the same pages: nothing is registered for a
    missing accordion, the scroll update skips a missing button, the
    countdown returns at once, and no element is observed. *)
Lemma optimized_missing_optional_elements (w : World)
    (getTime : string -> Countdown.num) (iso : Z -> string) (now : Z)
    (d : Countdown.Dom) :
  backToTopBtn (dom w) = None ->
  Countdown.cta_timer d = None ->
  Optional.Optimized_initAccordion None = []
  /\ backToTopBtn (dom (Optimized.updateHeader w)) = None
  /\ Countdown.Optimized_updateCountdown getTime iso now d = d
  /\ Observer.observed (Optional.Optimized_init_animated []) = ∅.
Proof.
  intros Hb Hc. rewrite Optimized_updateHeader_backToTop, Hb.
  unfold Countdown.Optimized_updateCountdown. rewrite Hc. repeat split.
Qed.

(** * Further properties of the scroll coordinator *)

Lemma updateHeader_agree (w : World) :
  Script.updateHeader w = Optimized.updateHeader w.
Proof.
  unfold Script.updateHeader, Optimized.updateHeader.
  rewrite Optimized_currentScroll. unfold pageYOffset.
  replace (if scrollY (dom w) <=? 0 then 0 else scrollY (dom w))
    with (Z.max 0 (scrollY (dom w))); [reflexivity|].
  destruct (Z.leb_spec (scrollY (dom w)) 0); lia.
Qed.

(** The two files compute the same header update on every world, also
    after any number of earlier updates: the [||] chain reads the same
    offset, and the ternary and [Math.max] clamp alike. *)
Theorem updateHeader_same_in_both_files (w : World) (n : nat) :
  Nat.iter n Script.updateHeader w = Nat.iter n Optimized.updateHeader w.
Proof.
  induction n as [|n IH]; [reflexivity|].
  rewrite !Nat.iter_succ, IH. apply updateHeader_agree.
Qed.

Lemma Script_updateHeader_rest (w : World) :
  let w' := Script.updateHeader w in
  scrollY (dom w') = scrollY (dom w)
  /\ navMenu (dom w') = navMenu (dom w)
  /\ header_scrolled (dom w') = (50 <? scrollY (dom w))
  /\ lastScroll w' = Z.max 0 (scrollY (dom w))
  /\ headerHeight w' = headerHeight w
  /\ ticking w' = false
  /\ raf w' = raf w.
Proof.
  assert (E : (if scrollY (dom w) <=? 0 then 0 else scrollY (dom w))
              = Z.max 0 (scrollY (dom w)))
    by (destruct (Z.leb_spec (scrollY (dom w)) 0); lia).
  destruct w as [[y sc hd hh [[|]|] mb [s|] secs links] ls tk hH tn q tr];
    unfold Script.updateHeader, pageYOffset in *; simpl in *;
    repeat (destruct (_ && _); simpl); rewrite ?E; repeat split.
Qed.

(** With the overlay closed, the header is hidden exactly when the offset
    grew since the last update and exceeds the header's height; the update
    records the offset, clamped at zero, so that a second update at the
    same offset shows the header again. *)
Theorem header_hidden_iff_scrolling_down_past_header (w : World) :
  overlay_open (dom w) = false ->
  let w' := Script.updateHeader w in
  (header_hide (dom w') = true
   <-> lastScroll w < scrollY (dom w) /\ headerHeight w < scrollY (dom w))
  /\ (header_scrolled (dom w') = true <-> 50 < scrollY (dom w))
  /\ lastScroll w' = Z.max 0 (scrollY (dom w))
  /\ header_hide (dom (Script.updateHeader w')) = false
  /\ header_hide (dom (Optimized.updateHeader (Optimized.updateHeader w)))
     = false.
Proof.
  intros Ho. cbn zeta.
  destruct (Script_updateHeader_rest w) as (Ey & En & Es & El & Eh & _ & _).
  assert (Ho' : overlay_open (dom (Script.updateHeader w)) = false)
    by (unfold overlay_open in *; rewrite En; exact Ho).
  rewrite <- !updateHeader_agree.
  rewrite !Script_updateHeader_hide, Ho, Ho', Es, El, Ey.
  rewrite andb_true_iff, !Z.ltb_lt.
  assert (F : (Z.max 0 (scrollY (dom w)) <? scrollY (dom w)) = false)
    by (apply Z.ltb_ge; lia).
  rewrite F. split; [tauto|]. split; [tauto|]. split; [reflexivity|].
  split; reflexivity.
Qed.

Lemma header_hidden_iff_witness :
  let w := Script.run [EScroll 500] (Script.init sample_dom) in
  overlay_open (dom w) = false
  /\ header_hide (dom (Script.updateHeader w)) = true
  /\ header_hide (dom (Script.updateHeader (Script.updateHeader w))) = false.
Proof.
  pose proof (header_hidden_iff_scrolling_down_past_header
                (Script.run [EScroll 500] (Script.init sample_dom)) eq_refl)
    as (H1 & _ & _ & H4 & _).
  split; [reflexivity|]. split; [|exact H4].
  apply H1. vm_compute. split; reflexivity.
Defined.

(** ** No update is lost *)

Lemma Script_step_scroll_offset (w : World) (y : Z) :
  scrollY (dom (Script.step w (EScroll y))) = y.
Proof.
  destruct w as [[y0 sc hd hh nm mb [s|] secs links] ls [|] hH tn q tr];
    unfold Script.step, Script.dispatch_scroll, invoke_listener,
      Script.toggleBackToTopButton, pageYOffset; simpl;
    try destruct (300 <? y); reflexivity.
Qed.

Lemma Script_burst_offset (ys : list Z) (y : Z) (w : World) :
  scrollY (dom (Script.run (map EScroll (ys ++ [y])) w)) = y.
Proof.
  unfold Script.run. rewrite map_app, fold_left_app. simpl.
  apply Script_step_scroll_offset.
Qed.

Lemma Script_burst_button (l : list Z) (w : World) :
  is_Some (backToTopBtn (dom (Script.run (map EScroll l) w)))
  <-> is_Some (backToTopBtn (dom w)).
Proof.
  revert w. induction l as [|a l IH]; intros w; [reflexivity|].
  change (Script.run (map EScroll (a :: l)) w)
    with (Script.run (map EScroll l) (Script.step w (EScroll a))).
  rewrite IH.
  destruct w as [[y0 sc hd hh nm mb [s|] secs links] ls [|] hH tn q tr];
    unfold Script.step, Script.dispatch_scroll, invoke_listener,
      Script.toggleBackToTopButton, pageYOffset; simpl;
    try destruct (300 <? a); simpl; split; intros [? ?]; eauto; discriminate.
Qed.

(** script.js: from an idle scheduler, a burst of scroll events followed
    by one frame leaves the scheduler idle again, and the header and the
    back-to-top button show the state of the last offset of the burst. *)
Theorem script_burst_then_frame_uses_last_offset (w : World) (ys : list Z)
    (y : Z) :
  idle w ->
  let w' := Script.frame (Script.run (map EScroll (ys ++ [y])) w) in
  idle w'
  /\ scrollY (dom w') = y
  /\ header_scrolled (dom w') = (50 <? y)
  /\ backToTopBtn (dom w') = (fun _ => 300 <? y) <$> backToTopBtn (dom w).
Proof.
  intros Hi. cbn zeta.
  destruct (Script_scrolls_effect (ys ++ [y]) w (or_introl Hi)) as (_ & _ & P).
  assert (Hne : ys ++ [y] <> []) by (destruct ys; discriminate).
  destruct (P Hne) as [Htk Hq].
  pose proof (Script_burst_offset ys y w) as Hy.
  pose proof (Script_burst_button (ys ++ [y]) w) as Hb.
  set (w1 := Script.run (map EScroll (ys ++ [y])) w) in *.
  unfold Script.frame. rewrite Hq.
  set (w2 := set_trace (trace (set_raf [] w1) ++ [RUpdateHeader]) (set_raf [] w1)).
  change (fold_left Script.run_callback [CbUpdateHeader] (set_raf [] w1))
    with (Script.updateHeader w2).
  destruct (Script_updateHeader_rest w2) as (Ey & _ & Es & _ & _ & Et & Er).
  rewrite Script_updateHeader_backToTop.
  change (dom w2) with (dom w1) in *. change (raf w2) with (@nil Callback) in Er.
  rewrite Ey, Es, Hy. split; [split; [exact Et | exact Er]|].
  split; [reflexivity|]. split; [reflexivity|].
  destruct (backToTopBtn (dom w1)) eqn:E1, (backToTopBtn (dom w)) eqn:E2;
    try reflexivity.
  - destruct (proj1 Hb (mk_is_Some _ _ eq_refl)) as [? ?]. discriminate.
  - destruct (proj2 Hb (mk_is_Some _ _ eq_refl)) as [? ?]. discriminate.
Qed.

Lemma script_burst_then_frame_witness :
  let w' := Script.frame (Script.run (map EScroll [10; 900; 301])
                            (Script.init sample_dom)) in
  idle w' /\ scrollY (dom w') = 301
  /\ header_scrolled (dom w') = true
  /\ backToTopBtn (dom w') = Some true.
Proof.
  apply (script_burst_then_frame_uses_last_offset (Script.init sample_dom)
           [10; 900] 301).
  split; reflexivity.
Defined.

Lemma Optimized_burst_world (ys : list Z) (y : Z) (w : World) :
  idle_nav w ->
  Optimized.run (map EScroll (ys ++ [y])) w = after_burst w y.
Proof.
  intros (Htk & Htn & Hq). revert y.
  induction ys as [|y' ys IH] using rev_ind; intros y.
  - destruct w as [[y0 sc hd hh nm mb bt secs links] ls tk hH tn q tr].
    simpl in *. subst. unfold after_burst, Optimized.dispatch_scroll. simpl.
    change (Optimized.nav_registered (set_scrollY y (mkDom y0 sc hd hh nm mb bt secs links)))
      with (Optimized.nav_registered (mkDom y0 sc hd hh nm mb bt secs links)).
    destruct (Optimized.nav_registered _); reflexivity.
  - unfold Optimized.run in *. rewrite map_app, fold_left_app, IH.
    destruct w as [[y0 sc hd hh nm mb bt secs links] ls tk hH tn q tr].
    simpl in *. subst. unfold after_burst, Optimized.dispatch_scroll. simpl.
    change (Optimized.nav_registered
              (set_scrollY y (set_scrollY y' (mkDom y0 sc hd hh nm mb bt secs links))))
      with (Optimized.nav_registered (mkDom y0 sc hd hh nm mb bt secs links)).
    destruct (Optimized.nav_registered _); reflexivity.
Qed.

(** The optimised file: from an idle scheduler, a burst of scroll events
    followed by one frame leaves the scheduler idle again; header,
    back-to-top button and active link are those of the last offset of the
    burst, the offsets in between leaving no trace. *)
Theorem optimized_burst_then_frame_uses_last_offset (w : World)
    (ys : list Z) (y : Z) :
  idle_nav w ->
  let w' := Optimized.frame (Optimized.run (map EScroll (ys ++ [y])) w) in
  idle_nav w'
  /\ scrollY (dom w') = y
  /\ header_scrolled (dom w') = (50 <? y)
  /\ backToTopBtn (dom w') = (fun _ => 300 <? y) <$> backToTopBtn (dom w)
  /\ navLinks (dom w')
     = if Optimized.nav_registered (dom w)
       then mark_links y (sections (dom w)) (navLinks (dom w))
       else navLinks (dom w).
Proof.
  intros Hi. cbn zeta. rewrite (Optimized_burst_world ys y w Hi).
  destruct Hi as (Htk & Htn & Hq).
  destruct w as [[y0 sc hd hh nm mb bt secs links] ls tk hH tn q tr].
  simpl in *. subst. unfold after_burst, Optimized.frame.
  cbn [dom raf set_raf].
  destruct (Optimized.nav_registered _) eqn:R;
    cbn [fold_left Optimized.run_callback]; unfold invoke;
    rewrite <- updateHeader_agree;
    unfold Script.updateHeader, Optimized.setActive, pageYOffset; simpl;
    destruct nm as [[|]|], bt as [b|]; simpl;
    repeat (destruct (_ && _); simpl); repeat split.
Qed.

Lemma optimized_burst_then_frame_witness :
  let w' := Optimized.frame (Optimized.run (map EScroll [10; 900; 50])
                               (Optimized.init sample_dom)) in
  idle_nav w' /\ scrollY (dom w') = 50
  /\ header_scrolled (dom w') = false
  /\ backToTopBtn (dom w') = Some false
  /\ navLinks (dom w')
     = [mkNavLink (Some "#plans") false; mkNavLink (Some "#faq") true].
Proof.
  apply (optimized_burst_then_frame_uses_last_offset
           (Optimized.init sample_dom) [10; 900] 50).
  repeat split.
Defined.

Lemma optimized_scroll_updates_coalesced_witness :
  let w' := Optimized.frame (Optimized.run (map EScroll [10; 20; 30])
                               (set_trace [] (Optimized.init sample_dom))) in
  idle_nav (Optimized.init sample_dom)
  /\ (invocations RUpdateHeader (trace w') <= 1)%nat
  /\ (invocations RSetActiveLink (trace w') <= 1)%nat
  /\ invocations RToggleBackToTop (trace w') = 0%nat.
Proof.
  split; [repeat split|].
  apply (optimized_scroll_updates_coalesced (Optimized.init sample_dom)
           [10; 20; 30]).
  repeat split.
Defined.

(** ** The active link update repeated *)

Lemma toggle_links_hrefs (id : string) (links : list NavLink) :
  href <$> toggle_links id links = href <$> links.
Proof.
  unfold toggle_links. rewrite <- list_fmap_compose. reflexivity.
Qed.

(** Updating the active link never changes the href, the number or the
    order of the links, and a second update at the same offset changes
    nothing more.  Both files. *)
Theorem active_link_update_idempotent (w : World) :
  (href <$> navLinks (dom (Script.setActiveLink w))
   = href <$> navLinks (dom w)
   /\ Script.setActiveLink (Script.setActiveLink w) = Script.setActiveLink w)
  /\ (href <$> navLinks (dom (Optimized.setActive w))
      = href <$> navLinks (dom w)
      /\ Optimized.setActive (Optimized.setActive w) = Optimized.setActive w).
Proof.
  assert (H : forall v secs links,
             href <$> mark_links v secs links = href <$> links
             /\ mark_links v secs (mark_links v secs links)
                = mark_links v secs links).
  { intros v secs links. rewrite !mark_links_last.
    destruct (last _) as [s|]; [|split; reflexivity].
    split; [apply toggle_links_hrefs | apply toggle_links_toggle_links]. }
  destruct w as [[y sc hd hh nm mb bt secs links] ls tk hH tn q tr].
  destruct (H y secs links) as [H1 H2].
  unfold Script.setActiveLink, Optimized.setActive. simpl.
  rewrite H1, H2. repeat split.
Qed.

(** * Hero slider: properties *)

Lemma showImage_agree (index : nat) (imgs : list Slider.Slide) :
  Slider.Optimized_showImage index imgs = Slider.Script_showImage index imgs.
Proof.
  unfold Slider.Optimized_showImage, Slider.Script_showImage.
  apply imap_ext. intros i img _. simpl. destruct (Nat.eqb i index); reflexivity.
Qed.

Lemma showImage_lookup (index i : nat) (imgs : list Slider.Slide) :
  Slider.Script_showImage index imgs !! i
  = (fun _ => Slider.mkSlide (Nat.eqb i index) (Nat.eqb i index)) <$> imgs !! i.
Proof.
  unfold Slider.Script_showImage. rewrite list_lookup_imap.
  destruct (imgs !! i); simpl; [|reflexivity].
  destruct (Nat.eqb i index); reflexivity.
Qed.

Lemma showImage_showImage (index index' : nat) (imgs : list Slider.Slide) :
  Slider.Script_showImage index (Slider.Script_showImage index' imgs)
  = Slider.Script_showImage index imgs.
Proof.
  apply list_eq. intros i. rewrite !showImage_lookup.
  destruct (imgs !! i); reflexivity.
Qed.

Lemma slider_state_after (imgs : list Slider.Slide) (k : nat) :
  Nat.iter k (Slider.nextSlide Slider.Script_showImage)
    (Slider.mkState 0 (Slider.Script_showImage 0 imgs))
  = Slider.mkState (k mod length imgs)
      (Slider.Script_showImage (k mod length imgs) imgs).
Proof.
  induction k as [|k IH].
  - simpl. rewrite Nat.Div0.mod_0_l. reflexivity.
  - cbn [Nat.iter nat_rect]. change (nat_rect _ _ _ k) with
      (Nat.iter k (Slider.nextSlide Slider.Script_showImage)
         (Slider.mkState 0 (Slider.Script_showImage 0 imgs))).
    rewrite IH. unfold Slider.nextSlide. cbn [Slider.currentIndex Slider.images].
    unfold Slider.Script_showImage at 1 3. rewrite !length_imap.
    fold (Slider.Script_showImage (k mod length imgs) imgs).
    rewrite Nat.Div0.add_mod_idemp_l, Nat.add_1_r.
    f_equal. apply showImage_showImage.
Qed.

Lemma slider_spec (show : nat -> list Slider.Slide -> list Slider.Slide)
    (imgs : list Slider.Slide) (k : nat) :
  (forall i l, show i l = Slider.Script_showImage i l) ->
  (2 <= length imgs)%nat ->
  exists st0,
    Slider.init show imgs = Some st0
    /\ let st := Nat.iter k (Slider.nextSlide show) st0 in
       Slider.currentIndex st = (k mod length imgs)%nat
       /\ length (Slider.images st) = length imgs
       /\ (forall i img, Slider.images st !! i = Some img ->
             Slider.slide_active img = Nat.eqb i (k mod length imgs)
             /\ Slider.slide_fadeIn img = Nat.eqb i (k mod length imgs))
       /\ Nat.iter (k + length imgs) (Slider.nextSlide show) st0 = st.
Proof.
  intros Hshow Hn.
  assert (Hiter : forall j st,
             Nat.iter j (Slider.nextSlide show) st
             = Nat.iter j (Slider.nextSlide Slider.Script_showImage) st).
  { induction j as [|j IH]; intros st; [reflexivity|].
    cbn [Nat.iter nat_rect]. fold (Nat.iter j (Slider.nextSlide show) st).
    fold (Nat.iter j (Slider.nextSlide Slider.Script_showImage) st).
    rewrite IH. unfold Slider.nextSlide. rewrite Hshow. reflexivity. }
  exists (Slider.mkState 0 (Slider.Script_showImage 0 imgs)). split.
  - unfold Slider.init. rewrite Hshow.
    destruct (Nat.ltb_spec (length imgs) 2); [lia | reflexivity].
  - cbn zeta. rewrite !Hiter, !slider_state_after.
    cbn [Slider.currentIndex Slider.images].
    split; [reflexivity|]. split.
    { unfold Slider.Script_showImage. apply length_imap. }
    split.
    + intros i img Hi. rewrite showImage_lookup in Hi.
      destruct (imgs !! i); [|discriminate]. injection Hi as <-. split; reflexivity.
    + replace ((k + length imgs) mod length imgs)%nat with (k mod length imgs)%nat;
        [reflexivity|].
      rewrite <- (Nat.Div0.add_mod_idemp_r k (length imgs)).
      rewrite Nat.Div0.mod_same, Nat.add_0_r. reflexivity.
Qed.

(** With at least two slides the slide show starts, in both files; after
    [k] advances the index is [k mod n], exactly the slide at that index
    carries the classes active and fadeIn, and [n] further advances bring
    the same state back. *)
Theorem slider_one_active_slide_cyclic (imgs : list Slider.Slide) (k : nat) :
  (2 <= length imgs)%nat ->
  (exists st0,
      Slider.init Slider.Script_showImage imgs = Some st0
      /\ let st := Nat.iter k (Slider.nextSlide Slider.Script_showImage) st0 in
         Slider.currentIndex st = (k mod length imgs)%nat
         /\ length (Slider.images st) = length imgs
         /\ (forall i img, Slider.images st !! i = Some img ->
               Slider.slide_active img = Nat.eqb i (k mod length imgs)
               /\ Slider.slide_fadeIn img = Nat.eqb i (k mod length imgs))
         /\ Nat.iter (k + length imgs)
              (Slider.nextSlide Slider.Script_showImage) st0 = st)
  /\ (exists st0,
      Slider.init Slider.Optimized_showImage imgs = Some st0
      /\ let st := Nat.iter k (Slider.nextSlide Slider.Optimized_showImage) st0 in
         Slider.currentIndex st = (k mod length imgs)%nat
         /\ length (Slider.images st) = length imgs
         /\ (forall i img, Slider.images st !! i = Some img ->
               Slider.slide_active img = Nat.eqb i (k mod length imgs)
               /\ Slider.slide_fadeIn img = Nat.eqb i (k mod length imgs))
         /\ Nat.iter (k + length imgs)
              (Slider.nextSlide Slider.Optimized_showImage) st0 = st).
Proof.
  intros Hn. split.
  - apply slider_spec; [reflexivity | exact Hn].
  - apply slider_spec; [apply showImage_agree | exact Hn].
Qed.

Lemma slider_one_active_slide_witness :
  let imgs := [Slider.mkSlide true false; Slider.mkSlide true true;
               Slider.mkSlide false false] in
  (2 <= length imgs)%nat
  /\ exists st0,
      Slider.init Slider.Script_showImage imgs = Some st0
      /\ let st := Nat.iter 4 (Slider.nextSlide Slider.Script_showImage) st0 in
         Slider.currentIndex st = 1%nat
         /\ length (Slider.images st) = 3%nat
         /\ (forall i img, Slider.images st !! i = Some img ->
               Slider.slide_active img = Nat.eqb i 1
               /\ Slider.slide_fadeIn img = Nat.eqb i 1)
         /\ Nat.iter 7 (Slider.nextSlide Slider.Script_showImage) st0 = st.
Proof.
  split; [simpl; lia|].
  apply (proj1 (slider_one_active_slide_cyclic
                  [Slider.mkSlide true false; Slider.mkSlide true true;
                   Slider.mkSlide false false] 4 ltac:(simpl; lia))).
Defined.

(** * Countdown: further properties *)

Lemma optimized_countdown_resets_witness :
  let d := Countdown.sample_dom "soon" in
  Countdown.cta_timer d = Some (Some "soon")
  /\ Countdown.Optimized_updateCountdown Countdown.parse_iso
       Countdown.format_iso 1793923200123 d
     = Countdown.set_countdown_date
         (Countdown.format_iso (1793923200123 + Countdown.fourDaysMs)) d.
Proof.
  split; [reflexivity|].
  apply (Optimized_countdown_resets Countdown.parse_iso Countdown.format_iso
           1793923200123 "soon" (Countdown.sample_dom "soon"));
    [reflexivity | discriminate | left; reflexivity].
Defined.

Lemma script_countdown_elapsed_witness :
  let d := Countdown.sample_dom "2026-11-06T00:00:00.122Z" in
  Countdown.parse_iso "2026-11-06T00:00:00.122Z" = Some 1793923200122
  /\ Countdown.Script_updateCountdown Countdown.parse_iso
       Countdown.format_iso 1793923200123 d
     = Ok (Countdown.set_countdown_date
             (Countdown.format_iso (1793923200123 + Countdown.fourDaysMs)) d).
Proof.
  split; [vm_compute; reflexivity|].
  apply (Script_countdown_elapsed_resets Countdown.parse_iso
           Countdown.format_iso 1793923200123 1793923200122
           "2026-11-06T00:00:00.122Z"
           (Countdown.sample_dom "2026-11-06T00:00:00.122Z"));
    [reflexivity | discriminate | vm_compute; reflexivity | lia].
Defined.

(** ** Rendered units are numbers *)

Lemma pretty_N_char_digit (x : N) : Countdown.is_digit (pretty_N_char x) = true.
Proof.
  unfold pretty_N_char.
  destruct x as [|[[[[|[]|]|[[]|[]|]|]|[[|[]|]|[[]|[]|]|]|]|[[[|[]|]|[[]|[]|]|]|[[|[]|]|[[]|[]|]|]|]|]];
    reflexivity.
Qed.

Lemma pretty_N_go_digits (x : N) (s : string) :
  Countdown.all_digits s = true ->
  Countdown.all_digits (pretty_N_go x s) = true.
Proof.
  revert s. induction (N.lt_wf_0 x) as [x _ IH]. intros s Hs.
  destruct (decide (x = 0)%N) as [->|Hx]; [exact Hs|].
  rewrite pretty_N_go_step by lia. apply IH.
  - apply N.div_lt; lia.
  - simpl. rewrite pretty_N_char_digit. exact Hs.
Qed.

Lemma pretty_Z_digits (z : Z) :
  0 <= z -> Countdown.all_digits (pretty z) = true.
Proof.
  intros Hz. destruct z as [|p|p]; [reflexivity | | lia].
  unfold pretty, pretty_Z, pretty, pretty_positive, pretty, pretty_N.
  destruct (decide (N.pos p = 0%N)); [reflexivity|].
  apply pretty_N_go_digits. reflexivity.
Qed.

Lemma padStart2_numeric (s : string) :
  Countdown.all_digits s = true ->
  Countdown.numeric_unit (Countdown.padStart2 s) = true
  /\ (2 <= String.length (Countdown.padStart2 s))%nat.
Proof.
  intros Hs. unfold Countdown.padStart2, Countdown.numeric_unit.
  destruct s as [|a [|b s]]; simpl in *.
  - split; [reflexivity | lia].
  - rewrite Hs. split; [reflexivity | lia].
  - rewrite Hs. split; [reflexivity | lia].
Qed.

(** For a target that has not elapsed, on a page with all the countdown
    elements, both files render the same thing: the attribute is kept, each
    of the four units is a string of at least two decimal digits, and the
    pulse class is added exactly when less than one day is left. *)
Theorem countdown_renders_numeric_units
    (getTime : string -> Countdown.num) (iso : Z -> string) (now t : Z)
    (s a b c e : string) (p : bool) (d : Countdown.Dom) :
  Countdown.cta_timer d = Some (Some s) -> s <> "" ->
  getTime s = Some t -> now <= t ->
  Countdown.el_days d = Some a -> Countdown.el_hours d = Some b ->
  Countdown.el_minutes d = Some c -> Countdown.el_seconds d = Some e ->
  Countdown.countdown_pulse d = Some p ->
  exists d' ud uh um us,
    Countdown.Script_updateCountdown getTime iso now d = Ok d'
    /\ Countdown.Optimized_updateCountdown getTime iso now d = d'
    /\ Countdown.cta_timer d' = Some (Some s)
    /\ Countdown.el_days d' = Some ud /\ Countdown.el_hours d' = Some uh
    /\ Countdown.el_minutes d' = Some um /\ Countdown.el_seconds d' = Some us
    /\ Forall (fun u => Countdown.numeric_unit u = true
                        /\ (2 <= String.length u)%nat) [ud; uh; um; us]
    /\ Countdown.countdown_pulse d'
       = Some (if t - now <? 86400000 then true else p).
Proof.
  intros Hc Hs Ht Hle Ha Hb Hcc He Hp.
  destruct (countdown_units_in_range getTime iso (t - now) ltac:(lia))
    as (days & hours & minutes & seconds & Ed & Eh & Em & Es & Rd & Rh & Rm & Rs).
  exists (Countdown.mkDom (Some (Some s))
            (Some (Countdown.padStart2 (pretty days)))
            (Some (Countdown.padStart2 (pretty hours)))
            (Some (Countdown.padStart2 (pretty minutes)))
            (Some (Countdown.padStart2 (pretty seconds)))
            (Some (if t - now <? 86400000 then true else p))),
    (Countdown.padStart2 (pretty days)), (Countdown.padStart2 (pretty hours)),
    (Countdown.padStart2 (pretty minutes)), (Countdown.padStart2 (pretty seconds)).
  assert (Hd1 : Countdown.num_lt (Some days) (Some 1) = (t - now <? 86400000)).
  { simpl. unfold Countdown.floor_div in Ed. simpl in Ed. injection Ed as <-.
    change (1000 * 60 * 60 * 24) with 86400000.
    destruct (Z.ltb_spec ((t - now) / 86400000) 1),
      (Z.ltb_spec (t - now) 86400000); try reflexivity; exfalso;
      Z.to_euclidean_division_equations; lia. }
  split; [|split].
  - unfold Countdown.Script_updateCountdown.
    rewrite Hc, (truthy_nonempty s Hs). cbn [negb default from_option id].
    rewrite Ht. cbn [Countdown.num_sub Countdown.num_lt].
    rewrite (proj2 (Z.ltb_ge (t - now) 0)) by lia.
    rewrite Ed, Eh, Em, Es, Hd1. unfold Countdown.assign, Countdown.toString.
    rewrite Ha. cbn [bind Countdown.set_days Countdown.set_hours Countdown.set_minutes
           Countdown.set_seconds Countdown.el_days Countdown.el_hours
           Countdown.el_minutes Countdown.el_seconds Countdown.countdown_pulse
           Countdown.cta_timer].
    rewrite Hb. cbn [bind Countdown.set_days Countdown.set_hours Countdown.set_minutes
           Countdown.set_seconds Countdown.el_days Countdown.el_hours
           Countdown.el_minutes Countdown.el_seconds Countdown.countdown_pulse
           Countdown.cta_timer].
    rewrite Hcc. cbn [bind Countdown.set_days Countdown.set_hours Countdown.set_minutes
           Countdown.set_seconds Countdown.el_days Countdown.el_hours
           Countdown.el_minutes Countdown.el_seconds Countdown.countdown_pulse
           Countdown.cta_timer].
    rewrite He. cbn [bind Countdown.set_days Countdown.set_hours Countdown.set_minutes
           Countdown.set_seconds Countdown.el_days Countdown.el_hours
           Countdown.el_minutes Countdown.el_seconds Countdown.countdown_pulse
           Countdown.cta_timer].
    rewrite Hp.
    destruct (t - now <? 86400000);
      unfold Countdown.set_pulse, Countdown.set_seconds, Countdown.set_minutes,
        Countdown.set_hours, Countdown.set_days;
      cbn [bind Countdown.set_days Countdown.set_hours Countdown.set_minutes
           Countdown.set_seconds Countdown.el_days Countdown.el_hours
           Countdown.el_minutes Countdown.el_seconds Countdown.countdown_pulse
           Countdown.cta_timer];
      rewrite ?Hc, ?Hp; reflexivity.
  - unfold Countdown.Optimized_updateCountdown.
    rewrite Hc, (truthy_nonempty s Hs). cbn [negb default from_option id].
    rewrite Ht. cbn [Countdown.isNaN Countdown.num_sub Countdown.num_lt orb].
    rewrite (proj2 (Z.ltb_ge t now)) by lia.
    rewrite Ed, Eh, Em, Es, Hd1. unfold Countdown.assign_if, Countdown.toString.
    rewrite Ha. cbn [bind Countdown.set_days Countdown.set_hours Countdown.set_minutes
           Countdown.set_seconds Countdown.el_days Countdown.el_hours
           Countdown.el_minutes Countdown.el_seconds Countdown.countdown_pulse
           Countdown.cta_timer].
    rewrite Hb. cbn [bind Countdown.set_days Countdown.set_hours Countdown.set_minutes
           Countdown.set_seconds Countdown.el_days Countdown.el_hours
           Countdown.el_minutes Countdown.el_seconds Countdown.countdown_pulse
           Countdown.cta_timer].
    rewrite Hcc. cbn [bind Countdown.set_days Countdown.set_hours Countdown.set_minutes
           Countdown.set_seconds Countdown.el_days Countdown.el_hours
           Countdown.el_minutes Countdown.el_seconds Countdown.countdown_pulse
           Countdown.cta_timer].
    rewrite He. cbn [bind Countdown.set_days Countdown.set_hours Countdown.set_minutes
           Countdown.set_seconds Countdown.el_days Countdown.el_hours
           Countdown.el_minutes Countdown.el_seconds Countdown.countdown_pulse
           Countdown.cta_timer].
    rewrite Hp.
    destruct (t - now <? 86400000);
      unfold Countdown.set_pulse, Countdown.set_seconds, Countdown.set_minutes,
        Countdown.set_hours, Countdown.set_days;
      cbn [bind Countdown.set_days Countdown.set_hours Countdown.set_minutes
           Countdown.set_seconds Countdown.el_days Countdown.el_hours
           Countdown.el_minutes Countdown.el_seconds Countdown.countdown_pulse
           Countdown.cta_timer];
      rewrite ?Hc, ?Hp; reflexivity.
  - cbn [Countdown.cta_timer Countdown.el_days Countdown.el_hours
           Countdown.el_minutes Countdown.el_seconds Countdown.countdown_pulse].
    repeat split; try reflexivity.
    repeat (apply Forall_cons; split;
            [apply padStart2_numeric, pretty_Z_digits; lia|]).
    apply Forall_nil_2.
Qed.

Lemma countdown_renders_numeric_units_witness :
  let d := Countdown.sample_dom "2026-11-06T00:00:10.123Z" in
  exists d' ud uh um us,
    Countdown.Script_updateCountdown Countdown.parse_iso Countdown.format_iso
      1793923200123 d = Ok d'
    /\ Countdown.Optimized_updateCountdown Countdown.parse_iso
         Countdown.format_iso 1793923200123 d = d'
    /\ Countdown.cta_timer d' = Some (Some "2026-11-06T00:00:10.123Z")
    /\ Countdown.el_days d' = Some ud /\ Countdown.el_hours d' = Some uh
    /\ Countdown.el_minutes d' = Some um /\ Countdown.el_seconds d' = Some us
    /\ Forall (fun u => Countdown.numeric_unit u = true
                        /\ (2 <= String.length u)%nat) [ud; uh; um; us]
    /\ Countdown.countdown_pulse d'
       = Some (if 1793923210123 - 1793923200123 <? 86400000 then true else false).
Proof.
  apply (countdown_renders_numeric_units Countdown.parse_iso Countdown.format_iso
           1793923200123 1793923210123 "2026-11-06T00:00:10.123Z"
           "--" "--" "--" "--" false
           (Countdown.sample_dom "2026-11-06T00:00:10.123Z"));
    solve [reflexivity | discriminate | vm_compute; reflexivity | lia].
Defined.

Example countdown_ten_seconds_left :
  Countdown.Optimized_updateCountdown Countdown.parse_iso Countdown.format_iso
    1793923200123 (Countdown.sample_dom "2026-11-06T00:00:10.123Z")
  = Countdown.mkDom (Some (Some "2026-11-06T00:00:10.123Z"))
      (Some "00") (Some "00") (Some "00") (Some "10") (Some true).
Proof. vm_compute. reflexivity. Qed.

(** ** A fresh countdown *)

(** On a page whose countdown container has no target date (attribute
    absent or empty), the load handler sets the target four days ahead,
    and the update that follows at the same instant shows 04 days, 00
    hours, 00 minutes, 00 seconds, in both files.  The date functions only
    have to read back what they wrote. *)
Theorem countdown_fresh_start_shows_four_days
    (getTime : string -> Countdown.num) (iso : Z -> string) (now : Z)
    (a b c e : string) (p : bool) (d : Countdown.Dom) :
  getTime (iso (now + Countdown.fourDaysMs)) = Some (now + Countdown.fourDaysMs) ->
  iso (now + Countdown.fourDaysMs) <> "" ->
  Countdown.cta_timer d = Some None \/ Countdown.cta_timer d = Some (Some "") ->
  Countdown.el_days d = Some a -> Countdown.el_hours d = Some b ->
  Countdown.el_minutes d = Some c -> Countdown.el_seconds d = Some e ->
  Countdown.countdown_pulse d = Some p ->
  let d0 := CountdownLoad.initCountdown iso now d in
  let shown := Countdown.mkDom (Some (Some (iso (now + Countdown.fourDaysMs))))
                 (Some "04") (Some "00") (Some "00") (Some "00") (Some p) in
  Countdown.Script_updateCountdown getTime iso now d0 = Ok shown
  /\ Countdown.Optimized_updateCountdown getTime iso now d0 = shown.
Proof.
  intros Hrt Hne Hattr Ha Hb Hc He Hp. cbn zeta.
  set (target := iso (now + Countdown.fourDaysMs)) in *.
  assert (E0 : CountdownLoad.initCountdown iso now d
               = Countdown.mkDom (Some (Some target)) (Some a) (Some b)
                   (Some c) (Some e) (Some p)).
  { unfold CountdownLoad.initCountdown, Countdown.set_countdown_date.
    destruct Hattr as [Hn | Hn]; rewrite Hn; simpl;
      rewrite Ha, Hb, Hc, He, Hp; reflexivity. }
  rewrite E0.
  unfold Countdown.Script_updateCountdown, Countdown.Optimized_updateCountdown.
  cbn [Countdown.cta_timer]. rewrite (truthy_nonempty target Hne).
  cbn [negb default from_option id]. rewrite Hrt.
  cbn [Countdown.num_sub Countdown.num_lt Countdown.isNaN orb].
  replace (now + Countdown.fourDaysMs - now) with 345600000
    by (unfold Countdown.fourDaysMs; lia).
  rewrite (proj2 (Z.ltb_ge (now + Countdown.fourDaysMs) now))
    by (unfold Countdown.fourDaysMs; lia).
  split; reflexivity.
Qed.

Lemma countdown_fresh_start_witness :
  let d := Countdown.mkDom (Some None) (Some "--") (Some "--") (Some "--")
             (Some "--") (Some false) in
  let d0 := CountdownLoad.initCountdown Countdown.format_iso 1793923200123 d in
  let shown := Countdown.mkDom (Some (Some "2026-11-10T00:00:00.123Z"))
                 (Some "04") (Some "00") (Some "00") (Some "00") (Some false) in
  Countdown.Script_updateCountdown Countdown.parse_iso Countdown.format_iso
    1793923200123 d0 = Ok shown
  /\ Countdown.Optimized_updateCountdown Countdown.parse_iso
       Countdown.format_iso 1793923200123 d0 = shown.
Proof.
  apply (countdown_fresh_start_shows_four_days Countdown.parse_iso
           Countdown.format_iso 1793923200123 "--" "--" "--" "--" false
           (Countdown.mkDom (Some None) (Some "--") (Some "--") (Some "--")
              (Some "--") (Some false)));
    solve [vm_compute; reflexivity | vm_compute; discriminate
          | left; reflexivity | reflexivity].
Defined.

(** * Visibility observers: further properties *)

Section AosFacts.
Import Observer.

Lemma aos_callback_effect (l : list Entry) (st : State) (t : nat) :
  let st' := callback AosOptimized l st in
  let hit := exists en, en ∈ l /\ target en = t /\ isIntersecting en = true in
  (t ∈ fired st' <-> t ∈ fired st \/ hit)
  /\ (t ∈ observed st' <-> t ∈ observed st /\ ~ hit)
  /\ (t ∈ aos_animate st' <-> t ∈ aos_animate st \/ hit).
Proof.
  revert st. induction l as [|[t0 b] l IH]; intros st; cbn zeta.
  - change (callback AosOptimized [] st) with st.
    assert (Hn : ~ exists en : Entry, en ∈ [] /\ target en = t
                                      /\ isIntersecting en = true)
      by (intros (en & Hen & _); inversion Hen).
    tauto.
  - change (callback AosOptimized (mkEntry t0 b :: l) st)
      with (callback AosOptimized l (aos_entry st (mkEntry t0 b))).
    destruct (IH (aos_entry st (mkEntry t0 b))) as (F & O & A).
    rewrite F, O, A. clear F O A IH.
    assert (Hhit : (exists en, en ∈ mkEntry t0 b :: l /\ target en = t
                               /\ isIntersecting en = true)
                   <-> (t0 = t /\ b = true)
                       \/ exists en, en ∈ l /\ target en = t
                                     /\ isIntersecting en = true).
    { split.
      - intros (en & Hen & E1 & E2). apply elem_of_cons in Hen as [-> | Hen];
          [left; auto | right; eauto].
      - intros [[-> ->] | (en & Hen & E)].
        + exists (mkEntry t true). split; [apply list_elem_of_here | auto].
        + exists en. split; [apply list_elem_of_further, Hen | exact E]. }
    rewrite Hhit. unfold aos_entry. destruct b; simpl.
    + rewrite elem_of_app, list_elem_of_singleton.
      rewrite elem_of_difference, elem_of_union, !elem_of_singleton.
      destruct (decide (t0 = t)) as [->|N]; intuition congruence.
    + intuition congruence.
Qed.

Lemma aos_step_effect (st : State) (ev : Event) (t : nat) :
  let st' := step AosOptimized st ev in
  let hit := exists vis, ev = Cycle vis /\ vis t = true in
  (t ∈ fired st' <-> t ∈ fired st \/ (t ∈ observed st /\ hit))
  /\ (t ∈ observed st' <-> t ∈ observed st /\ ~ hit)
  /\ (t ∈ aos_animate st' <-> t ∈ aos_animate st \/ (t ∈ observed st /\ hit)).
Proof.
  destruct ev as [vis | t0 | t0]; cbn zeta.
  - assert (Hhit : (exists en, en ∈ entries_of vis st /\ target en = t
                               /\ isIntersecting en = true)
                   <-> t ∈ observed st /\ vis t = true).
    { split.
      - intros (en & Hen & <- & Hi).
        apply entries_of_target in Hen as [Ho Hv]. rewrite <- Hv. auto.
      - intros [Ho Hv]. exists (mkEntry t (vis t)). split; [|auto].
        unfold entries_of. apply list_elem_of_fmap. exists t.
        split; [reflexivity | apply elem_of_elements, Ho]. }
    destruct (aos_callback_effect (entries_of vis st) st t) as (F & O & A).
    cbn zeta in *. rewrite Hhit in F, O, A.
    change (step AosOptimized st (Cycle vis))
      with (callback AosOptimized (entries_of vis st) st).
    rewrite F, O, A.
    assert (Hc : (exists vis0, Cycle vis = Cycle vis0 /\ vis0 t = true)
                 <-> vis t = true).
    { split; [intros (v & [= <-] & H); exact H | intros H; eauto]. }
    rewrite Hc. tauto.
  - assert (E : observed (img_onload t0 st) = observed st
                /\ fired (img_onload t0 st) = fired st
                /\ aos_animate (img_onload t0 st) = aos_animate st).
    { unfold img_onload. destruct (imgs st !! t0) as [[s ds dl [|]]|]; repeat split. }
    change (step AosOptimized st (ImgLoad t0)) with (img_onload t0 st).
    destruct E as (-> & -> & ->).
    assert (Hn : ~ exists vis, ImgLoad t0 = Cycle vis /\ vis t = true)
      by (intros (? & ? & ?); discriminate).
    tauto.
  - assert (E : observed (img_onerror t0 st) = observed st
                /\ fired (img_onerror t0 st) = fired st
                /\ aos_animate (img_onerror t0 st) = aos_animate st).
    { unfold img_onerror. destruct (imgs st !! t0) as [[s ds dl [|]]|]; repeat split. }
    change (step AosOptimized st (ImgError t0)) with (img_onerror t0 st).
    destruct E as (-> & -> & ->).
    assert (Hn : ~ exists vis, ImgError t0 = Cycle vis /\ vis t = true)
      by (intros (? & ? & ?); discriminate).
    tauto.
Qed.

Lemma aos_run_effect (evs : list Event) (st : State) (t : nat) :
  let st' := run AosOptimized evs st in
  let hit := exists vis, Cycle vis ∈ evs /\ vis t = true in
  (t ∈ fired st' <-> t ∈ fired st \/ (t ∈ observed st /\ hit))
  /\ (t ∈ aos_animate st' <-> t ∈ aos_animate st \/ (t ∈ observed st /\ hit)).
Proof.
  revert st. induction evs as [|ev evs IH]; intros st; cbn zeta.
  - change (run AosOptimized [] st) with st.
    assert (Hn : ~ exists vis, Cycle vis ∈ [] /\ vis t = true)
      by (intros (v & Hv & _); inversion Hv).
    tauto.
  - change (run AosOptimized (ev :: evs) st)
      with (run AosOptimized evs (step AosOptimized st ev)).
    destruct (IH (step AosOptimized st ev)) as (F & A).
    destruct (aos_step_effect st ev t) as (F1 & O1 & A1). cbn zeta in *.
    rewrite F, A, F1, O1, A1. clear F A F1 O1 A1 IH.
    assert (Hdec : (exists vis, ev = Cycle vis /\ vis t = true)
                   \/ ~ (exists vis, ev = Cycle vis /\ vis t = true)).
    { destruct ev as [v | |]; try (right; intros (? & ? & ?); discriminate).
      destruct (v t) eqn:E; [left; eauto|].
      right. intros (v' & [= <-] & H). congruence. }
    assert (Hhit : (exists vis, Cycle vis ∈ ev :: evs /\ vis t = true)
                   <-> (exists vis, ev = Cycle vis /\ vis t = true)
                       \/ exists vis, Cycle vis ∈ evs /\ vis t = true).
    { split.
      - intros (v & Hin & Hv). apply elem_of_cons in Hin as [<- | Hin];
          [left; eauto | right; eauto].
      - intros [(v & -> & Hv) | (v & Hin & Hv)]; exists v;
          (split; [|exact Hv]);
          [apply list_elem_of_here | apply list_elem_of_further, Hin]. }
    rewrite Hhit. tauto.
Qed.

Lemma aos_init_not_animated (images : gmap nat Img) (ts : list nat) :
  aos_animate (init AosOptimized images ts) = ∅.
Proof.
  unfold init.
  enough (G : forall st, aos_animate (fold_left (register_one AosOptimized) ts st)
                         = aos_animate st) by (rewrite G; reflexivity).
  induction ts as [|a l IH]; intros st; [reflexivity|].
  simpl. rewrite IH. reflexivity.
Qed.

(** The fallback observer for [[data-aos]] elements reveals exactly what
    was seen: after any run, an element has fired if and only if it was
    registered and was intersecting in some check cycle, and the elements
    with class aos-animate are exactly the ones that fired. *)
Theorem aos_element_revealed_iff_seen (images : gmap nat Img) (ts : list nat)
    (evs : list Event) (t : nat) :
  let st := run AosOptimized evs (init AosOptimized images ts) in
  (t ∈ fired st <-> (t ∈ ts /\ exists vis, Cycle vis ∈ evs /\ vis t = true))
  /\ (t ∈ aos_animate st <-> t ∈ fired st).
Proof.
  cbn zeta.
  destruct (aos_run_effect evs (init AosOptimized images ts) t) as (F & A).
  cbn zeta in *. rewrite A, F.
  destruct (init_effect AosOptimized images ts) as [Eo Ef].
  rewrite Eo, Ef, aos_init_not_animated.
  rewrite elem_of_list_to_set. split.
  - split; [intros [H | H]; [inversion H | exact H] | intros H; right; exact H].
  - split; intros [H | H]; try (right; exact H);
      [apply elem_of_empty in H; contradiction | inversion H].
Qed.

End AosFacts.

Section LazyFacts.
Import Observer.

Variable k : Kind.
Hypothesis k_lazy : k = LazyScript \/ k = LazyOptimized.

Variables (t : nat) (s0 : string) (dl : option string).
Hypothesis s0_nonempty : s0 <> "".
Hypothesis not_loaded : dl <> Some "true".

Lemma truthy_s0 : truthy (Some s0) = true.
Proof. apply truthy_nonempty, s0_nonempty. Qed.

Lemma register_one_image (st : State) (t' : nat) :
  (imgs st !! t = Some (lazy_registered k s0 dl false) ->
   imgs (register_one k st t') !! t = Some (lazy_registered k s0 dl false))
  /\ (imgs st !! t = Some (mkImg s0 None dl false) ->
      imgs (register_one k st t') !! t
      = Some (if decide (t' = t) then lazy_registered k s0 dl false
              else mkImg s0 None dl false)).
Proof.
  unfold lazy_registered.
  destruct k_lazy as [-> | ->]; cbn [register_one];
    (destruct (decide (t' = t)) as [-> | N]; [split; intros E; rewrite E|]).
  - simpl. exact E.
  - simpl. rewrite lookup_insert_eq. reflexivity.
  - destruct (imgs st !! t') as [im|]; [|tauto].
    destruct (negb _); simpl; rewrite ?lookup_insert_ne by exact N; tauto.
  - simpl. rewrite bool_decide_eq_false_2 by exact s0_nonempty.
    rewrite lookup_insert_eq. reflexivity.
  - simpl. rewrite bool_decide_eq_false_2 by exact s0_nonempty.
    rewrite lookup_insert_eq. reflexivity.
  - destruct (imgs st !! t') as [im|]; [|tauto].
    simpl. rewrite lookup_insert_ne by exact N. tauto.
Qed.

Lemma init_image (images : gmap nat Img) (ts : list nat) :
  images !! t = Some (mkImg s0 None dl false) -> t ∈ ts ->
  imgs (init k images ts) !! t = Some (lazy_registered k s0 dl false).
Proof.
  intros Hp Hin. unfold init.
  enough (G : forall st,
             (imgs st !! t = Some (lazy_registered k s0 dl false) ->
              imgs (fold_left (register_one k) ts st) !! t = Some (lazy_registered k s0 dl false))
             /\ (imgs st !! t = Some (mkImg s0 None dl false) -> t ∈ ts ->
                 imgs (fold_left (register_one k) ts st) !! t
                 = Some (lazy_registered k s0 dl false)))
    by (apply G; assumption).
  clear Hin Hp. induction ts as [|t' l IH]; intros st.
  - split; [tauto | intros _ H; inversion H].
  - destruct (register_one_image st t') as [R1 R2].
    destruct (IH (register_one k st t')) as [I1 I2]. simpl. split.
    + intros E. apply I1, R1, E.
    + intros E Hin. specialize (R2 E).
      destruct (decide (t' = t)) as [-> | N]; [apply I1, R2|].
      apply I2; [exact R2|]. apply elem_of_cons in Hin as [-> | Hin];
        [contradiction | exact Hin].
Qed.

Lemma lazy_entry_image (st : State) (en : Entry) :
  imgs st !! t = Some (lazy_registered k s0 dl false)
  \/ imgs st !! t = Some (mkImg s0 (Some s0) dl true) ->
  let st' := entry_handler k st en in
  (imgs st' !! t = Some (lazy_registered k s0 dl false)
   \/ imgs st' !! t = Some (mkImg s0 (Some s0) dl true))
  /\ (imgs st !! t = Some (mkImg s0 (Some s0) dl true) ->
      imgs st' !! t = Some (mkImg s0 (Some s0) dl true))
  /\ (target en = t -> isIntersecting en = true ->
      imgs st' !! t = Some (mkImg s0 (Some s0) dl true) /\ t ∉ observed st').
Proof.
  intros Hst. cbn zeta.
  assert (Hk : entry_handler k st en = lazy_entry_script st en).
  { destruct k_lazy as [-> | ->]; [reflexivity|]. simpl.
    unfold lazy_entry_optimized, lazy_entry_script.
    destruct (isIntersecting en); reflexivity. }
  rewrite Hk. clear Hk. unfold lazy_entry_script.
  destruct en as [t' [|]]; cbn [isIntersecting target];
    [|split; [exact Hst|]; split; [tauto | discriminate]].
  destruct (decide (t' = t)) as [-> | N].
  - assert (Hfire : forall im, imgs st !! t = Some im ->
                      im = (lazy_registered k s0 dl false) \/ im = (mkImg s0 (Some s0) dl true) ->
                      bool_decide (data_loaded im = Some "true") = false
                      /\ mkImg (if truthy (data_src im)
                                then default (src im) (data_src im) else src im)
                               (data_src im) (data_loaded im) true
                         = mkImg s0 (Some s0) dl true).
    { intros im _ [-> | ->]; unfold lazy_registered;
        destruct k_lazy as [-> | ->]; simpl;
        rewrite (bool_decide_eq_false_2 _ not_loaded);
        rewrite (bool_decide_eq_false_2 _ s0_nonempty); split; reflexivity. }
    destruct (imgs st !! t) as [im|] eqn:E;
      [|destruct Hst; discriminate].
    assert (Him : im = (lazy_registered k s0 dl false) \/ im = (mkImg s0 (Some s0) dl true))
      by (destruct Hst as [[= ->] | [= ->]]; auto).
    destruct (Hfire im eq_refl Him) as [-> ->]. simpl.
    rewrite lookup_insert_eq. repeat split; auto. set_solver.
  - destruct (imgs st !! t') as [im|]; [|split; [exact Hst|]; split; [tauto|congruence]].
    destruct (bool_decide _); simpl; rewrite ?lookup_insert_ne by exact N;
      (split; [exact Hst|]; split; [tauto | congruence]).
Qed.

Lemma lazy_callback_image (l : list Entry) (st : State) :
  imgs st !! t = Some (lazy_registered k s0 dl false)
  \/ imgs st !! t = Some (mkImg s0 (Some s0) dl true) ->
  let st' := callback k l st in
  (imgs st' !! t = Some (lazy_registered k s0 dl false)
   \/ imgs st' !! t = Some (mkImg s0 (Some s0) dl true))
  /\ (imgs st !! t = Some (mkImg s0 (Some s0) dl true) ->
      imgs st' !! t = Some (mkImg s0 (Some s0) dl true))
  /\ (t ∉ observed st -> t ∉ observed st')
  /\ ((exists en, en ∈ l /\ target en = t /\ isIntersecting en = true) ->
      imgs st' !! t = Some (mkImg s0 (Some s0) dl true) /\ t ∉ observed st').
Proof.
  revert st. induction l as [|en l IH]; intros st Hst; cbn zeta.
  - change (callback k [] st) with st.
    split; [exact Hst|]. split; [tauto|]. split; [tauto|].
    intros (en & Hen & _). inversion Hen.
  - change (callback k (en :: l) st) with (callback k l (entry_handler k st en)).
    destruct (lazy_entry_image st en Hst) as (H1 & H2 & H3).
    destruct (IH _ H1) as (I1 & I2 & I3 & I4).
    destruct (entry_handler_effect k st en) as [Hsub _].
    split; [exact I1|]. split; [intros E; apply I2, H2, E|].
    split; [intros Hn; apply I3; set_solver|].
    intros (en' & Hen' & Et & Ei). apply elem_of_cons in Hen' as [-> | Hen'].
    + destruct (H3 Et Ei) as [F O]. split; [apply I2, F | apply I3, O].
    + apply I4. eauto.
Qed.

Lemma entry_handler_lazy (st : State) (en : Entry) :
  entry_handler k st en = lazy_entry_script st en.
Proof.
  destruct k_lazy as [-> | ->]; [reflexivity|]. simpl.
  unfold lazy_entry_optimized, lazy_entry_script.
  destruct (isIntersecting en); reflexivity.
Qed.

(** While the image has not intersected, it stays as registered and
    stays watched. *)
Lemma lazy_entry_pending (st : State) (en : Entry) :
  lazy_pending k s0 dl t st ->
  (target en = t -> isIntersecting en = false) ->
  lazy_pending k s0 dl t (entry_handler k st en).
Proof.
  intros [Him Hobs] Hen. rewrite entry_handler_lazy. unfold lazy_entry_script.
  destruct en as [t' [|]]; cbn [isIntersecting target] in *; [|split; assumption].
  assert (N : t' <> t) by (intros E; specialize (Hen E); discriminate).
  unfold lazy_pending.
  destruct (imgs st !! t') as [im|]; [|split; assumption].
  destruct (bool_decide _); simpl; rewrite ?lookup_insert_ne by exact N;
    (split; [exact Him | set_solver]).
Qed.

Lemma lazy_callback_pending (l : list Entry) (st : State) :
  lazy_pending k s0 dl t st ->
  (forall en, en ∈ l -> target en = t -> isIntersecting en = false) ->
  lazy_pending k s0 dl t (callback k l st).
Proof.
  revert st. induction l as [|en l IH]; intros st Hst Hl; [exact Hst|].
  change (callback k (en :: l) st) with (callback k l (entry_handler k st en)).
  apply IH.
  - apply lazy_entry_pending; [exact Hst|]. apply Hl, list_elem_of_here.
  - intros en' Hen'. apply Hl, list_elem_of_further, Hen'.
Qed.

(** Once the source is back it stays, whatever the observer delivers. *)
Lemma lazy_entry_restored (st : State) (en : Entry) :
  lazy_restored s0 t st -> lazy_restored s0 t (entry_handler k st en).
Proof.
  intros [(im & Him & Hs & Hh & Hd) Hobs].
  rewrite entry_handler_lazy. unfold lazy_entry_script, lazy_restored.
  destruct en as [t' [|]]; cbn [isIntersecting target]; [|eauto 8].
  destruct (decide (t' = t)) as [-> | N].
  - rewrite Him. case_bool_decide; simpl.
    + split; [eauto 8 | set_solver].
    + rewrite lookup_insert_eq. split; [|set_solver].
      eexists. split; [reflexivity|]. simpl. split; [|auto].
      destruct Hd as [-> | ->]; simpl; [|exact Hs].
      rewrite (bool_decide_eq_false_2 _ s0_nonempty). reflexivity.
  - destruct (imgs st !! t') as [im'|]; [|eauto 8].
    case_bool_decide; simpl; rewrite ?lookup_insert_ne by exact N;
      (split; [eauto 8 | set_solver]).
Qed.

Lemma lazy_callback_restored (l : list Entry) (st : State) :
  lazy_restored s0 t st -> lazy_restored s0 t (callback k l st).
Proof.
  revert st. induction l as [|en l IH]; intros st Hst; [exact Hst|].
  apply IH, lazy_entry_restored, Hst.
Qed.

Lemma lazy_step_pending (st : State) (ev : Event) :
  lazy_pending k s0 dl t st ->
  (forall vis, ev = Cycle vis -> vis t = false) ->
  lazy_pending k s0 dl t (step k st ev).
Proof.
  intros Hst Hev. destruct ev as [vis | t' | t']; cbn [step].
  - apply lazy_callback_pending; [exact Hst|].
    intros en Hen Et. unfold entries_of in Hen.
    apply list_elem_of_fmap in Hen as (t' & -> & _). simpl in *. subst t'.
    apply Hev. reflexivity.
  - destruct Hst as [Him Hobs]. unfold img_onload, lazy_pending.
    destruct (decide (t' = t)) as [-> | N].
    + rewrite Him. unfold lazy_registered.
      destruct k_lazy as [-> | ->]; simpl; split; assumption.
    + destruct (imgs st !! t') as [im|]; [|split; assumption].
      destruct (handlers im); simpl; rewrite ?lookup_insert_ne by exact N;
        split; assumption.
  - destruct Hst as [Him Hobs]. unfold img_onerror, lazy_pending.
    destruct (decide (t' = t)) as [-> | N].
    + rewrite Him. unfold lazy_registered.
      destruct k_lazy as [-> | ->]; simpl; split; assumption.
    + destruct (imgs st !! t') as [im|]; [|split; assumption].
      destruct (handlers im); simpl; rewrite ?lookup_insert_ne by exact N;
        split; assumption.
Qed.

Lemma lazy_step_restored (st : State) (ev : Event) :
  lazy_restored s0 t st -> lazy_restored s0 t (step k st ev).
Proof.
  intros Hst. destruct ev as [vis | t' | t']; cbn [step].
  - apply lazy_callback_restored, Hst.
  - destruct Hst as [(im & Him & Hs & Hh & Hd) Hobs].
    unfold img_onload, lazy_restored.
    destruct (decide (t' = t)) as [-> | N].
    + rewrite Him, Hh. simpl. rewrite lookup_insert_eq.
      split; [|exact Hobs]. eexists. split; [reflexivity|]. simpl. auto.
    + destruct (imgs st !! t') as [im'|]; [|eauto 8].
      destruct (handlers im'); simpl; rewrite ?lookup_insert_ne by exact N;
        eauto 8.
  - destruct Hst as [(im & Him & Hs & Hh & Hd) Hobs].
    unfold img_onerror, lazy_restored.
    destruct (decide (t' = t)) as [-> | N].
    + rewrite Him, Hh. simpl. rewrite lookup_insert_eq.
      split; [|exact Hobs]. eexists. split; [reflexivity|]. simpl. auto.
    + destruct (imgs st !! t') as [im'|]; [|eauto 8].
      destruct (handlers im'); simpl; rewrite ?lookup_insert_ne by exact N;
        eauto 8.
Qed.

Lemma lazy_run_pending (evs : list Event) (st : State) :
  lazy_pending k s0 dl t st ->
  (forall vis, Cycle vis ∈ evs -> vis t = false) ->
  lazy_pending k s0 dl t (run k evs st).
Proof.
  revert st. induction evs as [|ev evs IH]; intros st Hst Hev; [exact Hst|].
  change (run k (ev :: evs) st) with (run k evs (step k st ev)).
  apply IH.
  - apply lazy_step_pending; [exact Hst|].
    intros vis ->. apply Hev, list_elem_of_here.
  - intros vis Hvis. apply Hev, list_elem_of_further, Hvis.
Qed.

Lemma lazy_run_restored (evs : list Event) (st : State) :
  lazy_restored s0 t st -> lazy_restored s0 t (run k evs st).
Proof.
  revert st. induction evs as [|ev evs IH]; intros st Hst; [exact Hst|].
  apply IH, lazy_step_restored, Hst.
Qed.

(** A lazy image that the page gives a source and no [data-src].
    Registration keeps the source in [data-src] (script.js also swaps in
    the placeholder, the optimised file leaves [src] as it is).  Through
    every sequence of check cycles in which the image does not intersect,
    and of load and error events, it stays so and stays watched.  The first
    check cycle in which it intersects puts the original source back,
    installs the load handlers and stops observing it; whatever follows,
    the source stays and the image is not observed again. *)
Theorem lazy_image_source_restored (images : gmap nat Img) (ts : list nat)
    (before after : list Event) (vis : nat -> bool) :
  images !! t = Some (mkImg s0 None dl false) -> t ∈ ts ->
  (forall vis', Cycle vis' ∈ before -> vis' t = false) ->
  vis t = true ->
  let st0 := run k before (init k images ts) in
  let st1 := check_cycle k vis st0 in
  let st2 := run k after st1 in
  (imgs st0 !! t
   = Some (match k with
           | LazyScript => mkImg PLACEHOLDER_SCRIPT (Some s0) dl false
           | _ => mkImg s0 (Some s0) dl false
           end)
   /\ t ∈ observed st0)
  /\ (imgs st1 !! t = Some (mkImg s0 (Some s0) dl true) /\ t ∉ observed st1)
  /\ ((exists im, imgs st2 !! t = Some im /\ src im = s0) /\ t ∉ observed st2).
Proof.
  intros Hp Hin Hbefore Hv. cbn zeta.
  assert (H0 : lazy_pending k s0 dl t (init k images ts)).
  { split; [apply init_image; assumption|].
    destruct (init_effect k images ts) as [-> _]. apply elem_of_list_to_set, Hin. }
  pose proof (lazy_run_pending before _ H0 Hbefore) as [Him Hobs].
  split; [split; [exact Him | exact Hobs]|].
  assert (H1 : imgs (check_cycle k vis (run k before (init k images ts))) !! t
               = Some (mkImg s0 (Some s0) dl true)
               /\ t ∉ observed (check_cycle k vis (run k before (init k images ts)))).
  { apply (lazy_callback_image (entries_of vis _) _ (or_introl Him)).
    exists (mkEntry t (vis t)). split; [|auto].
    unfold entries_of. apply list_elem_of_fmap. exists t. split; [reflexivity|].
    apply elem_of_elements, Hobs. }
  split; [exact H1|].
  assert (H2 : lazy_restored s0 t
                 (check_cycle k vis (run k before (init k images ts)))).
  { destruct H1 as [E O]. split; [|exact O].
    eexists. split; [exact E|]. simpl. auto. }
  destruct (lazy_run_restored after _ H2) as [(im & E & Hs & _) O]. eauto.
Qed.

End LazyFacts.

Lemma lazy_image_source_restored_witness :
  let images : gmap nat Observer.Img :=
    {[ 7%nat := Observer.mkImg "https://example.com/hero.webp" None None false ]} in
  let vis := fun n : nat => Nat.eqb n 7 in
  let before := [Observer.Cycle (fun _ => false); Observer.ImgLoad 7%nat] in
  let st0 := Observer.run Observer.LazyScript before
               (Observer.init Observer.LazyScript images [7%nat]) in
  let st1 := Observer.check_cycle Observer.LazyScript vis st0 in
  let st2 := Observer.run Observer.LazyScript [Observer.ImgLoad 7%nat] st1 in
  (Observer.imgs st0 !! 7%nat
   = Some (Observer.mkImg Observer.PLACEHOLDER_SCRIPT
             (Some "https://example.com/hero.webp") None false)
   /\ 7%nat ∈ Observer.observed st0)
  /\ (Observer.imgs st1 !! 7%nat
      = Some (Observer.mkImg "https://example.com/hero.webp"
                (Some "https://example.com/hero.webp") None true)
      /\ 7%nat ∉ Observer.observed st1)
  /\ ((exists im, Observer.imgs st2 !! 7%nat = Some im
                  /\ Observer.src im = "https://example.com/hero.webp")
      /\ 7%nat ∉ Observer.observed st2).
Proof.
  apply (lazy_image_source_restored Observer.LazyScript (or_introl eq_refl)
           7%nat "https://example.com/hero.webp" None
           ltac:(discriminate) ltac:(discriminate)
           {[ 7%nat := Observer.mkImg "https://example.com/hero.webp" None None false ]}
           [7%nat]
           [Observer.Cycle (fun _ => false); Observer.ImgLoad 7%nat]
           [Observer.ImgLoad 7%nat]
           (fun n : nat => Nat.eqb n 7)).
  - reflexivity.
  - apply list_elem_of_here.
  - intros vis' Hin. apply elem_of_cons in Hin as [E | Hin].
    + injection E as ->. reflexivity.
    + apply elem_of_cons in Hin as [E | Hin]; [discriminate | inversion Hin].
  - reflexivity.
Defined.

(** * Outbound link tagging: further properties *)

Section OutboundMore.
Import Outbound.

Variable URL_parser : string -> option URLRecord.

(** Tagging changes nothing but the tracking parameters.  The rewritten
    href is the serialisation of the link's URL as [new URL] read it: the
    part before the query and the fragment are those of the parsed URL,
    the query is the form-encoded list of parameters, and the pairs of that
    list whose name is not one of the eight tracking names are those of the
    link's query, decoded, in their order.  Both files, with the page's
    parameters or with the defaults. *)
Theorem tagging_keeps_other_parameters (search href : string)
    (rel : option string) (rec : URLRecord) (l' : Link) :
  URL_parser href = Some rec ->
  includes PARTNER_DOMAIN href = true ->
  l' = Script_process_link URL_parser (getUrlParams search)
         (mkLink (Some href) rel)
  \/ l' = Optimized_process_link URL_parser (getUrlParams search)
            (mkLink (Some href) rel) ->
  exists u',
    link_href l' = Some (URL_toString u')
    /\ url_base (record u') = url_base rec
    /\ url_fragment (record u') = url_fragment rec
    /\ url_query (record u') = Some (USP_toString (searchParams u'))
    /\ filter (fun p => p.1 ∉ TRACKING_KEYS) (searchParams u')
       = filter (fun p => p.1 ∉ TRACKING_KEYS)
                (urlencoded_parse (default "" (url_query rec))).
Proof.
  intros Hu Hd Hl.
  destruct (process_link_effect URL_parser _ _ _ _ _ Hu Hd Hl) as (Hh & _).
  set (u := mkURL rec (urlencoded_parse (default "" (url_query rec)))) in *.
  exists (tag u (getUrlParams search)). split; [exact Hh|].
  unfold tag.
  set (ps := if Nat.eqb (length (getUrlParams search)) 0
             then DEFAULT_UTM else getUrlParams search).
  destruct (fold_set_record ps u) as (Hb & Hf & Hq).
  destruct Hq as [Hq _].
  { unfold ps. destruct (getUrlParams search); discriminate. }
  split; [exact Hb|]. split; [exact Hf|]. split; [exact Hq|].
  apply (fold_set_param_outside TRACKING_KEYS ps u).
  apply (applied_keys_tracking search).
Qed.

(** A link that is not rewritten.  Without href, or with an href that does
    not contain the partner domain, both files leave the link alone.  With
    an href that contains the domain and that [new URL] rejects, script.js
    leaves the link alone, while the optimised file keeps the href and
    still makes sure that rel contains noopener. *)
Theorem links_left_alone (params : list (string * string)) (link : Link) :
  ((forall h, link_href link = Some h -> includes PARTNER_DOMAIN h = false) ->
   Script_process_link URL_parser params link = link
   /\ Optimized_process_link URL_parser params link = link)
  /\ (forall h, link_href link = Some h ->
        includes PARTNER_DOMAIN h = true -> URL_parser h = None ->
        Script_process_link URL_parser params link = link
        /\ link_href (Optimized_process_link URL_parser params link) = Some h
        /\ exists r, link_rel (Optimized_process_link URL_parser params link)
                     = Some r
                     /\ includes "noopener" r = true).
Proof.
  split.
  - intros H. unfold Script_process_link, Optimized_process_link.
    destruct (link_href link) as [h|]; [|split; reflexivity].
    rewrite (H h eq_refl). rewrite andb_false_r, orb_true_r. split; reflexivity.
  - intros h Hh Hd Hp. destruct link as [lh lr]. simpl in Hh. subst lh.
    destruct (process_link_rejected URL_parser params h lr Hp) as (E1 & E2 & E3).
    auto.
Qed.

Lemma omap_keys_sublist (f : string -> option string) (ks : list string) :
  (omap (fun k => (fun v => (k, v)) <$> f k) ks).*1 `sublist_of` ks.
Proof.
  induction ks as [|k ks IH]; [constructor|].
  simpl. destruct (f k); simpl; [apply sublist_skip | apply sublist_cons]; exact IH.
Qed.

(** What is read from the page: exactly the tracking names that the page
    query carries, each once and in the fixed order of the list of names,
    each with the value of its first occurrence in the query. *)
Theorem page_parameters_read (search : string) :
  (getUrlParams search).*1 `sublist_of` TRACKING_KEYS
  /\ NoDup (getUrlParams search).*1
  /\ (forall k v, (k, v) ∈ getUrlParams search
                  <-> k ∈ TRACKING_KEYS
                      /\ exists before after,
                           USP_parse search = before ++ (k, v) :: after
                           /\ k ∉ before.*1).
Proof.
  split; [apply omap_keys_sublist|]. split; [apply getUrlParams_NoDup|].
  intros k v. rewrite getUrlParams_elem.
  enough (G : forall l, USP_get k l = Some v
                        <-> exists before after,
                              l = before ++ (k, v) :: after /\ k ∉ before.*1)
    by (rewrite G; reflexivity).
  induction l as [|[k0 v0] l IH]; cbn [USP_get].
  - split; [discriminate|]. intros (b & a & E & _). destruct b; discriminate.
  - case_bool_decide as E0.
    + subst k0. split.
      * intros [= ->]. exists [], l. split; [reflexivity | inversion 1].
      * intros ([|[k1 v1] b] & a & E & Hn).
        -- injection E as -> _. reflexivity.
        -- injection E as -> -> _. exfalso. apply Hn. simpl. apply list_elem_of_here.
    + rewrite IH. split.
      * intros (b & a & -> & Hn). exists ((k0, v0) :: b), a.
        split; [reflexivity|]. simpl. intros Hin.
        apply elem_of_cons in Hin as [-> | Hin]; [congruence | exact (Hn Hin)].
      * intros ([|[k1 v1] b] & a & E & Hn).
        -- injection E as -> _ _. congruence.
        -- injection E as -> -> ->. exists b, a. split; [reflexivity|].
           intros Hin. apply Hn. simpl. apply list_elem_of_further, Hin.
Qed.

End OutboundMore.

Lemma tagging_keeps_other_parameters_witness :
  let l' := Outbound.Script_process_link Outbound.sample_URL_parser
              (Outbound.getUrlParams "?utm_source=bing")
              (Outbound.mkLink
                 (Some "https://rqgstore.com?q=a%20b&utm_source=google&r=v=w#buy")
                 None) in
  l' = Outbound.mkLink
         (Some "https://rqgstore.com/?q=a+b&utm_source=bing&r=v%3Dw#buy")
         (Some " noopener")
  /\ exists u',
       Outbound.link_href l' = Some (Outbound.URL_toString u')
       /\ Outbound.url_base (Outbound.record u') = "https://rqgstore.com/"
       /\ Outbound.url_fragment (Outbound.record u') = Some "buy"
       /\ Outbound.url_query (Outbound.record u')
          = Some (Outbound.USP_toString (Outbound.searchParams u'))
       /\ filter (fun p => p.1 ∉ Outbound.TRACKING_KEYS) (Outbound.searchParams u')
          = [("q", "a b"); ("r", "v=w")].
Proof.
  split; [vm_compute; reflexivity|].
  apply (tagging_keeps_other_parameters Outbound.sample_URL_parser
           "?utm_source=bing"
           "https://rqgstore.com?q=a%20b&utm_source=google&r=v=w#buy" None
           (Outbound.mkURLRecord "https://rqgstore.com/"
              (Some "q=a%20b&utm_source=google&r=v=w") (Some "buy"))).
  - vm_compute. reflexivity.
  - reflexivity.
  - left. reflexivity.
Defined.

Lemma links_left_alone_witness :
  let link := Outbound.mkLink (Some "//rqgstore.com/x") (Some "nofollow") in
  Outbound.Script_process_link Outbound.sample_URL_parser [] link = link
  /\ Outbound.link_href
       (Outbound.Optimized_process_link Outbound.sample_URL_parser [] link)
     = Some "//rqgstore.com/x"
  /\ exists r,
       Outbound.link_rel
         (Outbound.Optimized_process_link Outbound.sample_URL_parser [] link)
       = Some r
       /\ Outbound.includes "noopener" r = true.
Proof.
  apply (proj2 (links_left_alone Outbound.sample_URL_parser []
                  (Outbound.mkLink (Some "//rqgstore.com/x") (Some "nofollow")))
           "//rqgstore.com/x"); reflexivity.
Defined.

(** * Accordion: properties *)

Section AccordionFacts.
Import Optional Accordion.

Variable scrollHeight : nat -> Z.

Lemma closePanel_facts (a : Item) :
  well_formed (closePanel a) = well_formed a
  /\ (well_formed a = true -> item_active (closePanel a) = false)
  /\ (well_formed a = false -> closePanel a = a)
  /\ consistent (closePanel a).
Proof.
  destruct a as [[e|] [m|] act [ic|]]; unfold closePanel, consistent, well_formed;
    cbn; repeat split; intros; try discriminate; try congruence;
    repeat split; intros; try discriminate; try congruence;
    match goal with H : is_Some None |- _ => destruct H; discriminate end.
Qed.

Lemma openItem_facts (hgt : Z) (a : Item) :
  well_formed (openItem hgt a) = true
  /\ item_active (openItem hgt a) = true
  /\ header_expanded (openItem hgt a) = Some true
  /\ panel_maxHeight (openItem hgt a) = Some (Some hgt)
  /\ consistent (openItem hgt a).
Proof.
  destruct a as [e m act [ic|]]; unfold openItem, consistent, well_formed;
    cbn; repeat split; intros; eauto; try discriminate; try congruence.
Qed.

Lemma openPanel_lookup (i j : nat) (items : list Item) (a : Item) :
  items !! i = Some a -> well_formed a = true ->
  openPanel scrollHeight i items !! j
  = (fun other => if Nat.eqb j i then openItem (scrollHeight i) other
                  else closePanel other) <$> items !! j.
Proof.
  intros Hi Hw. unfold openPanel. rewrite Hi.
  unfold well_formed in Hw.
  destruct (header_expanded a), (panel_maxHeight a); try discriminate.
  apply list_lookup_imap.
Qed.

Lemma openPanel_malformed (i : nat) (items : list Item) :
  (forall a, items !! i = Some a -> well_formed a = false) ->
  openPanel scrollHeight i items = items.
Proof.
  intros H. unfold openPanel. destruct (items !! i) as [a|]; [|reflexivity].
  specialize (H a eq_refl). unfold well_formed in H.
  destruct (header_expanded a), (panel_maxHeight a); try discriminate; reflexivity.
Qed.

Lemma openPanel_evolves (i : nat) (items : list Item) :
  Forall2 evolves items (openPanel scrollHeight i items).
Proof.
  destruct (items !! i) as [a|] eqn:Hi.
  - destruct (well_formed a) eqn:Hw.
    + apply Forall2_same_length_lookup. split.
      * unfold openPanel. rewrite Hi. unfold well_formed in Hw.
        destruct (header_expanded a), (panel_maxHeight a); try discriminate.
        symmetry. apply length_imap.
      * intros j x y Hx Hy. rewrite (openPanel_lookup i j items a Hi Hw), Hx in Hy.
        simpl in Hy. injection Hy as <-.
        destruct (Nat.eqb_spec j i) as [-> | N].
        -- right. right. rewrite Hi in Hx. injection Hx as <-. eauto.
        -- right. left. reflexivity.
    + rewrite openPanel_malformed by (intros a' E; congruence).
      apply Forall_Forall2_diag, Forall_forall. intros; left; reflexivity.
  - rewrite openPanel_malformed by (intros a' E; congruence).
    apply Forall_Forall2_diag, Forall_forall. intros; left; reflexivity.
Qed.








Lemma closed_not_open (a : Item) :
  well_formed (closePanel a) = true -> item_active (closePanel a) = true ->
  well_formed a = true /\ item_active a = true.
Proof.
  destruct (closePanel_facts a) as (E & F & _). rewrite E. intros Hw Ha.
  rewrite (F Hw) in Ha. discriminate.
Qed.

Lemma openPanel_only_open (i : nat) (items : list Item) (a : Item) :
  items !! i = Some a -> well_formed a = true ->
  forall j b, openPanel scrollHeight i items !! j = Some b ->
              well_formed b = true -> (item_active b = true <-> j = i).
Proof.
  intros Hi Hw j b Hb Wb. rewrite (openPanel_lookup i j items a Hi Hw) in Hb.
  destruct (items !! j) as [c|]; [|discriminate]. simpl in Hb. injection Hb as <-.
  destruct (Nat.eqb_spec j i) as [-> | N].
  - destruct (openItem_facts (scrollHeight i) c) as (_ & A & _).
    split; [intros _; reflexivity | intros _; exact A].
  - split; [|intros E; contradiction]. intros Ha.
    destruct (closed_not_open c Wb Ha) as [Wc _].
    destruct (closePanel_facts c) as (_ & F & _). rewrite (F Wc) in Ha. discriminate.
Qed.


(** A click on the header of a closed item that has a panel opens that
    item and closes every other well-formed item: afterwards it is the only
    well-formed item that is open, its panel is as high as its content, and
    items without header or panel are as they were. *)
Theorem accordion_click_opens_only_that_item (i : nat) (items : list Item)
    (a : Item) :
  items !! i = Some a ->
  header_expanded a = Some false -> is_Some (panel_maxHeight a) ->
  let r := toggleItem scrollHeight i items in
  length r = length items
  /\ (forall j b, r !! j = Some b -> well_formed b = true ->
                 (item_active b = true <-> j = i))
  /\ (exists o, r !! i = Some o /\ header_expanded o = Some true
                /\ panel_maxHeight o = Some (Some (scrollHeight i)))
  /\ (forall j b, items !! j = Some b -> well_formed b = false ->
                 r !! j = Some b).
Proof.
  intros Hi He [m Hm]. cbn zeta.
  assert (Hw : well_formed a = true) by (unfold well_formed; rewrite He, Hm; reflexivity).
  assert (Er : toggleItem scrollHeight i items = openPanel scrollHeight i items)
    by (unfold toggleItem; rewrite Hi, He; reflexivity).
  rewrite Er. split; [|split; [|split]].
  - symmetry. apply (Forall2_length _ _ _ (openPanel_evolves i items)).
  - apply (openPanel_only_open i items a Hi Hw).
  - exists (openItem (scrollHeight i) a).
    rewrite (openPanel_lookup i i items a Hi Hw), Hi, Nat.eqb_refl.
    split; [reflexivity|]. split; reflexivity.
  - intros j b Hb Wb. rewrite (openPanel_lookup i j items a Hi Hw), Hb. simpl.
    destruct (Nat.eqb_spec j i) as [-> | N]; [congruence|].
    f_equal. apply closePanel_facts, Wb.
Qed.


End AccordionFacts.

Lemma accordion_click_opens_witness :
  let items := [Optional.mkItem (Some true) (Some (Some 120)) true (Some true);
                Optional.mkItem (Some false) (Some None) false (Some false);
                Optional.mkItem None (Some None) true None] in
  let r := Accordion.toggleItem (fun _ => 80) 1 items in
  r = [Optional.mkItem (Some false) (Some None) false (Some false);
       Optional.mkItem (Some true) (Some (Some 80)) true (Some true);
       Optional.mkItem None (Some None) true None]
  /\ length r = 3%nat
  /\ (forall j b, r !! j = Some b -> Accordion.well_formed b = true ->
                 (Optional.item_active b = true <-> j = 1%nat)).
Proof.
  split; [reflexivity|].
  destruct (accordion_click_opens_only_that_item (fun _ => 80) 1
              [Optional.mkItem (Some true) (Some (Some 120)) true (Some true);
               Optional.mkItem (Some false) (Some None) false (Some false);
               Optional.mkItem None (Some None) true None]
              (Optional.mkItem (Some false) (Some None) false (Some false))
              eq_refl eq_refl (mk_is_Some _ _ eq_refl)) as (H1 & H2 & _).
  split; [exact H1 | exact H2].
Defined.

(** A click outside the accordion.  In the optimised file it closes every
    well-formed item and leaves the others alone, and a click inside
    changes nothing; the listener of script.js never closes anything: when
    it returns normally the items are as they were. *)
Theorem click_outside_closes_every_item (items : list Optional.Item) :
  (forall j b,
      Optional.Optimized_document_click items false !! j = Some b ->
      Accordion.well_formed b = true ->
      Optional.item_active b = false
      /\ Optional.header_expanded b = Some false
      /\ Optional.panel_maxHeight b = Some None)
  /\ (forall j a, items !! j = Some a -> Accordion.well_formed a = false ->
                  Optional.Optimized_document_click items false !! j = Some a)
  /\ Optional.Optimized_document_click items true = items
  /\ (forall acc inside r,
        Optional.Script_document_click acc inside = Ok r -> r = acc).
Proof.
  unfold Optional.Optimized_document_click. simpl. repeat split.
  - rewrite list_lookup_fmap in H. destruct (items !! j) as [a|]; [|discriminate].
    injection H as <-. destruct a as [[e|] [m|] act ic]; try discriminate.
    reflexivity.
  - rewrite list_lookup_fmap in H. destruct (items !! j) as [a|]; [|discriminate].
    injection H as <-. destruct a as [[e|] [m|] act ic]; try discriminate.
    reflexivity.
  - rewrite list_lookup_fmap in H. destruct (items !! j) as [a|]; [|discriminate].
    injection H as <-. destruct a as [[e|] [m|] act ic]; try discriminate.
    reflexivity.
  - intros j a Ha Hw. rewrite list_lookup_fmap, Ha. simpl. f_equal.
    destruct a as [[e|] [m|] act ic]; try discriminate; reflexivity.
  - intros [items'|] [|] r; simpl; try discriminate; try congruence.
    destruct items'; [congruence | discriminate].
Qed.

Lemma optimized_missing_optional_elements_witness :
  let w := Optimized.init (set_backToTopBtn None sample_dom) in
  let d := Countdown.mkDom None None None None None None in
  Optional.Optimized_initAccordion None = []
  /\ backToTopBtn (dom (Optimized.updateHeader w)) = None
  /\ Countdown.Optimized_updateCountdown Countdown.parse_iso
       Countdown.format_iso 1793923200123 d = d
  /\ Observer.observed (Optional.Optimized_init_animated []) = ∅.
Proof.
  apply (optimized_missing_optional_elements
           (Optimized.init (set_backToTopBtn None sample_dom))
           Countdown.parse_iso Countdown.format_iso 1793923200123
           (Countdown.mkDom None None None None None None));
    reflexivity.
Defined.

(** * Pricing cards: properties *)

Lemma pricing_step_same (cards : list Pricing.Card) (ev : Pricing.Event) :
  Forall2 Pricing.same_card cards (Pricing.Script_step cards ev)
  /\ Forall2 Pricing.same_card cards (Pricing.Optimized_step cards ev).
Proof.
  assert (Hrefl : Forall2 Pricing.same_card cards cards).
  { apply Forall_Forall2_diag, Forall_forall. intros c _. split; auto. }
  assert (Hmap : forall tr op,
             Forall2 Pricing.same_card cards
               ((fun otherCard =>
                   if negb (Pricing.featured otherCard)
                   then Pricing.restyle tr op otherCard else otherCard) <$> cards)).
  { intros tr op. apply Forall2_fmap_r, Forall_Forall2_diag, Forall_forall.
    intros c _. unfold Pricing.same_card. simpl.
    destruct (Pricing.featured c) eqn:E; simpl; rewrite ?E; split; auto.
    discriminate. }
  assert (Halter : forall tr op i this l,
             cards !! i = Some this -> Pricing.featured this = false ->
             Forall2 Pricing.same_card cards l ->
             Forall2 Pricing.same_card cards (alter (Pricing.restyle tr op) i l)).
  { intros tr op i this l Hi Hf HF.
    apply Forall2_same_length_lookup. split.
    - rewrite length_alter. apply (Forall2_length _ _ _ HF).
    - intros j a b Ha Hb. destruct (decide (i = j)) as [<- | N].
      + rewrite list_lookup_alter_eq in Hb.
        destruct (l !! i) as [c|] eqn:Hc; [|discriminate]. injection Hb as <-.
        destruct (Forall2_lookup_lr _ _ _ _ _ _ HF Ha Hc) as [E1 E2].
        rewrite Hi in Ha. injection Ha as <-. split; [exact E1|]. congruence.
      + rewrite list_lookup_alter_ne in Hb by exact N.
        apply (Forall2_lookup_lr _ _ _ _ _ _ HF Ha Hb). }
  destruct ev as [i [|] | i]; simpl;
    unfold Pricing.mouseenter, Pricing.Script_mouseleave,
      Pricing.Optimized_mouseleave;
    try (split; exact Hrefl);
    destruct (cards !! i) as [this|] eqn:Hi; try (split; exact Hrefl);
    destruct (Pricing.featured this) eqn:Hf; simpl; try (split; exact Hrefl).
  - split; apply (Halter _ _ i this _ Hi Hf), Hmap.
  - split; [apply Hmap | apply (Halter _ _ i this _ Hi Hf), Hmap].
Qed.

Lemma same_card_trans (a b c : Pricing.Card) :
  Pricing.same_card a b -> Pricing.same_card b c -> Pricing.same_card a c.
Proof.
  intros [E1 F1] [E2 F2]. split; [congruence|].
  intros Hf. rewrite F2, F1; auto. rewrite E1. exact Hf.
Qed.

(** Hovering never restyles a featured card and never changes which cards
    are featured or how many there are, whatever the sequence of pointer
    events; right after the pointer enters a card that is not featured
    (and not over its order button), that card is raised and every other
    card that is not featured is dimmed.  Both files. *)
Theorem pricing_featured_cards_untouched (evs : list Pricing.Event)
    (cards : list Pricing.Card) :
  (Forall2 Pricing.same_card cards (fold_left Pricing.Script_step evs cards)
   /\ Forall2 Pricing.same_card cards
        (fold_left Pricing.Optimized_step evs cards))
  /\ (forall i this, cards !! i = Some this -> Pricing.featured this = false ->
        forall j c, cards !! j = Some c ->
          Pricing.mouseenter i false cards !! j
          = Some (if decide (j = i) then Pricing.mkCard false "translateY(-10px)" "1"
                  else if Pricing.featured c then c
                  else Pricing.mkCard false "scale(0.98)" "0.9")).
Proof.
  split.
  - assert (Hrefl : Forall2 Pricing.same_card cards cards).
    { apply Forall_Forall2_diag, Forall_forall. intros c _. split; auto. }
    split.
    + enough (G : forall cur, Forall2 Pricing.same_card cards cur ->
                    Forall2 Pricing.same_card cards
                      (fold_left Pricing.Script_step evs cur))
        by (apply G, Hrefl).
      induction evs as [|ev evs IH]; intros cur H; [exact H|].
      apply (IH (Pricing.Script_step cur ev)).
      apply (Forall2_trans Pricing.same_card Pricing.same_card _ _ cur);
        [apply same_card_trans | exact H | apply pricing_step_same].
    + enough (G : forall cur, Forall2 Pricing.same_card cards cur ->
                    Forall2 Pricing.same_card cards
                      (fold_left Pricing.Optimized_step evs cur))
        by (apply G, Hrefl).
      induction evs as [|ev evs IH]; intros cur H; [exact H|].
      apply (IH (Pricing.Optimized_step cur ev)).
      apply (Forall2_trans Pricing.same_card Pricing.same_card _ _ cur);
        [apply same_card_trans | exact H | apply pricing_step_same].
  - intros i this Hi Hf j c Hc. unfold Pricing.mouseenter.
    rewrite Hi, Hf. cbn [negb]. destruct (decide (j = i)) as [-> | N].
    + rewrite list_lookup_alter_eq, list_lookup_fmap, Hi. simpl.
      rewrite Hf. unfold Pricing.restyle. simpl. rewrite Hf. reflexivity.
    + rewrite list_lookup_alter_ne by congruence.
      rewrite list_lookup_fmap, Hc. simpl.
      destruct (Pricing.featured c) eqn:E; simpl; [reflexivity|].
      unfold Pricing.restyle. rewrite E. reflexivity.
Qed.

Lemma pricing_hover_witness :
  let cards := [Pricing.mkCard false "" ""; Pricing.mkCard true "" "";
                Pricing.mkCard false "" ""] in
  Pricing.mouseenter 0 false cards !! 2%nat
  = Some (Pricing.mkCard false "scale(0.98)" "0.9")
  /\ Pricing.mouseenter 0 false cards !! 1%nat = Some (Pricing.mkCard true "" "")
  /\ Pricing.mouseenter 0 false cards !! 0%nat
     = Some (Pricing.mkCard false "translateY(-10px)" "1").
Proof.
  pose proof (proj2 (pricing_featured_cards_untouched []
                       [Pricing.mkCard false "" ""; Pricing.mkCard true "" "";
                        Pricing.mkCard false "" ""])
                0%nat (Pricing.mkCard false "" "") eq_refl eq_refl) as H.
  split; [exact (H 2%nat _ eq_refl)|].
  split; [exact (H 1%nat _ eq_refl) | exact (H 0%nat _ eq_refl)].
Defined.
